(** * Teensy ambisonic microphone array: audio I/O buffering layer

    A shallow embedding of the TDM slave transmit engine
    (AudioOutputTDM_Slave.cpp) and of the patched USB audio
    receive / transmit paths (patches/usb_audio.cpp), with the
    properties the design document states about them. *)

From Stdlib Require Import ZArith Lia ZifyNat.
From stdpp Require Import base list.

(** [lia] also decides goals with division and remainder by constants. *)
Ltac Zify.zify_post_hook ::= Z.to_euclidean_division_equations.

(** ** Machine integers

    Unsigned 16 and 32 bit values are kept as [Z] with the wrap-around
    written out; an [int16_t] sample is the signed reading of its low
    sixteen bits. *)

Definition u16 (z : Z) : Z := (z mod 65536)%Z.
Definition u32 (z : Z) : Z := (z mod 4294967296)%Z.
Definition int16 (z : Z) : Z := ((z + 32768) mod 65536 - 32768)%Z.

(** An array read [a[i]] is written [l !!! i].  Every array of the code
    has a fixed size and the code never reads past it; the lookup
    yields a fixed value there. *)

(** ** Audio blocks and the block pool (consumed interface)

    [audio_block_t] carries an identity (standing for the pointer) and
    its [data] array of [int16_t] samples.  The allocator itself is an
    external collaborator: whether an [allocate] succeeds, and what the
    fresh (uninitialised) block contains, is given by an oracle indexed
    by the number of the call.  [release] is recorded in a log. *)

Record audio_block_t := Block { blk_id : nat; data : list Z }.

Record pool_t := Pool {
  pool_oracle : nat -> option (list Z);
  pool_calls : nat;
  pool_released : list nat
}.

Definition count_call (p : pool_t) : pool_t :=
  Pool (pool_oracle p) (S (pool_calls p)) (pool_released p).

Definition allocate (p : pool_t) : option audio_block_t * pool_t :=
  match pool_oracle p (pool_calls p) with
  | Some d => (Some (Block (pool_calls p) d), count_call p)
  | None => (None, count_call p)
  end.

Definition release (b : audio_block_t) (p : pool_t) : pool_t :=
  Pool (pool_oracle p) (pool_calls p) (blk_id b :: pool_released p).

(** [(uint32_t * )(block->data)]: the sample array read as little-endian
    32-bit words, two samples per word. *)
Fixpoint as_uint32 (d : list Z) : list Z :=
  match d with
  | lo :: hi :: r => Z.lor (u16 lo) (Z.shiftl (u16 hi) 16) :: as_uint32 r
  | _ => []
  end.

(** * The TDM slave transmit engine *)

Module TDM.

(** The two output words memcpy_tdm_tx builds from one word of each
    source. *)
Definition tdm_out1 (in1 in2 : Z) : Z :=
  Z.lor (u32 (Z.shiftl in1 16)) (Z.land in2 65535).
Definition tdm_out2 (in1 in2 : Z) : Z :=
  Z.lor (Z.land in1 4294901760) (Z.shiftr in2 16).

Record tdm_state := State {
  block_input : list (option audio_block_t);
  update_responsibility : bool;
  zeros : list Z;
  tdm_tx_buffer : list Z;
  pool : pool_t
}.

Section WithBlockSize.

(** AUDIO_BLOCK_SAMPLES comes from the audio library's headers. *)
Variable AUDIO_BLOCK_SAMPLES : nat.

(** begin(): the hardware set-up is outside the model; [update_setup]
    is the answer of AudioStream::update_setup(). *)
Definition begin (update_setup : bool) (st : tdm_state) : tdm_state :=
  State (replicate 16 None) update_setup
        (replicate (AUDIO_BLOCK_SAMPLES / 2) 0%Z)
        (replicate (AUDIO_BLOCK_SAMPLES * 16) 0%Z)
        (pool st).

(** memcpy_tdm_tx: [n] iterations are left, [dest] and [s] are the
    current positions in the destination buffer and in both sources. *)
Fixpoint memcpy_tdm_tx_loop (n dest s : nat) (src1 src2 buf : list Z) : list Z :=
  match n with
  | O => buf
  | S n' =>
      let in1 := src1 !!! s in
      let in2 := src2 !!! s in
      let buf := <[dest := tdm_out1 in1 in2]> buf in
      let buf := <[dest + 8 := tdm_out2 in1 in2]> buf in
      let in1 := src1 !!! (s + 1) in
      let in2 := src2 !!! (s + 1) in
      let buf := <[dest + 16 := tdm_out1 in1 in2]> buf in
      let buf := <[dest + 24 := tdm_out2 in1 in2]> buf in
      memcpy_tdm_tx_loop n' (dest + 32) (s + 2) src1 src2 buf
  end.

Definition memcpy_tdm_tx (dest : nat) (src1 src2 buf : list Z) : list Z :=
  memcpy_tdm_tx_loop (AUDIO_BLOCK_SAMPLES / 4) dest 0 src1 src2 buf.

(** The source the ISR reads for channel [i]: the block's samples as
    words, or the shared zero buffer. *)
Definition channel_src (st : tdm_state) (i : nat) : list Z :=
  match block_input st !!! i with
  | Some b => as_uint32 (data b)
  | None => zeros st
  end.

(** for (i=0; i < 16; i += 2) { ... memcpy_tdm_tx(dest, src1, src2); dest++; } *)
Fixpoint isr_copy_loop (n i dest : nat) (st : tdm_state) (buf : list Z) : list Z :=
  match n with
  | O => buf
  | S n' =>
      let src1 := channel_src st i in
      let src2 := channel_src st (i + 1) in
      isr_copy_loop n' (i + 2) (dest + 1) st (memcpy_tdm_tx dest src1 src2 buf)
  end.

(** for (i=0; i < 16; i++) if (block_input[i]) { release; block_input[i] = nullptr; } *)
Fixpoint isr_release_loop (n i : nat) (bi : list (option audio_block_t)) (p : pool_t)
  : list (option audio_block_t) * pool_t :=
  match n with
  | O => (bi, p)
  | S n' =>
      match bi !!! i with
      | Some b => isr_release_loop n' (i + 1) (<[i := None]> bi) (release b p)
      | None => isr_release_loop n' (i + 1) bi p
      end
  end.

(** Which half is free: [saddr] is the DMA source pointer, as a byte
    offset from the start of tdm_tx_buffer; the result is a word index. *)
Definition isr_dest (saddr : Z) : nat :=
  if (saddr <? Z.of_nat (AUDIO_BLOCK_SAMPLES * 16 * 4) / 2)%Z
  then AUDIO_BLOCK_SAMPLES * 8 else 0.

(** update(): [receiveReadOnly i] is what the input queue of channel
    [i] hands over (with its ownership) in this pass. *)
Fixpoint update_swap_loop (n i : nat) (receiveReadOnly : nat -> option audio_block_t)
    (prev bi : list (option audio_block_t))
  : list (option audio_block_t) * list (option audio_block_t) :=
  match n with
  | O => (prev, bi)
  | S n' =>
      update_swap_loop n' (i + 1) receiveReadOnly
        (<[i := bi !!! i]> prev) (<[i := receiveReadOnly i]> bi)
  end.

Fixpoint update_release_loop (n i : nat) (prev : list (option audio_block_t)) (p : pool_t)
  : pool_t :=
  match n with
  | O => p
  | S n' =>
      match prev !!! i with
      | Some b => update_release_loop n' (i + 1) prev (release b p)
      | None => update_release_loop n' (i + 1) prev p
      end
  end.

Definition update (receiveReadOnly : nat -> option audio_block_t) (st : tdm_state)
  : tdm_state :=
  let '(prev, bi) :=
    update_swap_loop 16 0 receiveReadOnly (replicate 16 None) (block_input st) in
  State bi (update_responsibility st) (zeros st) (tdm_tx_buffer st)
        (update_release_loop 16 0 prev (pool st)).

(** AudioStream::update_all() as far as this object is concerned: its
    own update() runs with the blocks [upd] hands over, or does not run
    at all ([None], the object is not active in the graph). *)
Definition update_all (upd : option (nat -> option audio_block_t)) (st : tdm_state)
  : tdm_state :=
  match upd with
  | Some receiveReadOnly => update receiveReadOnly st
  | None => st
  end.

(** isr(): when this object holds the update responsibility the
    cooperative pass runs first ([isr_pre]); then the free half is
    filled and every slot is released ([isr_body]). *)
Definition isr_pre (upd : option (nat -> option audio_block_t)) (st : tdm_state)
  : tdm_state :=
  if update_responsibility st then update_all upd st else st.

Definition isr_body (saddr : Z) (st : tdm_state) : tdm_state :=
  let dest := isr_dest saddr in
  let buf := isr_copy_loop 8 0 dest st (tdm_tx_buffer st) in
  let '(bi, p) := isr_release_loop 16 0 (block_input st) (pool st) in
  State bi (update_responsibility st) (zeros st) buf p.

Definition isr (upd : option (nat -> option audio_block_t)) (saddr : Z) (st : tdm_state)
  : tdm_state :=
  isr_body saddr (isr_pre upd st).

(** One full update+ISR cycle: the update pass runs inside the ISR when
    this object is responsible for it, and just before it otherwise. *)
Definition cycle (c : (nat -> option audio_block_t) * Z) (st : tdm_state) : tdm_state :=
  isr (Some (fst c)) (snd c)
      (if update_responsibility st then st else update (fst c) st).

Fixpoint run_cycles (cs : list ((nat -> option audio_block_t) * Z)) (st : tdm_state)
  : tdm_state :=
  match cs with
  | [] => st
  | c :: cs' => run_cycles cs' (cycle c st)
  end.

(** What begin() establishes and every later call keeps: sixteen
    slots, a silence buffer of zeros, a transmit buffer of full size. *)
Definition tdm_inv (st : tdm_state) : Prop :=
  length (block_input st) = 16 /\
  zeros st = replicate (AUDIO_BLOCK_SAMPLES / 2) 0%Z /\
  length (tdm_tx_buffer st) = AUDIO_BLOCK_SAMPLES * 16.

(** The states the engine can be in once begin() has run. *)
Inductive reachable : tdm_state -> Prop :=
| reach_begin b st : reachable (begin b st)
| reach_update rx st : reachable st -> reachable (update rx st)
| reach_isr upd saddr st : reachable st -> reachable (isr upd saddr st).

End WithBlockSize.

(** Bookkeeping for the ownership statements: the blocks currently
    held in the channel slots, and the blocks one update pass takes
    over from its sixteen inputs. *)
Definition ids (l : list (option audio_block_t)) : list nat :=
  blk_id <$> omap id l.

Definition held (st : tdm_state) : list nat := ids (block_input st).

Definition deposited (receiveReadOnly : nat -> option audio_block_t) : list nat :=
  blk_id <$> omap receiveReadOnly (seq 0 16).

Definition outstanding (st : tdm_state) : nat := length (held st).

(** The sixteen bits of an output word that carry channel [c]: the
    first channel of a pair travels in the high half, the second in
    the low half.  [partner c] is the other channel of the pair. *)
Definition channel_half (c : nat) (w : Z) : Z :=
  if Nat.even c then Z.shiftr w 16 else Z.land w 65535.

Definition partner (c : nat) : nat :=
  if Nat.even c then c + 1 else c - 1.

(** A concrete scenario: blocks of 128 samples, channel 0 fed with a
    ramp and every other channel left without a producer. *)
Definition ramp_block : audio_block_t := Block 7 (Z.of_nat <$> seq 0 128).

Definition ramp_on_channel_0 (i : nat) : option audio_block_t :=
  if Nat.eqb i 0 then Some ramp_block else None.

Definition empty_pool : pool_t := Pool (fun _ => None) 0 [].

Definition cold_state : tdm_state := State [] false [] [] empty_pool.

Definition ramp_state : tdm_state :=
  update ramp_on_channel_0 (begin 128 false cold_state).

(** ** Calls in any order *)

(** update() called from the audio library's own pass, and isr() with
    what its update_all() hands over and the DMA source address. *)
Inductive tdm_op : Type :=
| OpUpdate (receiveReadOnly : nat -> option audio_block_t)
| OpIsr (upd : option (nat -> option audio_block_t)) (saddr : Z).

Definition do_op (ABS : nat) (o : tdm_op) (st : tdm_state) : tdm_state :=
  match o with
  | OpUpdate receiveReadOnly => update receiveReadOnly st
  | OpIsr upd saddr => isr ABS upd saddr st
  end.

Fixpoint run_ops (ABS : nat) (ops : list tdm_op) (st : tdm_state) : tdm_state :=
  match ops with
  | [] => st
  | o :: ops' => run_ops ABS ops' (do_op ABS o st)
  end.

(** The blocks a call takes over; an ISR takes some only when this
    object runs the update pass itself. *)
Definition op_deposited (responsible : bool) (o : tdm_op) : list nat :=
  match o with
  | OpUpdate receiveReadOnly => deposited receiveReadOnly
  | OpIsr (Some receiveReadOnly) _ =>
      if responsible then deposited receiveReadOnly else []
  | OpIsr None _ => []
  end.

(** Word [q] of tdm_tx_buffer lies in the half the DMA engine is
    reading when its source address is [saddr]. *)
Definition dma_half (ABS : nat) (saddr : Z) (q : nat) : Prop :=
  if (saddr <? Z.of_nat (ABS * 16 * 4) / 2)%Z
  then q < ABS * 8
  else ABS * 8 <= q.

(** ** The interleave law, as the design states it *)








(** A block of silence with identity [id] handed to channel [c], and
    nothing to the other channels. *)
Definition block_on_channel (c id : nat) (i : nat) : option audio_block_t :=
  if Nat.eqb i c then Some (Block id (replicate 128 0%Z)) else None.

End TDM.

(** * The USB audio receive and transmit paths *)

Module USB.

Local Open Scope Z_scope.

(** AudioInputUSB's static members. *)
Record rx_t := Rx {
  incoming_left : option audio_block_t;
  incoming_right : option audio_block_t;
  incoming_left2 : option audio_block_t;
  incoming_right2 : option audio_block_t;
  ready_left : option audio_block_t;
  ready_right : option audio_block_t;
  ready_left2 : option audio_block_t;
  ready_right2 : option audio_block_t;
  incoming_count : Z;
  receive_flag : Z
}.

(** AudioOutputUSB's static members. *)
Record tx_t := Tx {
  left_1st : option audio_block_t;
  left_2nd : option audio_block_t;
  right_1st : option audio_block_t;
  right_2nd : option audio_block_t;
  left2_1st : option audio_block_t;
  left2_2nd : option audio_block_t;
  right2_1st : option audio_block_t;
  right2_2nd : option audio_block_t;
  offset_1st : Z
}.

(** The file's globals, the static [count] of the transmit callback,
    the pool, and the log of AudioStream::transmit(block, channel)
    calls (most recent first).  [usb_audio_transmit_buffer] is kept as
    its uint16_t elements. *)
Record usb_state := State {
  rx : rx_t;
  tx : tx_t;
  usb_audio_transmit_buffer : list Z;
  usb_audio_transmit_setting : Z;
  feedback_accumulator : Z;
  usb_audio_underrun_count : Z;
  usb_audio_overrun_count : Z;
  count : Z;
  pool : pool_t;
  transmitted : list (nat * audio_block_t)
}.

Definition with_rx (r : rx_t) (st : usb_state) : usb_state :=
  State r (tx st) (usb_audio_transmit_buffer st) (usb_audio_transmit_setting st)
        (feedback_accumulator st) (usb_audio_underrun_count st)
        (usb_audio_overrun_count st) (count st) (pool st) (transmitted st).
Definition with_tx (t : tx_t) (st : usb_state) : usb_state :=
  State (rx st) t (usb_audio_transmit_buffer st) (usb_audio_transmit_setting st)
        (feedback_accumulator st) (usb_audio_underrun_count st)
        (usb_audio_overrun_count st) (count st) (pool st) (transmitted st).
Definition with_buffer (b : list Z) (st : usb_state) : usb_state :=
  State (rx st) (tx st) b (usb_audio_transmit_setting st)
        (feedback_accumulator st) (usb_audio_underrun_count st)
        (usb_audio_overrun_count st) (count st) (pool st) (transmitted st).
Definition with_setting (v : Z) (st : usb_state) : usb_state :=
  State (rx st) (tx st) (usb_audio_transmit_buffer st) v
        (feedback_accumulator st) (usb_audio_underrun_count st)
        (usb_audio_overrun_count st) (count st) (pool st) (transmitted st).
Definition with_feedback (v : Z) (st : usb_state) : usb_state :=
  State (rx st) (tx st) (usb_audio_transmit_buffer st) (usb_audio_transmit_setting st)
        v (usb_audio_underrun_count st)
        (usb_audio_overrun_count st) (count st) (pool st) (transmitted st).
Definition with_underrun (v : Z) (st : usb_state) : usb_state :=
  State (rx st) (tx st) (usb_audio_transmit_buffer st) (usb_audio_transmit_setting st)
        (feedback_accumulator st) v
        (usb_audio_overrun_count st) (count st) (pool st) (transmitted st).
Definition with_overrun (v : Z) (st : usb_state) : usb_state :=
  State (rx st) (tx st) (usb_audio_transmit_buffer st) (usb_audio_transmit_setting st)
        (feedback_accumulator st) (usb_audio_underrun_count st)
        v (count st) (pool st) (transmitted st).
Definition with_count (v : Z) (st : usb_state) : usb_state :=
  State (rx st) (tx st) (usb_audio_transmit_buffer st) (usb_audio_transmit_setting st)
        (feedback_accumulator st) (usb_audio_underrun_count st)
        (usb_audio_overrun_count st) v (pool st) (transmitted st).
Definition with_pool (p : pool_t) (st : usb_state) : usb_state :=
  State (rx st) (tx st) (usb_audio_transmit_buffer st) (usb_audio_transmit_setting st)
        (feedback_accumulator st) (usb_audio_underrun_count st)
        (usb_audio_overrun_count st) (count st) p (transmitted st).
Definition with_transmitted (l : list (nat * audio_block_t)) (st : usb_state) : usb_state :=
  State (rx st) (tx st) (usb_audio_transmit_buffer st) (usb_audio_transmit_setting st)
        (feedback_accumulator st) (usb_audio_underrun_count st)
        (usb_audio_overrun_count st) (count st) (pool st) l.

Definition set_incoming (l r l2 r2 : option audio_block_t) (x : rx_t) : rx_t :=
  Rx l r l2 r2 (ready_left x) (ready_right x) (ready_left2 x) (ready_right2 x)
     (incoming_count x) (receive_flag x).
Definition set_incoming_left (l : option audio_block_t) (x : rx_t) : rx_t :=
  set_incoming l (incoming_right x) (incoming_left2 x) (incoming_right2 x) x.
Definition set_incoming_right (r : option audio_block_t) (x : rx_t) : rx_t :=
  set_incoming (incoming_left x) r (incoming_left2 x) (incoming_right2 x) x.
Definition set_incoming_left2 (l2 : option audio_block_t) (x : rx_t) : rx_t :=
  set_incoming (incoming_left x) (incoming_right x) l2 (incoming_right2 x) x.
Definition set_incoming_right2 (r2 : option audio_block_t) (x : rx_t) : rx_t :=
  set_incoming (incoming_left x) (incoming_right x) (incoming_left2 x) r2 x.
Definition set_ready (l r l2 r2 : option audio_block_t) (x : rx_t) : rx_t :=
  Rx (incoming_left x) (incoming_right x) (incoming_left2 x) (incoming_right2 x)
     l r l2 r2 (incoming_count x) (receive_flag x).
Definition set_incoming_count (c : Z) (x : rx_t) : rx_t :=
  Rx (incoming_left x) (incoming_right x) (incoming_left2 x) (incoming_right2 x)
     (ready_left x) (ready_right x) (ready_left2 x) (ready_right2 x)
     c (receive_flag x).
Definition set_receive_flag (f : Z) (x : rx_t) : rx_t :=
  Rx (incoming_left x) (incoming_right x) (incoming_left2 x) (incoming_right2 x)
     (ready_left x) (ready_right x) (ready_left2 x) (ready_right2 x)
     (incoming_count x) f.

Definition set_1st (l r l2 r2 : option audio_block_t) (t : tx_t) : tx_t :=
  Tx l (left_2nd t) r (right_2nd t) l2 (left2_2nd t) r2 (right2_2nd t) (offset_1st t).
Definition set_2nd (l r l2 r2 : option audio_block_t) (t : tx_t) : tx_t :=
  Tx (left_1st t) l (right_1st t) r (left2_1st t) l2 (right2_1st t) r2 (offset_1st t).
Definition set_offset_1st (o : Z) (t : tx_t) : tx_t :=
  Tx (left_1st t) (left_2nd t) (right_1st t) (right_2nd t)
     (left2_1st t) (left2_2nd t) (right2_1st t) (right2_2nd t) o.

(** What a call can end in: a result, a null pointer dereference, or
    the iteration bound of the model running out. *)
Inductive result (A : Type) : Type :=
| Done (a : A)
| NullDeref
| OutOfFuel.
Arguments Done {A} a.
Arguments NullDeref {A}.
Arguments OutOfFuel {A}.

Definition release_opt (o : option audio_block_t) (p : pool_t) : pool_t :=
  match o with
  | Some b => release b p
  | None => p
  end.

Definition is_null (o : option audio_block_t) : bool :=
  match o with
  | Some _ => false
  | None => true
  end.

Section WithBlockSize.

(** AUDIO_BLOCK_SAMPLES comes from the audio library's headers. *)
Variable AUDIO_BLOCK_SAMPLES : Z.

(** usb_audio_configure(), its assignments to the globals of this
    model: the two counters and the feedback seed.  The sync
    parameters it sets are [configure_sync]; the three events it ends
    with, the closing tx_event(NULL) and its transmit callback among
    them, are [usb_audio_configure_events]; arming the endpoints is
    outside the model. *)
Definition usb_audio_configure (st : usb_state) : usb_state :=
  with_feedback 739875226 (with_overrun 0 (with_underrun 0 st)).

(** The host selecting an alternate setting of the transmit interface. *)
Definition set_transmit_setting (v : Z) (st : usb_state) : usb_state :=
  with_setting v st.

(** ** Receive path *)

Definition AudioInputUSB_begin (st : usb_state) : usb_state :=
  with_rx (Rx None None None None None None None None 0 0) st.

(** copy_to_buffers_4ch: [s] is the position of [src] in the receive
    buffer (in words), [k] the position of the four destinations in
    their blocks. *)
Fixpoint copy_to_buffers_4ch (len : nat) (src : list Z) (s k : nat)
    (left1 right1 left2 right2 : list Z) : list Z * list Z * list Z * list Z :=
  match len with
  | O => (left1, right1, left2, right2)
  | S len' =>
      let n1 := src !!! s in
      let n2 := src !!! (s + 1)%nat in
      copy_to_buffers_4ch len' src (s + 2) (k + 1)
        (<[k := int16 (Z.land n1 65535)]> left1)
        (<[k := int16 (Z.shiftr n1 16)]> right1)
        (<[k := int16 (Z.land n2 65535)]> left2)
        (<[k := int16 (Z.shiftr n2 16)]> right2)
  end.

Definition with_data (b : audio_block_t) (d : list Z) : audio_block_t :=
  Block (blk_id b) d.

(** The copy as the callback issues it, on the four blocks its locals
    point to. *)
Definition copy_to_blocks (rx_buffer : list Z) (dptr : nat) (cnt len : Z)
    (left1 right1 left2 right2 : audio_block_t)
  : audio_block_t * audio_block_t * audio_block_t * audio_block_t :=
  let '(dl, dr, dl2, dr2) :=
    copy_to_buffers_4ch (Z.to_nat len) rx_buffer dptr (Z.to_nat cnt)
      (data left1) (data right1) (data left2) (data right2) in
  (with_data left1 dl, with_data right1 dr, with_data left2 dl2, with_data right2 dr2).

Definition ready_occupied (x : rx_t) : bool :=
  negb (is_null (ready_left x)) || negb (is_null (ready_right x)) ||
  negb (is_null (ready_left2 x)) || negb (is_null (ready_right2 x)).

Definition clear_incoming (x : rx_t) : rx_t :=
  set_incoming_count 0 (set_incoming None None None None x).

(** The code from the label [send:] to the end of that branch: publish
    the four blocks, then allocate their replacements.  [None] in the
    first component means the callback returns. *)
Definition receive_send (left1 right1 left2 right2 : audio_block_t) (st : usb_state)
  : option (audio_block_t * audio_block_t * audio_block_t * audio_block_t) * usb_state :=
  let st := with_rx (set_ready (Some left1) (Some right1) (Some left2) (Some right2)
                               (rx st)) st in
  match allocate (pool st) with
  | (None, p) => (None, with_rx (clear_incoming (rx st)) (with_pool p st))
  | (Some left1, p) =>
      match allocate p with
      | (None, p) =>
          (None, with_rx (clear_incoming (rx st)) (with_pool (release left1 p) st))
      | (Some right1, p) =>
          match allocate p with
          | (None, p) =>
              (None, with_rx (clear_incoming (rx st))
                       (with_pool (release right1 (release left1 p)) st))
          | (Some left2, p) =>
              match allocate p with
              | (None, p) =>
                  (None, with_rx (clear_incoming (rx st))
                           (with_pool (release left2 (release right1 (release left1 p)))
                                      st))
              | (Some right2, p) =>
                  (Some (left1, right1, left2, right2),
                   with_rx (set_incoming (Some left1) (Some right1)
                                         (Some left2) (Some right2) (rx st))
                           (with_pool p st))
              end
          end
      end
  end.

(** The while loop of usb_audio_receive_callback; [dptr] is the
    position of the pointer [data] in the receive buffer, in words.
    The locals [left1 .. right2] point to the same blocks as the four incoming
    slots whenever the loop copies (they are loaded from the slots, and
    stored to them after every allocation), so what the copy writes is
    written to the slots' blocks as well. *)
Fixpoint receive_loop (fuel : nat) (rx_buffer : list Z) (len : Z) (dptr : nat) (cnt : Z)
    (left1 right1 left2 right2 : audio_block_t) (st : usb_state) : result usb_state :=
  match fuel with
  | O => OutOfFuel
  | S fuel' =>
      if len >? 0 then
        let avail := u32 (AUDIO_BLOCK_SAMPLES - cnt) in
        if len <? avail then
          let '(l, r, l2, r2) :=
            copy_to_blocks rx_buffer dptr cnt len left1 right1 left2 right2 in
          Done (with_rx (set_incoming_count (u16 (cnt + len))
                           (set_incoming (Some l) (Some r) (Some l2) (Some r2) (rx st)))
                        st)
        else if avail >? 0 then
          let '(l, r, l2, r2) :=
            copy_to_blocks rx_buffer dptr cnt avail left1 right1 left2 right2 in
          let st := with_rx (set_incoming (Some l) (Some r) (Some l2) (Some r2) (rx st))
                            st in
          let dptr := (dptr + Z.to_nat (avail * 2))%nat in
          let len := len - avail in
          if ready_occupied (rx st) then
            let st := with_rx (set_incoming_count (u16 (cnt + avail)) (rx st)) st in
            Done (if len >? 0
                  then with_overrun (u32 (usb_audio_overrun_count st + 1)) st
                  else st)
          else
            match receive_send l r l2 r2 st with
            | (Some (l', r', l2', r2'), st') =>
                receive_loop fuel' rx_buffer len dptr 0 l' r' l2' r2' st'
            | (None, st') => Done st'
            end
        else
          if ready_occupied (rx st) then Done st
          else
            match receive_send left1 right1 left2 right2 st with
            | (Some (l', r', l2', r2'), st') =>
                receive_loop fuel' rx_buffer len dptr 0 l' r' l2' r2' st'
            | (None, st') => Done st'
            end
      else Done (with_rx (set_incoming_count (u16 cnt) (rx st)) st)
  end.

(** One step of the first allocation chain: keep the block the slot
    has, or allocate one and store it in the slot at once. *)
Definition acquire (cur : option audio_block_t)
    (store : option audio_block_t -> rx_t -> rx_t) (st : usb_state)
  : option audio_block_t * usb_state :=
  match cur with
  | Some b => (Some b, st)
  | None =>
      match allocate (pool st) with
      | (Some b, p) => (Some b, with_rx (store (Some b) (rx st)) (with_pool p st))
      | (None, p) => (None, with_pool p st)
      end
  end.

(** The four allocate-if-null steps at the head of the callback;
    [None] in the first component means the callback returns. *)
Definition initial_chain (st : usb_state)
  : option (audio_block_t * audio_block_t * audio_block_t * audio_block_t) * usb_state :=
  let left1 := incoming_left (rx st) in
  let right1 := incoming_right (rx st) in
  let left2 := incoming_left2 (rx st) in
  let right2 := incoming_right2 (rx st) in
  match acquire left1 set_incoming_left st with
  | (None, st) => (None, st)
  | (Some left1, st) =>
      match acquire right1 set_incoming_right st with
      | (None, st) => (None, st)
      | (Some right1, st) =>
          match acquire left2 set_incoming_left2 st with
          | (None, st) => (None, st)
          | (Some left2, st) =>
              match acquire right2 set_incoming_right2 st with
              | (None, st) => (None, st)
              | (Some right2, st) => (Some (left1, right1, left2, right2), st)
              end
          end
      end
  end.

(** usb_audio_receive_callback(len): [rx_buffer] is the receive buffer
    as 32-bit words, [len] the packet length in bytes. *)
Definition usb_audio_receive_callback (rx_buffer : list Z) (len : Z) (st : usb_state)
  : result usb_state :=
  let st := with_rx (set_receive_flag 1 (rx st)) st in
  let len := Z.shiftr len 3 in
  let cnt := incoming_count (rx st) in
  match initial_chain st with
  | (None, st) => Done st
  | (Some (left1, right1, left2, right2), st) =>
      receive_loop (Z.to_nat len + 3) rx_buffer len 0 cnt left1 right1 left2 right2 st
  end.

(** A run of receive callbacks, one per packet [(rx_buffer, len)]. *)
Fixpoint receive_packets (pkts : list (list Z * Z)) (st : usb_state) : result usb_state :=
  match pkts with
  | [] => Done st
  | (rx_buffer, len) :: pkts' =>
      match usb_audio_receive_callback rx_buffer len st with
      | Done st' => receive_packets pkts' st'
      | NullDeref => NullDeref
      | OutOfFuel => OutOfFuel
      end
  end.

(** transmit(block, channel) followed by release(block), for a block
    that is there. *)
Definition transmit_release (o : option audio_block_t) (channel : nat) (st : usb_state)
  : usb_state :=
  match o with
  | Some b => with_pool (release b (pool st))
                (with_transmitted ((channel, b) :: transmitted st) st)
  | None => st
  end.

Definition AudioInputUSB_update (st : usb_state) : usb_state :=
  let left1 := ready_left (rx st) in
  let right1 := ready_right (rx st) in
  let left2 := ready_left2 (rx st) in
  let right2 := ready_right2 (rx st) in
  let c := incoming_count (rx st) in
  let f := receive_flag (rx st) in
  let st := with_rx (set_receive_flag 0 (set_ready None None None None (rx st))) st in
  let st :=
    if f =? 0 then st
    else
      let diff := AUDIO_BLOCK_SAMPLES ÷ 2 - c in
      with_feedback (u32 (feedback_accumulator st + diff * 1)) st in
  let st :=
    if is_null left1 || is_null right1 || is_null left2 || is_null right2 then
      let st := with_underrun (u32 (usb_audio_underrun_count st + 1)) st in
      if f =? 0 then st else with_feedback (u32 (feedback_accumulator st + 3500)) st
    else st in
  let st := transmit_release left1 0 st in
  let st := transmit_release right1 1 st in
  let st := transmit_release left2 2 st in
  transmit_release right2 3 st.

(** ** Transmit path *)

Definition AudioOutputUSB_begin (st : usb_state) : usb_state :=
  with_tx (Tx None None None None None None None None 0) st.

(** A 32-bit store into the transmit buffer: word [j] occupies the
    uint16_t elements [2j] (low half) and [2j+1] (high half). *)
Definition store32 (j : nat) (w : Z) (buf : list Z) : list Z :=
  <[(2 * j + 1)%nat := Z.shiftr w 16]> (<[(2 * j)%nat := Z.land w 65535]> buf).

(** copy_from_buffers_4ch: [dst] is the word position in the transmit
    buffer, [k] the sample position in the four blocks. *)
Fixpoint copy_from_buffers_4ch (len : nat) (dst k : nat)
    (left1 right1 left2 right2 : list Z) (buf : list Z) : list Z :=
  match len with
  | O => buf
  | S len' =>
      let buf :=
        store32 dst (u32 (Z.lor (Z.shiftl (right1 !!! k) 16) (Z.land (left1 !!! k) 65535)))
                buf in
      let buf :=
        store32 (dst + 1)
                (u32 (Z.lor (Z.shiftl (right2 !!! k) 16) (Z.land (left2 !!! k) 65535)))
                buf in
      copy_from_buffers_4ch len' (dst + 2) (k + 1) left1 right1 left2 right2 buf
  end.

(** memset(p, 0, 2 * n) for a uint16_t pointer [p] at element [start]. *)
Fixpoint memset_zero (n : nat) (start : nat) (buf : list Z) : list Z :=
  match n with
  | O => buf
  | S n' => memset_zero n' (start + 1) (<[start := 0]> buf)
  end.

(** A missing channel: allocate a block and fill it with silence. *)
Definition silence (o : option audio_block_t) (p : pool_t)
  : option audio_block_t * pool_t :=
  match o with
  | Some b => (Some b, p)
  | None =>
      match allocate p with
      | (Some b, p') =>
          (Some (with_data b (replicate (Z.to_nat AUDIO_BLOCK_SAMPLES) 0)), p')
      | (None, p') => (None, p')
      end
  end.

(** AudioOutputUSB::update(): [receiveWritable i] is what input [i]
    hands over in this pass. *)
Definition AudioOutputUSB_update (receiveWritable : nat -> option audio_block_t)
    (st : usb_state) : usb_state :=
  let left1 := receiveWritable 0%nat in
  let right1 := receiveWritable 1%nat in
  let left2 := receiveWritable 2%nat in
  let right2 := receiveWritable 3%nat in
  if usb_audio_transmit_setting st =? 0 then
    let t := tx st in
    let p := release_opt right2 (release_opt left2
               (release_opt right1 (release_opt left1 (pool st)))) in
    let p := release_opt (left_2nd t) (release_opt (left_1st t) p) in
    let p := release_opt (right_2nd t) (release_opt (right_1st t) p) in
    let p := release_opt (left2_2nd t) (release_opt (left2_1st t) p) in
    let p := release_opt (right2_2nd t) (release_opt (right2_1st t) p) in
    with_tx (Tx None None None None None None None None 0) (with_pool p st)
  else
    let '(left1, p) := silence left1 (pool st) in
    let '(right1, p) := silence right1 p in
    let '(left2, p) := silence left2 p in
    let '(right2, p) := silence right2 p in
    if is_null left1 || is_null right1 || is_null left2 || is_null right2 then
      with_pool (release_opt right2 (release_opt left2
                   (release_opt right1 (release_opt left1 p)))) st
    else
      let t := tx st in
      if is_null (left_1st t) then
        with_tx (set_offset_1st 0 (set_1st left1 right1 left2 right2 t)) (with_pool p st)
      else if is_null (left_2nd t) then
        with_tx (set_2nd left1 right1 left2 right2 t) (with_pool p st)
      else
        let p := release_opt (right2_1st t) (release_opt (left2_1st t)
                   (release_opt (right_1st t) (release_opt (left_1st t) p))) in
        with_tx (set_offset_1st 0
                   (set_2nd left1 right1 left2 right2
                      (set_1st (left_2nd t) (right_2nd t) (left2_2nd t) (right2_2nd t) t)))
                (with_pool p st).

(** One pass through the body of the while loop of
    usb_audio_transmit_callback. *)
Inductive iter : Type :=
| Break (st : usb_state)
| Next (len : Z) (st : usb_state)
| Fault.

Definition transmit_iter (target len : Z) (st : usb_state) : iter :=
  let num := u32 (target - len) in
  match left_1st (tx st) with
  | None =>
      Break (with_buffer (memset_zero (Z.to_nat (num * 4)) (Z.to_nat (len * 2))
                                      (usb_audio_transmit_buffer st)) st)
  | Some left1 =>
      match right_1st (tx st), left2_1st (tx st), right2_1st (tx st) with
      | Some right1, Some left2, Some right2 =>
          let offset := offset_1st (tx st) in
          let avail := u32 (AUDIO_BLOCK_SAMPLES - offset) in
          let num := if num >? avail then avail else num in
          let st := with_buffer
                      (copy_from_buffers_4ch (Z.to_nat num) (Z.to_nat (len * 2))
                         (Z.to_nat offset) (data left1) (data right1)
                         (data left2) (data right2) (usb_audio_transmit_buffer st)) st in
          let len := u32 (len + num) in
          let offset := u32 (offset + num) in
          if offset >=? AUDIO_BLOCK_SAMPLES then
            let p := release right2 (release left2 (release right1
                       (release left1 (pool st)))) in
            let t := tx st in
            Next len
              (with_tx (set_offset_1st 0
                          (set_2nd None None None None
                             (set_1st (left_2nd t) (right_2nd t)
                                      (left2_2nd t) (right2_2nd t) t)))
                       (with_pool p st))
          else
            Next len (with_tx (set_offset_1st (u16 offset) (tx st)) st)
      | _, _, _ => Fault
      end
  end.

Fixpoint transmit_loop (fuel : nat) (target len : Z) (st : usb_state) : result usb_state :=
  match fuel with
  | O => OutOfFuel
  | S fuel' =>
      if len <? target then
        match transmit_iter target len st with
        | Break st' => Done st'
        | Next len' st' => transmit_loop fuel' target len' st'
        | Fault => NullDeref
        end
      else Done st
  end.

(** usb_audio_transmit_callback(): the result is the byte count it
    returns, with the state it leaves. *)
Definition usb_audio_transmit_callback (st : usb_state) : result (Z * usb_state) :=
  let c := u32 (count st + 1) in
  let '(c, target) := if c <? 10 then (c, 44) else (0, 45) in
  let st := with_count c st in
  match transmit_loop (Z.to_nat (2 * target + 2)) target 0 st with
  | Done st' => Done (target * 8, st')
  | NullDeref => NullDeref
  | OutOfFuel => OutOfFuel
  end.

(** ** Reachable states

    Every entry point of the file is a step; the receive side starts
    at AudioInputUSB::begin(), the transmit side at
    AudioOutputUSB::begin(). *)
Inductive step : usb_state -> usb_state -> Prop :=
| step_configure st : step st (usb_audio_configure st)
| step_setting v st : step st (set_transmit_setting v st)
| step_rx_begin st : step st (AudioInputUSB_begin st)
| step_tx_begin st : step st (AudioOutputUSB_begin st)
| step_receive buf len st st' :
    usb_audio_receive_callback buf len st = Done st' -> step st st'
| step_rx_update st : step st (AudioInputUSB_update st)
| step_tx_update rw st : step st (AudioOutputUSB_update rw st)
| step_transmit st n st' :
    usb_audio_transmit_callback st = Done (n, st') -> step st st'.

Inductive rx_reachable : usb_state -> Prop :=
| rx_init st : rx_reachable (AudioInputUSB_begin st)
| rx_step st st' : rx_reachable st -> step st st' -> rx_reachable st'.

Inductive tx_reachable : usb_state -> Prop :=
| tx_init st : tx_reachable (AudioOutputUSB_begin st)
| tx_step st st' : tx_reachable st -> step st st' -> tx_reachable st'.

(** ** Invariants and bookkeeping for the statements below *)

(** The four pointers of a queue entry (or of a mailbox) are all null
    or all non-null. *)
Definition all_or_none (a b c d : option audio_block_t) : Prop :=
  (a = None /\ b = None /\ c = None /\ d = None) \/
  (is_Some a /\ is_Some b /\ is_Some c /\ is_Some d).

Definition tx_group_consistent (t : tx_t) : Prop :=
  all_or_none (left_1st t) (right_1st t) (left2_1st t) (right2_1st t) /\
  all_or_none (left_2nd t) (right_2nd t) (left2_2nd t) (right2_2nd t).

(** The same, as equations between null tests. *)
Definition tx_groups_eq (t : tx_t) : Prop :=
  is_null (right_1st t) = is_null (left_1st t) /\
  is_null (left2_1st t) = is_null (left_1st t) /\
  is_null (right2_1st t) = is_null (left_1st t) /\
  is_null (right_2nd t) = is_null (left_2nd t) /\
  is_null (left2_2nd t) = is_null (left_2nd t) /\
  is_null (right2_2nd t) = is_null (left_2nd t).

Definition tx_inv (st : usb_state) : Prop :=
  tx_groups_eq (tx st) /\ 0 <= offset_1st (tx st) < AUDIO_BLOCK_SAMPLES.

(** The receive side's slots, as lists in channel order. *)
Definition incoming_quad (x : rx_t) : list (option audio_block_t) :=
  [incoming_left x; incoming_right x; incoming_left2 x; incoming_right2 x].

Definition ready_quad (x : rx_t) : list (option audio_block_t) :=
  [ready_left x; ready_right x; ready_left2 x; ready_right2 x].

Definition block_ids (l : list (option audio_block_t)) : list nat :=
  blk_id <$> omap id l.

(** [incoming_count] never exceeds the block size. *)
Definition rx_inv (st : usb_state) : Prop :=
  0 <= incoming_count (rx st) <= AUDIO_BLOCK_SAMPLES.

(** The signal AudioInputUSB::update() reads as an underrun that
    biases the feedback: a packet arrived since the last update and
    some channel of the ready mailbox is null. *)
Definition underrun_signal (st : usb_state) : Prop :=
  receive_flag (rx st) <> 0 /\
  is_null (ready_left (rx st)) || is_null (ready_right (rx st)) ||
  is_null (ready_left2 (rx st)) || is_null (ready_right2 (rx st)) = true.

(** Update cycles: in each, the packets of the list arrive and then
    AudioInputUSB::update() runs. *)
Fixpoint update_cycles (cycles : list (list (list Z * Z))) (st : usb_state)
  : result usb_state :=
  match cycles with
  | [] => Done st
  | pkts :: cycles' =>
      match receive_packets pkts st with
      | Done st1 => update_cycles cycles' (AudioInputUSB_update st1)
      | NullDeref => NullDeref
      | OutOfFuel => OutOfFuel
      end
  end.

(** Every update of the run observes the underrun signal. *)
Fixpoint sustained_underrun (cycles : list (list (list Z * Z))) (st : usb_state) : Prop :=
  match cycles with
  | [] => True
  | pkts :: cycles' =>
      match receive_packets pkts st with
      | Done st1 =>
          underrun_signal st1 /\ sustained_underrun cycles' (AudioInputUSB_update st1)
      | _ => False
      end
  end.

(** What each update of the run adds to the accumulator: 3500 and the
    distance of the fill count from half a block. *)
Fixpoint cycle_deltas (cycles : list (list (list Z * Z))) (st : usb_state) : list Z :=
  match cycles with
  | [] => []
  | pkts :: cycles' =>
      match receive_packets pkts st with
      | Done st1 =>
          (3500 + (AUDIO_BLOCK_SAMPLES ÷ 2 - incoming_count (rx st1)))
            :: cycle_deltas cycles' (AudioInputUSB_update st1)
      | _ => []
      end
  end.

(** ** Reassembly of the sample stream

    A frame is one sample of each of the four channels, as the two
    32-bit words of the wire format. *)
Definition frame_words (fs : list (Z * Z)) : list Z :=
  flat_map (fun f => [f.1; f.2]) fs.

(** The de-interleaved stream of channel [k], from the whole stream
    at once. *)
Definition spec_sample (k : nat) (f : Z * Z) : Z :=
  match k with
  | 0%nat => int16 (Z.land f.1 65535)
  | 1%nat => int16 (Z.shiftr f.1 16)
  | 2%nat => int16 (Z.land f.2 65535)
  | _ => int16 (Z.shiftr f.2 16)
  end.

Definition spec_channel (k : nat) (stream : list (Z * Z)) : list Z :=
  spec_sample k <$> stream.

(** A schedule: packets arriving, and update passes draining the
    mailbox. *)
Inductive event : Type :=
| Packet (fs : list (Z * Z))
| Update.

Definition do_event (e : event) (st : usb_state) : result usb_state :=
  match e with
  | Packet fs =>
      usb_audio_receive_callback (frame_words fs) (8 * Z.of_nat (length fs)) st
  | Update => Done (AudioInputUSB_update st)
  end.

Fixpoint run_events (evs : list event) (st : usb_state) : result usb_state :=
  match evs with
  | [] => Done st
  | e :: evs' =>
      match do_event e st with
      | Done st' => run_events evs' st'
      | NullDeref => NullDeref
      | OutOfFuel => OutOfFuel
      end
  end.

Definition stream_of (evs : list event) : list (Z * Z) :=
  flat_map (fun e => match e with Packet fs => fs | Update => [] end) evs.

(** The mailbox is drained between block completions: a packet that
    completes a block finds the mailbox empty, and completes one block
    only. *)
Definition completes_in_time (e : event) (st : usb_state) : Prop :=
  match e with
  | Packet fs =>
      incoming_count (rx st) + Z.of_nat (length fs) < AUDIO_BLOCK_SAMPLES \/
      (ready_occupied (rx st) = false /\
       incoming_count (rx st) + Z.of_nat (length fs) < 2 * AUDIO_BLOCK_SAMPLES)
  | Update => True
  end.

Fixpoint drained_in_time (evs : list event) (st : usb_state) : Prop :=
  match evs with
  | [] => True
  | e :: evs' =>
      completes_in_time e st /\
      match do_event e st with
      | Done st' => drained_in_time evs' st'
      | _ => False
      end
  end.

(** The pool never fails and its blocks have the block size. *)
Definition pool_plentiful (p : pool_t) : Prop :=
  forall n, exists d, pool_oracle p n = Some d /\
                      length d = Z.to_nat AUDIO_BLOCK_SAMPLES.

(** The shape of a slot set during orderly streaming: empty, or four
    blocks of full size. *)
Definition quad_shape (q : list (option audio_block_t)) : Prop :=
  q = [None; None; None; None] \/
  exists l r l2 r2,
    q = [Some l; Some r; Some l2; Some r2] /\
    length (data l) = Z.to_nat AUDIO_BLOCK_SAMPLES /\
    length (data r) = Z.to_nat AUDIO_BLOCK_SAMPLES /\
    length (data l2) = Z.to_nat AUDIO_BLOCK_SAMPLES /\
    length (data r2) = Z.to_nat AUDIO_BLOCK_SAMPLES.

Definition rx_wf (st : usb_state) : Prop :=
  pool_plentiful (pool st) /\
  quad_shape (incoming_quad (rx st)) /\
  quad_shape (ready_quad (rx st)) /\
  0 <= incoming_count (rx st) < AUDIO_BLOCK_SAMPLES /\
  (incoming_quad (rx st) = [None; None; None; None] -> incoming_count (rx st) = 0).


(** What the receive callback leaves alone. *)
Definition rx_frame (st st' : usb_state) : Prop :=
  tx st' = tx st /\
  usb_audio_transmit_buffer st' = usb_audio_transmit_buffer st /\
  usb_audio_transmit_setting st' = usb_audio_transmit_setting st /\
  feedback_accumulator st' = feedback_accumulator st /\
  usb_audio_underrun_count st' = usb_audio_underrun_count st /\
  count st' = count st /\
  transmitted st' = transmitted st.

End WithBlockSize.

(** [splice k xs l]: the array [l] with [xs] written from index [k]. *)
Definition splice (k : nat) (xs l : list Z) : list Z :=
  take k l ++ xs ++ drop (k + length xs) l.

(** The samples channel [k] has received so far, in order: the blocks
    handed downstream, the block waiting in the mailbox, and the
    filled part of the incoming block. *)
Definition block_data (o : option audio_block_t) : list Z :=
  match o with
  | Some b => data b
  | None => []
  end.

Definition sent_on (k : nat) (e : nat * audio_block_t) : list Z :=
  if Nat.eqb e.1 k then data e.2 else [].

Definition channel_stream (k : nat) (st : usb_state) : list Z :=
  flat_map (sent_on k) (rev (transmitted st))
  ++ block_data (ready_quad (rx st) !!! k)
  ++ take (Z.to_nat (incoming_count (rx st))) (block_data (incoming_quad (rx st) !!! k)).

(** ** Concrete scenarios, with blocks of 128 samples *)

(** A pool that never runs dry and hands out zeroed blocks; one in
    which only the first allocation succeeds. *)
Definition plentiful_pool : pool_t := Pool (fun _ => Some (replicate 128 0)) 0 [].


(** The statics at power-on: null pointers, zero counters, the static
    [count] of the transmit callback at 5; the transmit buffer holds
    180 elements of stale data. *)
Definition power_on (p : pool_t) : usb_state :=
  State (Rx None None None None None None None None 0 0)
        (Tx None None None None None None None None 0)
        (replicate 180 7) 0 0 0 0 5 p [].

Definition started (p : pool_t) : usb_state :=
  AudioOutputUSB_begin (AudioInputUSB_begin (usb_audio_configure (power_on p))).

(** A packet of [n] samples whose words count up from [base]. *)
Definition packet (n : nat) (base : Z) : list Z * Z :=
  ((fun i => base + Z.of_nat i) <$> seq 0 (2 * n), 8 * Z.of_nat n).

(** [n] frames whose words count up from [base]. *)
Definition ramp_frames (n : nat) (base : Z) : list (Z * Z) :=
  (fun i => (base + 2 * Z.of_nat i, base + 2 * Z.of_nat i + 1)) <$> seq 0 n.

Definition state_of (r : result usb_state) : usb_state :=
  match r with
  | Done st => st
  | _ => power_on plentiful_pool
  end.

Definition block_of (o : option audio_block_t) : audio_block_t :=
  match o with
  | Some b => b
  | None => Block 0 []
  end.

(** Five packets of 44 samples after the start: the first block is in
    the mailbox, unread, and the second holds 92 samples. *)
Definition mailbox_occupied : usb_state :=
  state_of (receive_packets 128
              [packet 44 0; packet 44 1000; packet 44 2000; packet 44 3000;
               packet 44 4000]
              (started plentiful_pool)).

(** Two update cycles, with one packet of 44 and one of 45 samples. *)
Definition starved_cycles : list (list (list Z * Z)) :=
  [[packet 44 0]; [packet 45 1000]].

(** One stream of 176 frames, in four packets with an update pass
    after the first block completes, and in a single packet. *)
Definition schedule_packets : list event :=
  [Packet (ramp_frames 44 0); Packet (ramp_frames 44 88);
   Packet (ramp_frames 44 176); Update; Packet (ramp_frames 44 264)].

Definition schedule_monolithic : list event :=
  [Packet (stream_of schedule_packets)].

(** Four blocks from upstream for the transmit side. *)
Definition upstream (i : nat) : option audio_block_t :=
  Some (Block (100 + i) ((fun k => Z.of_nat (1 + i + 4 * k)) <$> seq 0 128)).

Definition streaming : usb_state :=
  AudioOutputUSB_update 128 upstream (set_transmit_setting 1 (started plentiful_pool)).

(** ** Traces of calls, and who owns which block *)

Definition first_quad (t : tx_t) : list (option audio_block_t) :=
  [left_1st t; right_1st t; left2_1st t; right2_1st t].

Definition second_quad (t : tx_t) : list (option audio_block_t) :=
  [left_2nd t; right_2nd t; left2_2nd t; right2_2nd t].

(** The blocks the file's static pointers hold. *)
Definition usb_held (st : usb_state) : list nat :=
  block_ids (incoming_quad (rx st)) ++ block_ids (ready_quad (rx st)) ++
  block_ids (first_quad (tx st)) ++ block_ids (second_quad (tx st)).

(** The blocks the pool has handed out up to its present call count. *)
Definition allocated (p : pool_t) : list nat :=
  filter (fun n => is_Some (pool_oracle p n)) (seq 0 (pool_calls p)).

(** Those handed out between two states of the pool. *)
Definition fresh_ids (p0 p : pool_t) : list nat :=
  filter (fun n => is_Some (pool_oracle p0 n))
         (seq (pool_calls p0) (pool_calls p - pool_calls p0)).

(** The entry points, as the USB stack and the audio library call them. *)
Inductive usb_op : Type :=
| OpReceive (rx_buffer : list Z) (len : Z)
| OpInputUpdate
| OpOutputUpdate (receiveWritable : nat -> option audio_block_t)
| OpTransmit
| OpSetting (v : Z).

(** One call; the list is the byte count a transmit callback returns. *)
Definition do_usb_op (ABS : Z) (o : usb_op) (st : usb_state)
  : result (list Z * usb_state) :=
  match o with
  | OpReceive rx_buffer len =>
      match usb_audio_receive_callback ABS rx_buffer len st with
      | Done st' => Done ([], st')
      | NullDeref => NullDeref
      | OutOfFuel => OutOfFuel
      end
  | OpInputUpdate => Done ([], AudioInputUSB_update ABS st)
  | OpOutputUpdate receiveWritable =>
      Done ([], AudioOutputUSB_update ABS receiveWritable st)
  | OpTransmit =>
      match usb_audio_transmit_callback ABS st with
      | Done (n, st') => Done ([n], st')
      | NullDeref => NullDeref
      | OutOfFuel => OutOfFuel
      end
  | OpSetting v => Done ([], set_transmit_setting v st)
  end.

Fixpoint run_usb_ops (ABS : Z) (ops : list usb_op) (st : usb_state)
  : result (list Z * usb_state) :=
  match ops with
  | [] => Done ([], st)
  | o :: ops' =>
      match do_usb_op ABS o st with
      | Done (out, st') =>
          match run_usb_ops ABS ops' st' with
          | Done (outs, st'') => Done (out ++ outs, st'')
          | NullDeref => NullDeref
          | OutOfFuel => OutOfFuel
          end
      | NullDeref => NullDeref
      | OutOfFuel => OutOfFuel
      end
  end.

(** The blocks a call takes over from upstream. *)
Definition usb_deposited (o : usb_op) : list nat :=
  match o with
  | OpOutputUpdate receiveWritable => block_ids (receiveWritable <$> seq 0 4)
  | _ => []
  end.

(** From [st] to [st'] every block that came from the pool or from
    upstream ([dep]) is held or has been released, once. *)
Definition balanced (st st' : usb_state) (dep : list nat) : Prop :=
  pool_oracle (pool st') = pool_oracle (pool st) /\
  (pool_calls (pool st) <= pool_calls (pool st'))%nat /\
  usb_held st' ++ pool_released (pool st') ++ allocated (pool st)
    ≡ₚ usb_held st ++ pool_released (pool st) ++ allocated (pool st') ++ dep.

Definition is_transmit (o : usb_op) : bool :=
  match o with
  | OpTransmit => true
  | _ => false
  end.

(** How many transmit callbacks a trace holds. *)
Definition transmits (ops : list usb_op) : nat := length (List.filter is_transmit ops).

(** What the receive side keeps: the fill count within the block, the
    ready mailbox empty or full. *)
Definition ready_inv (ABS : Z) (st : usb_state) : Prop :=
  rx_inv ABS st /\
  (ready_quad (rx st) = [None; None; None; None] \/
   exists a b c d, ready_quad (rx st) = [Some a; Some b; Some c; Some d]).

(** ** The transmit queue as a stream

    The samples of channel [k] (0 to 3: left1, right1, left2, right2)
    still to be sent: the rest of the first group and the second. *)
Definition tx_pending (k : nat) (st : usb_state) : list Z :=
  drop (Z.to_nat (offset_1st (tx st))) (block_data (first_quad (tx st) !!! k))
  ++ block_data (second_quad (tx st) !!! k).

Definition full_size (ABS : Z) (o : option audio_block_t) : Prop :=
  match o with
  | Some b => length (data b) = Z.to_nat ABS
  | None => True
  end.

(** The queue in order: groups complete, every queued block of the
    block size, and no second group without a first. *)
Definition tx_wf (ABS : Z) (st : usb_state) : Prop :=
  tx_inv ABS st /\
  Forall (full_size ABS) (first_quad (tx st) ++ second_quad (tx st)) /\
  (left_1st (tx st) = None -> left_2nd (tx st) = None).

(** What one update pass feeds to channel [k]: the block from
    upstream, or a block of silence. *)
Definition fed (ABS : Z) (receiveWritable : nat -> option audio_block_t) (k : nat)
  : list Z :=
  match receiveWritable k with
  | Some b => data b
  | None => replicate (Z.to_nat ABS) 0
  end.

(** The values an int16_t holds. *)
Definition in_int16 (z : Z) : Prop := -32768 <= z < 32768.

(** ** More scenarios *)

(** A short session: the host selects the interface, an update pass
    queues four blocks, a packet arrives, and packets go out. *)
Definition sample_ops : list usb_op :=
  [OpSetting 1; OpOutputUpdate upstream;
   OpReceive (packet 44 0).1 (packet 44 0).2;
   OpTransmit; OpInputUpdate; OpTransmit].

Definition state_after (r : result (Z * usb_state)) : usb_state :=
  match r with
  | Done (_, st) => st
  | _ => power_on plentiful_pool
  end.

(** Two packets after one update: 40 samples of the only queued group
    are left. *)
Definition nearly_drained : usb_state :=
  state_after (usb_audio_transmit_callback 128
                 (state_after (usb_audio_transmit_callback 128 streaming))).

(** ** The feedback endpoint *)

(** The globals of the feedback (sync) endpoint. *)
Record sync_t := Sync {
  usb_audio_sync_nbytes : Z;
  usb_audio_sync_rshift : Z;
  usb_audio_sync_feedback : Z
}.

(** usb_audio_configure(), the part that depends on the bus speed. *)
Definition configure_sync (usb_high_speed : Z) (sy : sync_t) : sync_t :=
  if usb_high_speed =? 0
  then Sync 3 10 (usb_audio_sync_feedback sy)
  else Sync 4 8 (usb_audio_sync_feedback sy).

(** The first [n] bytes of a uint32_t in memory. *)
Definition bytes_of (n : nat) (v : Z) : list Z :=
  (fun i => Z.land (Z.shiftr v (8 * Z.of_nat i)) 255) <$> seq 0 n.

(** The number a little-endian byte string stands for. *)
Definition le_value (bs : list Z) : Z := foldr (fun b acc => b + 256 * acc) 0 bs.

(** sync_event: the new feedback word, and the bytes handed to
    usb_prepare_transfer. *)
Definition sync_event (st : usb_state) (sy : sync_t) : sync_t * list Z :=
  let fb := Z.shiftr (feedback_accumulator st) (usb_audio_sync_rshift sy) in
  (Sync (usb_audio_sync_nbytes sy) (usb_audio_sync_rshift sy) fb,
   bytes_of (Z.to_nat (usb_audio_sync_nbytes sy)) fb).

(** ** Silence for missing channels *)

(** Whether the pool serves every allocate() that an update pass
    issues for the inputs [os]: one call per missing input, in order,
    each call numbered whether it succeeds or not. *)
Fixpoint silence_available (os : list (option audio_block_t)) (p : pool_t) : bool :=
  match os with
  | [] => true
  | Some _ :: os' => silence_available os' p
  | None :: os' =>
      match pool_oracle p (pool_calls p) with
      | Some _ => silence_available os' (count_call p)
      | None => false
      end
  end.

(** The blocks from upstream with the second channel missing. *)
Definition upstream_gap (i : nat) : option audio_block_t :=
  if Nat.eqb i 1 then None else upstream i.

(** ** usb_audio_configure() to its last line *)

(** tx_event: the transmit callback, then the feedback word refreshed
    from the accumulator; the result carries the byte count handed to
    usb_prepare_transfer. *)
Definition tx_event (ABS : Z) (st : usb_state) (sy : sync_t)
  : result (Z * usb_state * sync_t) :=
  match usb_audio_transmit_callback ABS st with
  | Done (len, st') =>
      Done (len, st',
            Sync (usb_audio_sync_nbytes sy) (usb_audio_sync_rshift sy)
                 (Z.shiftr (feedback_accumulator st') (usb_audio_sync_rshift sy)))
  | NullDeref => NullDeref
  | OutOfFuel => OutOfFuel
  end.

(** The whole of usb_audio_configure(): the counters and the feedback
    seed, the sync parameters for the bus speed, then the three
    events with a null transfer.  rx_event(NULL) skips the receive
    callback and only arms the endpoint; sync_event(NULL) and
    tx_event(NULL) run as on any other frame. *)
Definition usb_audio_configure_events (ABS : Z) (usb_high_speed : Z)
    (st : usb_state) (sy : sync_t) : result (Z * usb_state * sync_t) :=
  let st := usb_audio_configure st in
  let sy := configure_sync usb_high_speed sy in
  let sy := fst (sync_event st sy) in
  tx_event ABS st sy.

End USB.

(** * Feature unit requests and the feedback endpoint *)

Module Feature.

Local Open Scope Z_scope.

(** struct usb_audio_features_struct: three ints. *)
Record usb_audio_features_struct := Features { change : Z; mute : Z; volume : Z }.

(** struct setup_struct: the eight bytes of a SETUP packet; wValue and
    wIndex are read through their byte members. *)
Record setup_struct := Setup {
  bmRequestType : Z;
  bRequest : Z;
  bChannel : Z;
  bCS : Z;
  bIfEp : Z;
  bEntityId : Z;
  wLength : Z
}.

(** [*((struct setup_struct * )stp)], for the bytes [stp] points to. *)
Definition setup_of (stp : list Z) : setup_struct :=
  Setup (stp !!! 0%nat) (stp !!! 1%nat) (stp !!! 2%nat) (stp !!! 3%nat)
        (stp !!! 4%nat) (stp !!! 5%nat)
        (Z.lor (stp !!! 6%nat) (Z.shiftl (stp !!! 7%nat) 8)).

(** A store to a uint8_t. *)
Definition u8 (z : Z) : Z := z mod 256.

Section WithMaxVolume.

(** FEATURE_MAX_VOLUME comes from the core's usb_audio.h. *)
Variable FEATURE_MAX_VOLUME : Z.

(** AudioInputUSB::features as the file initialises it. *)
Definition features_init : usb_audio_features_struct :=
  Features 0 0 (FEATURE_MAX_VOLUME ÷ 2).

(** usb_audio_get_feature: the result is the return value with the
    [data] array and [*datalen] as the call leaves them. *)
Definition usb_audio_get_feature (features : usb_audio_features_struct)
    (stp : list Z) (data : list Z) (datalen : Z) : Z * list Z * Z :=
  let setup := setup_of stp in
  if bmRequestType setup =? 161 then
    if bCS setup =? 1 then
      (1, <[0%nat := u8 (mute features)]> data, 1)
    else if bCS setup =? 2 then
      if bRequest setup =? 129 then
        (1, <[1%nat := u8 (Z.land (Z.shiftr (volume features) 8) 255)]>
              (<[0%nat := u8 (Z.land (volume features) 255)]> data), 2)
      else if bRequest setup =? 130 then
        (1, <[1%nat := 0]> (<[0%nat := 0]> data), 2)
      else if bRequest setup =? 131 then
        (1, <[1%nat := 0]> (<[0%nat := u8 FEATURE_MAX_VOLUME]> data), 2)
      else if bRequest setup =? 132 then
        (1, <[1%nat := 0]> (<[0%nat := 1]> data), 2)
      else (0, data, datalen)
    else (0, data, datalen)
  else (0, data, datalen).

End WithMaxVolume.

(** usb_audio_set_feature: the return value and the features. *)
Definition usb_audio_set_feature (features : usb_audio_features_struct)
    (stp : list Z) (buf : list Z) : Z * usb_audio_features_struct :=
  let setup := setup_of stp in
  if bmRequestType setup =? 33 then
    if bCS setup =? 1 then
      if bRequest setup =? 1 then
        (1, Features 1 (buf !!! 0%nat) (volume features))
      else (0, features)
    else if bCS setup =? 2 then
      if bRequest setup =? 1 then
        (1, Features 1 (mute features) (buf !!! 0%nat))
      else (0, features)
    else (0, features)
  else (0, features).

(** A SETUP packet for the feature unit. *)
Definition feature_request (type request cs : Z) : list Z :=
  [type; request; 0; cs; 0; 0; 0; 0].

End Feature.

(** * Properties of the TDM transmit engine *)

Section BitFacts.

Local Open Scope Z_scope.

Lemma lor_range a b n :
  0 <= n -> 0 <= a < 2 ^ n -> 0 <= b < 2 ^ n -> 0 <= Z.lor a b < 2 ^ n.
Proof.
  intros Hn Ha Hb.
  assert (H : Z.lor a b = Z.lor a b mod 2 ^ n).
  { rewrite <- Z.land_ones by done.
    rewrite Z.land_lor_distr_l, !Z.land_ones by done.
    rewrite !Z.mod_small by done. done. }
  rewrite H. apply Z.mod_pos_bound. lia.
Qed.

Lemma as_uint32_range d : Forall (fun w => 0 <= w < 4294967296) (as_uint32 d).
Proof.
  revert d. fix IH 1. intros [|lo [|hi r]]; cbn [as_uint32]; [constructor..|].
  constructor; [|apply IH].
  apply (lor_range _ _ 32); [lia| |].
  - unfold u16. lia.
  - rewrite Z.shiftl_mul_pow2 by lia. unfold u16. lia.
Qed.

Lemma Forall_lookup_total_Z (P : Z -> Prop) (l : list Z) i :
  P 1 -> Forall P l -> P (l !!! i).
Proof.
  intros H1 Hl. rewrite list_lookup_total_alt.
  destruct (l !! i) as [x|] eqn:E; cbn; [|exact H1].
  by eapply Forall_lookup_1.
Qed.

Lemma out1_zero_first b : Z.shiftr (TDM.tdm_out1 0 b) 16 = 0.
Proof.
  unfold TDM.tdm_out1, u32. rewrite Z.shiftl_0_l, Z.mod_0_l, Z.lor_0_l by lia.
  rewrite Z.shiftr_land. change (Z.shiftr 65535 16) with 0. apply Z.land_0_r.
Qed.

Lemma out2_zero_first b : 0 <= b < 4294967296 -> Z.shiftr (TDM.tdm_out2 0 b) 16 = 0.
Proof.
  intros Hb. unfold TDM.tdm_out2. rewrite Z.land_0_l, Z.lor_0_l.
  rewrite Z.shiftr_shiftr by lia. rewrite Z.shiftr_div_pow2 by lia.
  change (2 ^ (16 + 16)) with 4294967296. lia.
Qed.

Lemma out1_zero_second a : Z.land (TDM.tdm_out1 a 0) 65535 = 0.
Proof.
  unfold TDM.tdm_out1, u32. rewrite Z.land_0_l, Z.lor_0_r.
  rewrite Z.shiftl_mul_pow2 by lia.
  change 65535 with (Z.ones 16). rewrite Z.land_ones by lia.
  change (2 ^ 16) with 65536. lia.
Qed.

Lemma out2_zero_second a : Z.land (TDM.tdm_out2 a 0) 65535 = 0.
Proof.
  unfold TDM.tdm_out2. rewrite Z.shiftr_0_l, Z.lor_0_r.
  rewrite <- Z.land_assoc. change (Z.land 4294901760 65535) with 0. apply Z.land_0_r.
Qed.

Lemma as_uint32_lookup : forall d (q : nat),
  (2 * q + 1 < length d)%nat ->
  as_uint32 d !! q
  = Some (Z.lor (u16 (d !!! (2 * q)%nat)) (Z.shiftl (u16 (d !!! (2 * q + 1)%nat)) 16)).
Proof.
  fix IH 1. intros [|lo [|hi r]] q Hl; cbn [length] in Hl; [lia|lia|].
  cbn [as_uint32]. destruct q as [|q]; [done|].
  rewrite lookup_cons. rewrite IH by lia.
  replace (2 * S q)%nat with (S (S (2 * q))) by lia.
  replace (S (S (2 * q)) + 1)%nat with (S (S (2 * q + 1))) by lia.
  done.
Qed.








End BitFacts.

Section TDM_Properties.

Import TDM.

Variable AUDIO_BLOCK_SAMPLES : nat.
Local Abbreviation ABS := AUDIO_BLOCK_SAMPLES.

(** ** The copy loops, position by position *)

Lemma memcpy_loop_length n : forall dest s src1 src2 buf,
  length (memcpy_tdm_tx_loop n dest s src1 src2 buf) = length buf.
Proof.
  induction n as [|n IH]; intros; cbn [memcpy_tdm_tx_loop]; [done|].
  rewrite IH, !length_insert. done.
Qed.

Lemma memcpy_loop_other n : forall dest s src1 src2 buf (q : nat),
  (q < dest \/ q mod 8 <> dest mod 8) ->
  memcpy_tdm_tx_loop n dest s src1 src2 buf !! q = buf !! q.
Proof.
  induction n as [|n IH]; intros dest s src1 src2 buf q Hq;
    cbn [memcpy_tdm_tx_loop]; [done|].
  rewrite IH by lia.
  rewrite !list_lookup_insert_ne by lia. done.
Qed.

Lemma memcpy_loop_out n : forall dest s src1 src2 buf (j : nat),
  j < 2 * n -> dest + 16 * j + 8 < length buf ->
  memcpy_tdm_tx_loop n dest s src1 src2 buf !! (dest + 16 * j)
    = Some (tdm_out1 (src1 !!! (s + j)) (src2 !!! (s + j))) /\
  memcpy_tdm_tx_loop n dest s src1 src2 buf !! (dest + 16 * j + 8)
    = Some (tdm_out2 (src1 !!! (s + j)) (src2 !!! (s + j))).
Proof.
  induction n as [|n IH]; intros dest s src1 src2 buf j Hj Hlen; [lia|].
  cbn [memcpy_tdm_tx_loop].
  destruct (decide (j < 2)) as [Hlt|Hge].
  - rewrite !memcpy_loop_other by lia.
    destruct j as [|[|j]]; [| |lia].
    + replace (dest + 16 * 0) with dest by lia. replace (s + 0) with s by lia.
      split.
      * rewrite !list_lookup_insert_ne by lia.
        apply list_lookup_insert_eq. lia.
      * rewrite !list_lookup_insert_ne by lia.
        apply list_lookup_insert_eq. rewrite length_insert. lia.
    + replace (dest + 16 * 1) with (dest + 16) by lia.
      split.
      * rewrite !list_lookup_insert_ne by lia.
        apply list_lookup_insert_eq. rewrite !length_insert. lia.
      * replace (dest + 16 + 8) with (dest + 24) by lia.
        apply list_lookup_insert_eq. rewrite !length_insert. lia.
  - match goal with
    | |- context [memcpy_tdm_tx_loop n _ _ _ _ ?b] => set (buf' := b)
    end.
    assert (Hl : length buf' = length buf)
      by (unfold buf'; rewrite !length_insert; done).
    specialize (IH (dest + 32) (s + 2) src1 src2 buf' (j - 2)).
    replace (dest + 32 + 16 * (j - 2)) with (dest + 16 * j) in IH by lia.
    replace (s + 2 + (j - 2)) with (s + j) in IH by lia.
    apply IH; lia.
Qed.

Lemma memcpy_length dest src1 src2 buf :
  length (memcpy_tdm_tx ABS dest src1 src2 buf) = length buf.
Proof. apply memcpy_loop_length. Qed.

Lemma isr_copy_length n : forall i dest st buf,
  length (isr_copy_loop ABS n i dest st buf) = length buf.
Proof.
  induction n as [|n IH]; intros; cbn [isr_copy_loop]; [done|].
  rewrite IH. apply memcpy_length.
Qed.

Lemma isr_copy_other n : forall i dest st buf (q : nat),
  (forall p, p < n -> q mod 8 <> (dest + p) mod 8) ->
  isr_copy_loop ABS n i dest st buf !! q = buf !! q.
Proof.
  induction n as [|n IH]; intros i dest st buf q Hq; cbn [isr_copy_loop]; [done|].
  rewrite IH.
  - apply memcpy_loop_other. right. specialize (Hq 0). lia.
  - intros p Hp. specialize (Hq (S p)). lia.
Qed.

Lemma isr_copy_out n : forall i dest st buf (p j : nat),
  n <= 8 -> p < n -> j < 2 * (ABS / 4) ->
  dest + p + 16 * j + 8 < length buf ->
  let in1 := channel_src st (i + 2 * p) !!! j in
  let in2 := channel_src st (i + 2 * p + 1) !!! j in
  isr_copy_loop ABS n i dest st buf !! (dest + p + 16 * j) = Some (tdm_out1 in1 in2) /\
  isr_copy_loop ABS n i dest st buf !! (dest + p + 16 * j + 8) = Some (tdm_out2 in1 in2).
Proof.
  induction n as [|n IH]; intros i dest st buf p j Hn Hp Hj Hlen; [lia|].
  cbn [isr_copy_loop]. cbv zeta.
  destruct p as [|p].
  - rewrite !isr_copy_other by (intros; lia).
    replace (dest + 0 + 16 * j) with (dest + 16 * j) by lia.
    replace (i + 2 * 0) with i by lia.
    pose proof (memcpy_loop_out (ABS / 4) dest 0 (channel_src st i)
                  (channel_src st (i + 1)) buf j Hj) as H.
    cbn [Nat.add] in H. apply H. lia.
  - specialize (IH (i + 2) (dest + 1) st
                   (memcpy_tdm_tx ABS dest (channel_src st i) (channel_src st (i + 1)) buf)
                   p j).
    replace (dest + 1 + p + 16 * j) with (dest + S p + 16 * j) in IH by lia.
    replace (i + 2 + 2 * p) with (i + 2 * S p) in IH by lia.
    apply IH; [lia|lia|lia|]. rewrite memcpy_length. lia.
Qed.

(** ** The invariant of the reachable states *)

Lemma update_swap_length n : forall i rx prev bi,
  length (update_swap_loop n i rx prev bi).2 = length bi.
Proof.
  induction n as [|n IH]; intros; cbn [update_swap_loop]; [done|].
  rewrite IH. apply length_insert.
Qed.

Lemma update_fields rx st :
  block_input (update rx st)
    = (update_swap_loop 16 0 rx (replicate 16 None) (block_input st)).2 /\
  zeros (update rx st) = zeros st /\
  tdm_tx_buffer (update rx st) = tdm_tx_buffer st /\
  update_responsibility (update rx st) = update_responsibility st.
Proof.
  unfold update.
  destruct (update_swap_loop 16 0 rx (replicate 16 None) (block_input st)) as [prev bi].
  done.
Qed.

Lemma isr_release_length n : forall i bi p,
  length (isr_release_loop n i bi p).1 = length bi.
Proof.
  induction n as [|n IH]; intros; cbn [isr_release_loop]; [done|].
  destruct (bi !!! i); rewrite IH; [apply length_insert|done].
Qed.

Lemma isr_body_fields saddr st :
  block_input (isr_body ABS saddr st)
    = (isr_release_loop 16 0 (block_input st) (pool st)).1 /\
  zeros (isr_body ABS saddr st) = zeros st /\
  tdm_tx_buffer (isr_body ABS saddr st)
    = isr_copy_loop ABS 8 0 (isr_dest ABS saddr) st (tdm_tx_buffer st).
Proof.
  unfold isr_body.
  destruct (isr_release_loop 16 0 (block_input st) (pool st)) as [bi p].
  done.
Qed.

Lemma update_inv rx st : tdm_inv ABS st -> tdm_inv ABS (update rx st).
Proof.
  intros (Hb & Hz & Hl). unfold tdm_inv.
  destruct (update_fields rx st) as (-> & -> & -> & _).
  rewrite update_swap_length. done.
Qed.

Lemma isr_pre_inv upd st : tdm_inv ABS st -> tdm_inv ABS (isr_pre upd st).
Proof.
  intros H. unfold isr_pre, update_all.
  destruct (update_responsibility st); [|done].
  destruct upd; [by apply update_inv|done].
Qed.

Lemma isr_body_inv saddr st : tdm_inv ABS st -> tdm_inv ABS (isr_body ABS saddr st).
Proof.
  intros (Hb & Hz & Hl). unfold tdm_inv.
  destruct (isr_body_fields saddr st) as (-> & -> & ->).
  rewrite isr_release_length, isr_copy_length. done.
Qed.

Lemma reachable_inv st : reachable ABS st -> tdm_inv ABS st.
Proof.
  induction 1 as [b st|rx st _ IH|upd saddr st _ IH].
  - unfold tdm_inv, begin; cbn. rewrite !length_replicate. done.
  - by apply update_inv.
  - unfold isr. by apply isr_body_inv, isr_pre_inv.
Qed.

Lemma isr_dest_le saddr : isr_dest ABS saddr <= ABS * 8.
Proof. unfold isr_dest. destruct (_ <? _)%Z; lia. Qed.

Lemma channel_src_range st c i :
  tdm_inv ABS st -> (0 <= channel_src st c !!! i < 4294967296)%Z.
Proof.
  intros (_ & Hz & _). unfold channel_src.
  apply (Forall_lookup_total_Z (fun w => 0 <= w < 4294967296)%Z); [lia|].
  destruct (block_input st !!! c) as [b|].
  - apply as_uint32_range.
  - rewrite Hz. apply Forall_replicate. lia.
Qed.

(** The words the ISR leaves in the free half, for pair [p] and source
    word [i]. *)
Lemma isr_fill_words upd saddr st (p i : nat) :
  reachable ABS st ->
  ABS mod 4 = 0 -> p < 8 -> i < ABS / 2 ->
  let st' := isr_pre upd st in
  let inA := channel_src st' (2 * p) !!! i in
  let inB := channel_src st' (2 * p + 1) !!! i in
  let buf := tdm_tx_buffer (isr ABS upd saddr st) in
  buf !! (isr_dest ABS saddr + p + 16 * i) = Some (tdm_out1 inA inB) /\
  buf !! (isr_dest ABS saddr + p + 16 * i + 8) = Some (tdm_out2 inA inB).
Proof.
  intros Hr Hm Hp Hi st' inA inB buf.
  assert (Hinv : tdm_inv ABS st') by (apply isr_pre_inv, reachable_inv, Hr).
  destruct Hinv as (_ & _ & Hlen).
  unfold buf, isr. fold st'.
  destruct (isr_body_fields saddr st') as (_ & _ & ->).
  pose proof (isr_dest_le saddr).
  apply (isr_copy_out 8 0 (isr_dest ABS saddr) st' (tdm_tx_buffer st') p i); lia.
Qed.



(** C5.  Silence substitution: when the slot of channel [c] is null as
    the ISR fills the buffer, the source read for [c] is the zero
    buffer, so in both output words of its pair the sixteen bits that
    carry [c] are zero; when the other channel of the pair is null as
    well, both words are zero. *)
Theorem tdm_silence_substitution upd saddr st (c i : nat) :
  reachable ABS st ->
  ABS mod 4 = 0 -> c < 16 -> i < ABS / 2 ->
  let st' := isr_pre upd st in
  block_input st' !!! c = None ->
  let buf := tdm_tx_buffer (isr ABS upd saddr st) in
  let pos := isr_dest ABS saddr + c / 2 + 16 * i in
  channel_src st' c = replicate (ABS / 2) 0%Z /\
  exists w1 w2,
    buf !! pos = Some w1 /\ buf !! (pos + 8) = Some w2 /\
    channel_half c w1 = 0%Z /\ channel_half c w2 = 0%Z /\
    (block_input st' !!! partner c = None -> w1 = 0%Z /\ w2 = 0%Z).
Proof.
  intros Hr Hm Hc Hi st' Hnull buf pos.
  assert (Hinv : tdm_inv ABS st') by (apply isr_pre_inv, reachable_inv, Hr).
  assert (Hsrc : forall c', block_input st' !!! c' = None ->
            channel_src st' c' = replicate (ABS / 2) 0%Z).
  { intros c' Hc'. unfold channel_src. rewrite Hc'. apply Hinv. }
  assert (Hzero : forall c', block_input st' !!! c' = None ->
            channel_src st' c' !!! i = 0%Z).
  { intros c' Hc'. rewrite (Hsrc c' Hc'). by apply lookup_total_replicate_2. }
  split; [by apply Hsrc|].
  destruct (isr_fill_words upd saddr st (c / 2) i Hr Hm) as [H1 H2]; [lia|lia|].
  fold st' in H1, H2. fold buf in H1, H2. fold pos in H1, H2.
  eexists _, _. split; [exact H1|]. split; [exact H2|].
  unfold channel_half, partner.
  destruct (Nat.Even_or_Odd c) as [[m ->]|[m ->]].
  - rewrite Nat.even_even in *.
    replace (2 * (2 * m / 2)) with (2 * m) in * by lia.
    rewrite (Hzero _ Hnull).
    split; [apply out1_zero_first|].
    split; [apply out2_zero_first, channel_src_range, Hinv|].
    intros Hp. rewrite (Hzero _ Hp). done.
  - rewrite Nat.even_odd in *.
    replace (2 * ((2 * m + 1) / 2) + 1) with (2 * m + 1) in * by lia.
    replace (2 * ((2 * m + 1) / 2)) with (2 * m + 1 - 1) in * by lia.
    rewrite (Hzero _ Hnull).
    split; [apply out1_zero_second|].
    split; [apply out2_zero_second|].
    intros Hp. rewrite (Hzero _ Hp). done.
Qed.

(** ** Ownership of the blocks in the channel slots *)

Lemma isr_release_lookup n : forall i bi p (q : nat),
  (isr_release_loop n i bi p).1 !! q
  = if decide (i <= q < i + n) then (fun _ => None) <$> bi !! q else bi !! q.
Proof.
  induction n as [|n IH]; intros i bi p q; cbn [isr_release_loop].
  - case_decide; [lia|done].
  - destruct (bi !!! i) as [b|] eqn:Hb; cbn [fst]; rewrite IH.
    + destruct (decide (q = i)) as [->|Hne].
      * repeat case_decide; try lia.
        destruct (bi !! i) eqn:E.
        -- rewrite list_lookup_insert_eq; [done|]. by eapply lookup_lt_Some.
        -- rewrite list_insert_ge; [by rewrite E|]. by apply lookup_ge_None.
      * rewrite list_lookup_insert_ne by done.
        repeat case_decide; try lia; done.
    + destruct (decide (q = i)) as [->|Hne].
      * repeat case_decide; try lia.
        rewrite list_lookup_total_alt in Hb.
        destruct (bi !! i) as [[?|]|]; simpl in *; congruence.
      * repeat case_decide; try lia; done.
Qed.

Lemma drop_lookup_total_cons {A} `{Inhabited A} (l : list A) i :
  i < length l -> drop i l = (l !!! i) :: drop (S i) l.
Proof.
  intros Hi. destruct (lookup_lt_is_Some_2 l i Hi) as [x Hx].
  rewrite (list_lookup_total_correct _ _ _ Hx). by apply drop_S.
Qed.

Lemma isr_release_released n : forall i bi p,
  i + n <= length bi ->
  pool_released (isr_release_loop n i bi p).2
    ≡ₚ ids (take n (drop i bi)) ++ pool_released p.
Proof.
  induction n as [|n IH]; intros i bi p Hlen; cbn [isr_release_loop].
  - done.
  - rewrite (drop_lookup_total_cons bi i) by lia. cbn [take].
    destruct (bi !!! i) as [b|] eqn:Hb.
    + rewrite IH by (rewrite length_insert; lia).
      rewrite drop_insert_lt by lia. replace (i + 1) with (S i) by lia.
      unfold ids. cbn. rewrite Permutation_middle. done.
    + replace (i + 1) with (S i) by lia. rewrite IH by lia. done.
Qed.

Lemma update_release_released n : forall i prev p,
  i + n <= length prev ->
  pool_released (update_release_loop n i prev p)
    ≡ₚ ids (take n (drop i prev)) ++ pool_released p.
Proof.
  induction n as [|n IH]; intros i prev p Hlen; cbn [update_release_loop].
  - done.
  - rewrite (drop_lookup_total_cons prev i) by lia. cbn [take].
    replace (i + 1) with (S i) by lia.
    destruct (prev !!! i) as [b|] eqn:Hb; rewrite IH by lia.
    + unfold ids. cbn. rewrite Permutation_middle. done.
    + done.
Qed.

Lemma update_swap_lookup n : forall i rx prev bi (q : nat),
  i + n <= length bi -> length prev = length bi ->
  (update_swap_loop n i rx prev bi).1 !! q
    = (if decide (i <= q < i + n) then bi !! q else prev !! q) /\
  (update_swap_loop n i rx prev bi).2 !! q
    = (if decide (i <= q < i + n) then Some (rx q) else bi !! q).
Proof.
  induction n as [|n IH]; intros i rx prev bi q Hlen Hp; cbn [update_swap_loop].
  - cbn [fst snd]. case_decide; [lia|done].
  - specialize (IH (i + 1) rx (<[i:=bi !!! i]> prev) (<[i:=rx i]> bi) q).
    rewrite !length_insert in IH. destruct IH as [IH1 IH2]; [lia|lia|].
    rewrite IH1, IH2. clear IH1 IH2.
    destruct (decide (q = i)) as [->|Hne].
    + repeat case_decide; try lia.
      rewrite !list_lookup_insert_eq by lia. split; [|done].
      symmetry. apply list_lookup_lookup_total_lt. lia.
    + rewrite !list_lookup_insert_ne by done.
      repeat case_decide; try lia; done.
Qed.

Lemma omap_id_fmap {A B} (f : A -> option B) (l : list A) :
  omap id (f <$> l) = omap f l.
Proof. induction l as [|a l IH]; cbn; [done|]. destruct (f a); cbn; by rewrite IH. Qed.

(** update() stores what its inputs hand over and releases exactly the
    previous occupants. *)
Lemma update_slots rx st :
  length (block_input st) = 16 ->
  block_input (update rx st) = rx <$> seq 0 16 /\
  pool_released (pool (update rx st)) ≡ₚ held st ++ pool_released (pool st).
Proof.
  intros Hlen.
  unfold update.
  destruct (update_swap_loop 16 0 rx (replicate 16 None) (block_input st))
    as [prev bi] eqn:E. cbn [block_input pool].
  assert (Hprev : prev = block_input st).
  { apply list_eq. intros q.
    destruct (update_swap_lookup 16 0 rx (replicate 16 None) (block_input st) q)
      as [H1 _]; [lia|by rewrite length_replicate|].
    rewrite E in H1. cbn [fst] in H1. rewrite H1.
    case_decide; [done|].
    transitivity (@None (option audio_block_t)).
    - apply lookup_replicate_None. lia.
    - symmetry. apply lookup_ge_None. lia. }
  assert (Hbi : bi = rx <$> seq 0 16).
  { apply list_eq. intros q.
    destruct (update_swap_lookup 16 0 rx (replicate 16 None) (block_input st) q)
      as [_ H2]; [lia|by rewrite length_replicate|].
    rewrite E in H2. cbn [snd] in H2. rewrite H2.
    rewrite list_lookup_fmap.
    case_decide.
    - rewrite lookup_seq_lt by lia. done.
    - rewrite lookup_seq_ge by lia. cbn. apply lookup_ge_None. lia. }
  split; [done|].
  rewrite update_release_released by (subst; lia).
  subst prev. rewrite drop_0, firstn_all2 by lia. done.
Qed.

(** The ISR releases exactly the blocks in the slots and leaves every
    slot null. *)
Lemma isr_body_slots saddr st :
  length (block_input st) = 16 ->
  block_input (isr_body ABS saddr st) = replicate 16 None /\
  pool_released (pool (isr_body ABS saddr st)) ≡ₚ held st ++ pool_released (pool st).
Proof.
  intros Hlen. unfold isr_body.
  destruct (isr_release_loop 16 0 (block_input st) (pool st)) as [bi p] eqn:E.
  cbn [block_input pool]. split.
  - apply list_eq. intros q.
    pose proof (isr_release_lookup 16 0 (block_input st) (pool st) q) as H.
    rewrite E in H. cbn [fst] in H. rewrite H.
    case_decide.
    + rewrite lookup_replicate_2 by lia.
      destruct (lookup_lt_is_Some_2 (block_input st) q) as [x ->]; [lia|done].
    + transitivity (@None (option audio_block_t)).
      * apply lookup_ge_None. lia.
      * symmetry. apply lookup_replicate_None. lia.
  - pose proof (isr_release_released 16 0 (block_input st) (pool st)) as H.
    rewrite E in H. cbn [snd] in H. rewrite H by lia.
    rewrite drop_0, firstn_all2 by lia. done.
Qed.

Lemma cycle_eq c st :
  cycle ABS c st = isr_body ABS (snd c) (update (fst c) st).
Proof.
  unfold cycle, isr, isr_pre, update_all.
  destruct (update_responsibility st) eqn:E.
  { rewrite E. done. }
  assert (update_responsibility (update c.1 st) = false) as ->; [|done].
  unfold update. destruct (update_swap_loop _ _ _ _ _). done.
Qed.

Lemma cycle_slots c st :
  length (block_input st) = 16 ->
  block_input (cycle ABS c st) = replicate 16 None /\
  pool_released (pool (cycle ABS c st))
    ≡ₚ deposited (fst c) ++ held st ++ pool_released (pool st).
Proof.
  intros Hlen. rewrite cycle_eq.
  destruct (update_slots (fst c) st Hlen) as [Hb Hr].
  destruct (isr_body_slots (snd c) (update (fst c) st)) as [Hb' Hr'].
  { rewrite Hb, length_fmap, length_seq. done. }
  split; [done|]. rewrite Hr', Hr.
  unfold held at 1, ids. rewrite Hb, omap_id_fmap. done.
Qed.

Lemma ids_replicate_None n : ids (replicate n None) = [].
Proof. induction n as [|n IH]; [done|exact IH]. Qed.

Lemma mjoin_fmap_cons {A B} (f : A -> list B) (a : A) (l : list A) :
  mjoin (f <$> a :: l) = f a ++ mjoin (f <$> l).
Proof. done. Qed.

Lemma run_cycles_slots cs : forall st,
  block_input st = replicate 16 None ->
  block_input (run_cycles ABS cs st) = replicate 16 None /\
  pool_released (pool (run_cycles ABS cs st))
    ≡ₚ mjoin ((fun c => deposited (fst c)) <$> cs) ++ pool_released (pool st).
Proof.
  induction cs as [|c cs IH]; intros st Hb; cbn [run_cycles].
  - done.
  - destruct (cycle_slots c st) as [Hb' Hr']; [by rewrite Hb|].
    destruct (IH _ Hb') as [Hb'' Hr'']. split; [done|].
    assert (Hheld : held st = []) by (unfold held; rewrite Hb; apply ids_replicate_None).
    etransitivity; [exact Hr''|].
    etransitivity; [apply Permutation_app_head; exact Hr'|].
    rewrite Hheld, mjoin_fmap_cons, app_nil_l, !app_assoc.
    apply Permutation_app_tail, Permutation_app_comm.
Qed.

Lemma balance_chain (r2 r1 d ds h r : list nat) :
  r2 ≡ₚ ds ++ r1 -> r1 ≡ₚ d ++ h ++ r -> r2 ≡ₚ d ++ ds ++ h ++ r.
Proof.
  intros H2 H1.
  etransitivity; [exact H2|].
  etransitivity; [apply Permutation_app_head; exact H1|].
  rewrite !app_assoc. do 2 apply Permutation_app_tail. apply Permutation_app_comm.
Qed.

(** C1.  Pool balance, from any state the driver can reach, whatever
    its slots hold.  update() releases the previous occupant of every
    slot and stores what it is handed; the ISR releases every block in
    the slots it fills from and leaves all sixteen null.  So after a
    full update+ISR cycle [c] and any further cycles [cs], every slot
    is null, no block is outstanding, and the releases issued are, as
    a multiset, the blocks the slots held at the start together with
    the blocks the update passes took over: each one released once,
    none twice, none left behind.  Started from null slots (as after
    begin()) the same holds for any number of cycles, none included. *)
Theorem tdm_pool_balance (c : (nat -> option audio_block_t) * Z)
    (cs : list ((nat -> option audio_block_t) * Z)) st :
  reachable ABS st ->
  (forall receiveReadOnly,
     block_input (update receiveReadOnly st) = receiveReadOnly <$> seq 0 16 /\
     pool_released (pool (update receiveReadOnly st))
       ≡ₚ held st ++ pool_released (pool st)) /\
  (forall upd saddr,
     let st1 := isr_pre upd st in
     block_input (isr ABS upd saddr st) = replicate 16 None /\
     pool_released (pool (isr ABS upd saddr st))
       ≡ₚ held st1 ++ pool_released (pool st1)) /\
  (let st' := run_cycles ABS cs (cycle ABS c st) in
   block_input st' = replicate 16 None /\
   outstanding st' = 0 /\
   pool_released (pool st')
     ≡ₚ deposited (fst c) ++ mjoin ((fun c => deposited (fst c)) <$> cs)
        ++ held st ++ pool_released (pool st)) /\
  (block_input st = replicate 16 None ->
   let st' := run_cycles ABS cs st in
   block_input st' = replicate 16 None /\
   outstanding st' = 0 /\
   pool_released (pool st')
     ≡ₚ mjoin ((fun c => deposited (fst c)) <$> cs) ++ pool_released (pool st)).
Proof.
  intros Hr.
  assert (Hlen : length (block_input st) = 16) by apply (reachable_inv st Hr).
  split; [intros rx; by apply update_slots|].
  split.
  { intros upd saddr st1. unfold isr. fold st1.
    apply isr_body_slots. apply (isr_pre_inv upd st), reachable_inv, Hr. }
  split.
  - intros st'.
    destruct (cycle_slots c st Hlen) as [Hb1 Hr1].
    destruct (run_cycles_slots cs (cycle ABS c st) Hb1) as [Hb Hr2].
    fold st' in Hb, Hr2.
    split; [exact Hb|]. split.
    + unfold outstanding, held. rewrite Hb, ids_replicate_None. done.
    + exact (balance_chain _ _ _ _ _ _ Hr2 Hr1).
  - intros Hnull st'. destruct (run_cycles_slots cs st Hnull) as [Hb' Hr'].
    fold st' in Hb', Hr'. split; [done|]. split; [|done].
    unfold outstanding, held. rewrite Hb', ids_replicate_None. done.
Qed.

End TDM_Properties.


Lemma tdm_pool_balance_witness :
  TDM.reachable 128 TDM.ramp_state /\
  TDM.held TDM.ramp_state = [7] /\
  let st' := TDM.run_cycles 128 [(TDM.block_on_channel 5 12, 4096%Z)]
               (TDM.cycle 128 (TDM.block_on_channel 3 11, 0%Z) TDM.ramp_state) in
  TDM.block_input st' = replicate 16 None /\
  TDM.outstanding st' = 0 /\
  pool_released (TDM.pool st') ≡ₚ [11; 12; 7].
Proof.
  assert (Hr : TDM.reachable 128 TDM.ramp_state)
    by apply TDM.reach_update, TDM.reach_begin.
  split; [exact Hr|]. split; [reflexivity|].
  exact (proj1 (proj2 (proj2 (tdm_pool_balance 128 (TDM.block_on_channel 3 11, 0%Z)
                                [(TDM.block_on_channel 5 12, 4096%Z)] TDM.ramp_state Hr)))).
Defined.

Lemma tdm_silence_substitution_witness :
  (TDM.reachable 128 TDM.ramp_state /\ 128 mod 4 = 0 /\ 1 < 16 /\ 3 < 128 / 2 /\
   TDM.block_input (TDM.isr_pre None TDM.ramp_state) !!! 1 = None) /\
  let st' := TDM.isr_pre None TDM.ramp_state in
  let buf := TDM.tdm_tx_buffer (TDM.isr 128 None 0 TDM.ramp_state) in
  let pos := TDM.isr_dest 128 0 + 1 / 2 + 16 * 3 in
  TDM.channel_src st' 1 = replicate (128 / 2) 0%Z /\
  exists w1 w2,
    buf !! pos = Some w1 /\ buf !! (pos + 8) = Some w2 /\
    TDM.channel_half 1 w1 = 0%Z /\ TDM.channel_half 1 w2 = 0%Z /\
    (TDM.block_input st' !!! TDM.partner 1 = None -> w1 = 0%Z /\ w2 = 0%Z).
Proof.
  assert (Hr : TDM.reachable 128 TDM.ramp_state)
    by apply TDM.reach_update, TDM.reach_begin.
  split.
  - split; [exact Hr|]. split; [reflexivity|]. split; [lia|].
    split; [vm_compute; lia|reflexivity].
  - apply (tdm_silence_substitution 128 None 0%Z TDM.ramp_state 1 3 Hr);
      [reflexivity|lia|vm_compute; lia|reflexivity].
Defined.

(** * Properties of the USB audio paths *)

Section USB_Properties.

Import USB.
Local Open Scope Z_scope.

Variable AUDIO_BLOCK_SAMPLES : Z.
Local Abbreviation ABS := AUDIO_BLOCK_SAMPLES.

(** The block size fits the 16-bit counters that index a block. *)
Hypothesis ABS_range : 0 < ABS < 65536.

Lemma u32_small z : 0 <= z < 4294967296 -> u32 z = z.
Proof. intros. unfold u32. apply Z.mod_small. lia. Qed.

Lemma u16_small z : 0 <= z < 65536 -> u16 z = z.
Proof. intros. unfold u16. apply Z.mod_small. lia. Qed.

(** ** The transmit queue *)

Lemma groups_eq_consistent t : tx_groups_eq t -> tx_group_consistent t.
Proof.
  intros (H1 & H2 & H3 & H4 & H5 & H6). unfold tx_group_consistent, all_or_none.
  destruct (left_1st t), (right_1st t), (left2_1st t), (right2_1st t);
    try discriminate;
    destruct (left_2nd t), (right_2nd t), (left2_2nd t), (right2_2nd t);
    try discriminate; split; eauto 10.
Qed.

(** One pass of the transmit loop on a consistent queue: it either
    finds the queue empty and zero-fills, or copies at least one
    sample; it never dereferences a null pointer. *)
Lemma transmit_iter_inv target len st :
  tx_inv ABS st -> 0 <= len < target -> target <= 45 ->
  (exists st', transmit_iter ABS target len st = Break st' /\
               left_1st (tx st) = None /\
               st' = with_buffer (memset_zero (Z.to_nat ((target - len) * 4))
                                     (Z.to_nat (len * 2)) (usb_audio_transmit_buffer st)) st) \/
  (exists len' st', transmit_iter ABS target len st = Next len' st' /\
               len < len' <= target /\ tx_inv ABS st' /\
               usb_audio_underrun_count st' = usb_audio_underrun_count st /\
               count st' = count st).
Proof.
  intros [Hg Ho] Hlen Ht. unfold transmit_iter.
  rewrite (u32_small (target - len)) by lia.
  destruct Hg as (H1 & H2 & H3 & H4 & H5 & H6).
  destruct (left_1st (tx st)) as [l|] eqn:El; [right|left; eauto].
  destruct (right_1st (tx st)) as [r|] eqn:Er; [|done].
  destruct (left2_1st (tx st)) as [l2|] eqn:El2; [|done].
  destruct (right2_1st (tx st)) as [r2|] eqn:Er2; [|done].
  rewrite (u32_small (ABS - offset_1st (tx st))) by lia.
  set (num := if target - len >? ABS - offset_1st (tx st)
              then ABS - offset_1st (tx st) else target - len).
  assert (Hnum : 0 < num <= target - len /\ num <= ABS - offset_1st (tx st)).
  { unfold num. destruct (Z.gtb_spec (target - len) (ABS - offset_1st (tx st))); lia. }
  rewrite (u32_small (len + num)) by lia.
  rewrite (u32_small (offset_1st (tx st) + num)) by lia.
  destruct (Z.geb_spec (offset_1st (tx st) + num) ABS) as [Hge|Hlt].
  - eexists _, _. split; [reflexivity|]. split; [lia|].
    split; [|done]. split; cbn; [|lia].
    unfold tx_groups_eq; cbn. rewrite H4, H5, H6. done.
  - eexists _, _. split; [reflexivity|]. split; [lia|].
    split; [|done]. split; cbn.
    + unfold tx_groups_eq; cbn. rewrite El, Er, El2, Er2, H4, H5, H6. done.
    + rewrite u16_small by lia. lia.
Qed.

Lemma transmit_loop_done fuel : forall target len st,
  tx_inv ABS st -> 0 <= len -> target <= 45 ->
  (Z.to_nat (target - len) < fuel)%nat ->
  exists st', transmit_loop ABS fuel target len st = Done st' /\ tx_inv ABS st' /\
              usb_audio_underrun_count st' = usb_audio_underrun_count st /\
              count st' = count st.
Proof.
  induction fuel as [|fuel IH]; intros target len st Hinv Hlen Ht Hf; [lia|].
  cbn [transmit_loop].
  destruct (Z.ltb_spec len target) as [Hlt|Hge]; [|eauto].
  destruct (transmit_iter_inv target len st Hinv) as
    [(st' & -> & _ & ->)|(len' & st' & -> & Hl' & Hinv' & Hu & Hc)]; [lia|lia| |].
  - eexists. split; [reflexivity|]. done.
  - destruct (IH target len' st' Hinv') as (st'' & -> & ? & ? & ?); [lia|lia|lia|].
    eexists. split; [reflexivity|]. split; [done|]. split; congruence.
Qed.

(** The transmit callback returns on every consistent queue. *)
Lemma transmit_callback_done st :
  tx_inv ABS st ->
  exists n st', usb_audio_transmit_callback ABS st = Done (n, st') /\ tx_inv ABS st' /\
     usb_audio_underrun_count st' = usb_audio_underrun_count st.
Proof.
  intros Hinv. unfold usb_audio_transmit_callback.
  destruct (u32 (count st + 1) <? 10).
  - destruct (transmit_loop_done (Z.to_nat (2 * 44 + 2)) 44 0
                (with_count (u32 (count st + 1)) st))
      as (st' & -> & ? & ? & ?); [done|lia|lia|lia|]. eauto.
  - destruct (transmit_loop_done (Z.to_nat (2 * 45 + 2)) 45 0 (with_count 0 st))
      as (st' & -> & ? & ? & ?); [done|lia|lia|lia|]. eauto.
Qed.

(** ** What the receive side leaves alone *)

Lemma rx_frame_refl st : rx_frame st st.
Proof. by repeat split. Qed.

Lemma rx_frame_trans st1 st2 st3 : rx_frame st1 st2 -> rx_frame st2 st3 -> rx_frame st1 st3.
Proof.
  unfold rx_frame. intros (?&?&?&?&?&?&?) (?&?&?&?&?&?&?). repeat split; congruence.
Qed.

Lemma receive_send_frame l r l2 r2 st : rx_frame st (receive_send l r l2 r2 st).2.
Proof.
  unfold receive_send, allocate; cbn.
  repeat (match goal with
          | |- context [pool_oracle ?p ?n] => destruct (pool_oracle p n)
          end; cbn);
    by repeat split.
Qed.

Lemma acquire_frame cur store st : rx_frame st (acquire cur store st).2.
Proof.
  unfold acquire, allocate. destruct cur; [apply rx_frame_refl|].
  destruct (pool_oracle _ _); by repeat split.
Qed.

Lemma initial_chain_frame st : rx_frame st (initial_chain st).2.
Proof.
  unfold initial_chain.
  destruct (acquire (incoming_left (rx st)) set_incoming_left st) as [[b1|] st1] eqn:E1;
    pose proof (acquire_frame (incoming_left (rx st)) set_incoming_left st) as F1;
    rewrite E1 in F1; [|done].
  destruct (acquire (incoming_right (rx st)) set_incoming_right st1) as [[b2|] st2] eqn:E2;
    pose proof (acquire_frame (incoming_right (rx st)) set_incoming_right st1) as F2;
    rewrite E2 in F2; [|by eapply rx_frame_trans].
  destruct (acquire (incoming_left2 (rx st)) set_incoming_left2 st2) as [[b3|] st3] eqn:E3;
    pose proof (acquire_frame (incoming_left2 (rx st)) set_incoming_left2 st2) as F3;
    rewrite E3 in F3; [|by eauto using rx_frame_trans].
  destruct (acquire (incoming_right2 (rx st)) set_incoming_right2 st3) as [[b4|] st4] eqn:E4;
    pose proof (acquire_frame (incoming_right2 (rx st)) set_incoming_right2 st3) as F4;
    rewrite E4 in F4; by eauto using rx_frame_trans.
Qed.

Lemma receive_loop_frame fuel : forall buf len dptr cnt l r l2 r2 st st',
  receive_loop ABS fuel buf len dptr cnt l r l2 r2 st = Done st' -> rx_frame st st'.
Proof.
  induction fuel as [|fuel IH]; intros buf len dptr cnt l r l2 r2 st st' H; [done|].
  cbn [receive_loop] in H.
  destruct (len >? 0); [|by inversion H].
  destruct (len <? u32 (ABS - cnt)).
  { destruct (copy_to_blocks _ _ _ _ _ _ _ _) as [[[a b] c] d]. by inversion H. }
  destruct (u32 (ABS - cnt) >? 0).
  - destruct (copy_to_blocks _ _ _ _ _ _ _ _) as [[[a b] c] d].
    cbv zeta in H.
    destruct (ready_occupied _).
    + destruct (_ >? 0) in H; by inversion H.
    + match type of H with
      | context [receive_send ?a ?b ?c ?d ?s] =>
          pose proof (receive_send_frame a b c d s) as F;
          destruct (receive_send a b c d s) as [[[[[a' b'] c'] d']|] s']
      end.
      * apply IH in H. eapply rx_frame_trans; [|exact H]. exact F.
      * inversion H; subst. exact F.
  - destruct (ready_occupied _); [inversion H; apply rx_frame_refl|].
    pose proof (receive_send_frame l r l2 r2 st) as F.
    destruct (receive_send l r l2 r2 st) as [[[[[a' b'] c'] d']|] s'].
    + apply IH in H. eapply rx_frame_trans; [|exact H]. exact F.
    + inversion H; subst. exact F.
Qed.

Lemma receive_callback_frame buf len st st' :
  usb_audio_receive_callback ABS buf len st = Done st' -> rx_frame st st'.
Proof.
  unfold usb_audio_receive_callback. intros H.
  match type of H with
  | context [initial_chain ?s] =>
      pose proof (initial_chain_frame s) as F;
      destruct (initial_chain s) as [[[[[a b] c] d]|] s']
  end.
  - apply receive_loop_frame in H. eapply rx_frame_trans; [|exact H].
    eapply rx_frame_trans; [|exact F]. by repeat split.
  - inversion H; subst. eapply rx_frame_trans; [|exact F]. by repeat split.
Qed.

Lemma rx_update_frame st :
  tx (AudioInputUSB_update ABS st) = tx st /\
  usb_audio_transmit_buffer (AudioInputUSB_update ABS st) = usb_audio_transmit_buffer st /\
  count (AudioInputUSB_update ABS st) = count st.
Proof.
  unfold AudioInputUSB_update, transmit_release.
  repeat (match goal with
          | |- context [match ?x with _ => _ end] => destruct x
          end; cbn);
    done.
Qed.

(** ** The queue invariant holds in every reachable state *)

Lemma tx_update_inv rw st : tx_inv ABS st -> tx_inv ABS (AudioOutputUSB_update ABS rw st).
Proof.
  intros [(H1 & H2 & H3 & H4 & H5 & H6) Ho]. unfold AudioOutputUSB_update.
  destruct (usb_audio_transmit_setting st =? 0).
  { split; cbn; [by repeat split|lia]. }
  destruct (silence ABS (rw 0%nat) (pool st)) as [o1 p1].
  destruct (silence ABS (rw 1%nat) p1) as [o2 p2].
  destruct (silence ABS (rw 2%nat) p2) as [o3 p3].
  destruct (silence ABS (rw 3%nat) p3) as [o4 p4].
  destruct (is_null o1 || is_null o2 || is_null o3 || is_null o4) eqn:E.
  { split; cbn; [by repeat split|lia]. }
  destruct o1, o2, o3, o4; try discriminate E.
  destruct (is_null (left_1st (tx st))) eqn:E1.
  { split; cbn; [|lia]. unfold tx_groups_eq; cbn. rewrite H4, H5, H6. done. }
  destruct (is_null (left_2nd (tx st))) eqn:E2.
  { split; cbn; [|lia]. unfold tx_groups_eq; cbn. rewrite E1 in *. done. }
  split; cbn; [|lia]. unfold tx_groups_eq; cbn.
  rewrite H4, H5, H6. done.
Qed.

Lemma step_tx_inv st st' : tx_inv ABS st -> step ABS st st' -> tx_inv ABS st'.
Proof.
  intros Hinv Hs. destruct Hs as [st|v st|st|st|buf len st st' H|st|rw st|st n st' H].
  - exact Hinv.
  - exact Hinv.
  - exact Hinv.
  - split; cbn; [by repeat split|lia].
  - apply receive_callback_frame in H. destruct H as (Ht & _).
    unfold tx_inv. rewrite Ht. exact Hinv.
  - destruct (rx_update_frame st) as (Ht & _).
    unfold tx_inv. rewrite Ht. exact Hinv.
  - by apply tx_update_inv.
  - destruct (transmit_callback_done st Hinv) as (n' & st'' & E & Hinv' & _).
    rewrite E in H. inversion H; subst. exact Hinv'.
Qed.

Lemma tx_reachable_inv st : tx_reachable ABS st -> tx_inv ABS st.
Proof.
  induction 1 as [st|st st' _ IH Hs].
  - split; cbn; [by repeat split|lia].
  - by eapply step_tx_inv.
Qed.

(** C10.  Transmit queue group consistency: in every reachable state
    the four head pointers are all null or all non-null, and so are
    the four second-entry pointers; hence the transmit callback, which
    tests left_1st only, returns without dereferencing a null
    pointer. *)
Theorem tx_queue_group_consistent st :
  tx_reachable ABS st ->
  tx_group_consistent (tx st) /\
  exists n st', usb_audio_transmit_callback ABS st = Done (n, st').
Proof.
  intros Hr. pose proof (tx_reachable_inv st Hr) as Hinv. split.
  - apply groups_eq_consistent, Hinv.
  - destruct (transmit_callback_done st Hinv) as (n & st' & E & _). eauto.
Qed.

(** C9.  Head-offset invariant of the output queue: in every reachable
    state [offset_1st] is below AUDIO_BLOCK_SAMPLES.  In a pass of the
    transmit loop over a non-empty queue, if what is left of the head
    entry fits in the packet the entry is consumed to its end: its
    four blocks are released, the second entry moves to the first
    slot, the second slot becomes null and [offset_1st] is 0 again;
    otherwise the offset advances and stays below the block size. *)
Theorem tx_head_offset_invariant st :
  tx_reachable ABS st ->
  0 <= offset_1st (tx st) < ABS /\
  forall target len l r l2 r2,
    0 <= len < target -> target <= 45 ->
    left_1st (tx st) = Some l -> right_1st (tx st) = Some r ->
    left2_1st (tx st) = Some l2 -> right2_1st (tx st) = Some r2 ->
    let offset := offset_1st (tx st) in
    let t := tx st in
    if ABS - offset <=? target - len then
      exists st', transmit_iter ABS target len st = Next (len + (ABS - offset)) st' /\
        tx st' = Tx (left_2nd t) None (right_2nd t) None
                    (left2_2nd t) None (right2_2nd t) None 0 /\
        pool_released (pool st')
          = blk_id r2 :: blk_id l2 :: blk_id r :: blk_id l :: pool_released (pool st)
    else
      exists st', transmit_iter ABS target len st = Next target st' /\
        tx st' = set_offset_1st (offset + (target - len)) t /\
        offset + (target - len) < ABS /\
        pool st' = pool st.
Proof.
  intros Hr. destruct (tx_reachable_inv st Hr) as [_ Ho]. split; [exact Ho|].
  intros target len l r l2 r2 Hlen Ht El Er El2 Er2 offset t.
  unfold transmit_iter. rewrite El, Er, El2, Er2.
  rewrite (u32_small (target - len)) by lia.
  fold offset. rewrite (u32_small (ABS - offset)) by (unfold offset; lia).
  destruct (Z.leb_spec (ABS - offset) (target - len)) as [Hfit|Hmore].
  - assert ((if target - len >? ABS - offset then ABS - offset else target - len)
            = ABS - offset) as ->.
    { destruct (Z.gtb_spec (target - len) (ABS - offset)); lia. }
    rewrite (u32_small (len + _)) by (unfold offset in *; lia).
    rewrite (u32_small (offset + _)) by (unfold offset in *; lia).
    destruct (Z.geb_spec (offset + (ABS - offset)) ABS); [|lia].
    eexists. split; [reflexivity|]. done.
  - assert ((if target - len >? ABS - offset then ABS - offset else target - len)
            = target - len) as ->.
    { destruct (Z.gtb_spec (target - len) (ABS - offset)); lia. }
    rewrite (u32_small (len + _)) by (unfold offset in *; lia).
    rewrite (u32_small (offset + _)) by (unfold offset in *; lia).
    destruct (Z.geb_spec (offset + (target - len)) ABS); [lia|].
    replace (len + (target - len)) with target by lia.
    eexists. split; [reflexivity|]. cbn.
    rewrite u16_small by (unfold offset in *; lia). done.
Qed.

(** ** Starvation of the transmit callback *)

Lemma memset_zero_lookup n : forall start buf (q : nat),
  memset_zero n start buf !! q
  = if decide (start <= q < start + n)%nat
    then (fun _ => 0) <$> buf !! q else buf !! q.
Proof.
  induction n as [|n IH]; intros start buf q; cbn [memset_zero].
  - case_decide; [lia|done].
  - rewrite IH. destruct (decide (q = start)) as [->|Hne].
    + repeat case_decide; try lia.
      destruct (buf !! start) eqn:E.
      * rewrite list_lookup_insert_eq; [done|]. by eapply lookup_lt_Some.
      * rewrite list_insert_ge; [by rewrite E|]. by apply lookup_ge_None.
    + rewrite list_lookup_insert_ne by done.
      repeat case_decide; try lia; done.
Qed.

(** C3, as the code has it.  When the transmit callback finds the
    queue empty on entry, it returns the packet length with the whole
    packet region of the transmit buffer zeroed (four channels, target
    samples), and leaves the queue and the underrun counter as they
    were. *)
Theorem tx_underrun_zero_fill st :
  left_1st (tx st) = None ->
  let target := if u32 (count st + 1) <? 10 then 44 else 45 in
  exists st',
    usb_audio_transmit_callback ABS st = Done (target * 8, st') /\
    (forall q : nat,
        usb_audio_transmit_buffer st' !! q
        = if decide (q < Z.to_nat (target * 4))%nat
          then (fun _ => 0) <$> usb_audio_transmit_buffer st !! q
          else usb_audio_transmit_buffer st !! q) /\
    usb_audio_underrun_count st' = usb_audio_underrun_count st /\
    tx st' = tx st.
Proof.
  intros Hnull target. unfold usb_audio_transmit_callback. fold target.
  assert (Ht : target = 44 \/ target = 45)
    by (unfold target; destruct (_ <? _); auto).
  assert (Hloop : forall c,
    transmit_loop ABS (Z.to_nat (2 * target + 2)) target 0 (with_count c st)
    = Done (with_buffer (memset_zero (Z.to_nat (target * 4)) 0
                           (usb_audio_transmit_buffer st)) (with_count c st))).
  { intros c.
    destruct (Z.to_nat (2 * target + 2)) as [|fuel] eqn:Ef; [lia|].
    cbn [transmit_loop].
    destruct (Z.ltb_spec 0 target); [|lia].
    unfold transmit_iter. cbn [tx with_count]. rewrite Hnull.
    rewrite u32_small by lia.
    replace (target - 0) with target by lia. done. }
  assert (Hq : forall q : nat,
    memset_zero (Z.to_nat (target * 4)) 0 (usb_audio_transmit_buffer st) !! q
    = if decide (q < Z.to_nat (target * 4))%nat
      then (fun _ => 0) <$> usb_audio_transmit_buffer st !! q
      else usb_audio_transmit_buffer st !! q).
  { intros q. rewrite memset_zero_lookup. repeat case_decide; try lia; done. }
  unfold target in *. destruct (u32 (count st + 1) <? 10);
    rewrite Hloop; eexists; (split; [reflexivity|]); cbn; split; done.
Qed.

(** ** The receive callback *)

Lemma copy_to_blocks_ids buf dptr cnt len l r l2 r2 a b c d :
  copy_to_blocks buf dptr cnt len l r l2 r2 = (a, b, c, d) ->
  blk_id a = blk_id l /\ blk_id b = blk_id r /\ blk_id c = blk_id l2 /\ blk_id d = blk_id r2.
Proof.
  unfold copy_to_blocks.
  destruct (copy_to_buffers_4ch _ _ _ _ _ _ _ _) as [[[? ?] ?] ?].
  intros H; inversion H; subst. done.
Qed.

Lemma initial_chain_full st l r l2 r2 :
  incoming_quad (rx st) = [Some l; Some r; Some l2; Some r2] ->
  initial_chain st = (Some (l, r, l2, r2), st).
Proof.
  unfold incoming_quad. intros H. injection H as H1 H2 H3 H4.
  unfold initial_chain. rewrite H1, H2, H3, H4. done.
Qed.

Lemma shiftr3_nonneg len : 0 <= len -> 0 <= Z.shiftr len 3.
Proof. intros. apply Z.shiftr_nonneg. done. Qed.

(** The receive callback on an occupied mailbox. *)
Lemma receive_callback_occupied buf len st l r l2 r2 :
  incoming_quad (rx st) = [Some l; Some r; Some l2; Some r2] ->
  ready_occupied (rx st) = true ->
  rx_inv ABS st -> 0 <= len ->
  let n := Z.shiftr len 3 in
  let cnt := incoming_count (rx st) in
  exists st' l' r' l2' r2',
    usb_audio_receive_callback ABS buf len st = Done st' /\
    ready_quad (rx st') = ready_quad (rx st) /\
    pool st' = pool st /\
    incoming_quad (rx st') = [Some l'; Some r'; Some l2'; Some r2'] /\
    blk_id <$> [l'; r'; l2'; r2'] = blk_id <$> [l; r; l2; r2] /\
    receive_flag (rx st') = 1 /\
    rx_inv ABS st' /\
    (if n <? ABS - cnt then
       incoming_count (rx st') = cnt + n /\
       usb_audio_overrun_count st' = usb_audio_overrun_count st
     else if cnt <? ABS then
       incoming_count (rx st') = ABS /\
       usb_audio_overrun_count st'
       = (if n >? ABS - cnt then u32 (usb_audio_overrun_count st + 1)
          else usb_audio_overrun_count st)
     else st' = with_rx (set_receive_flag 1 (rx st)) st).
Proof.
  intros Hq Hocc Hinv Hlen n cnt.
  assert (Hn : 0 <= n) by (apply Z.shiftr_nonneg; done).
  unfold rx_inv in Hinv. fold cnt in Hinv.
  unfold usb_audio_receive_callback. fold n.
  rewrite (initial_chain_full _ l r l2 r2) by exact Hq.
  replace (Z.to_nat n + 3)%nat with (S (Z.to_nat n + 2)) by lia.
  cbn [receive_loop]. cbn [rx with_rx incoming_count set_receive_flag]. fold cnt.
  unfold u32. rewrite (Z.mod_small (ABS - cnt)) by lia.
  destruct (Z.gtb_spec n 0) as [Hpos|Hzero].
  - destruct (Z.ltb_spec n (ABS - cnt)) as [Hsmall|Hbig].
    + destruct (copy_to_blocks buf 0 cnt n l r l2 r2) as [[[a b] c] d] eqn:Ec.
      apply copy_to_blocks_ids in Ec. destruct Ec as (I1 & I2 & I3 & I4).
      eexists _, a, b, c, d. split; [reflexivity|]. cbn.
      unfold rx_inv, u16; cbn. rewrite Z.mod_small by lia.
      repeat split; try done; try lia. by rewrite I1, I2, I3, I4.
    + destruct (Z.gtb_spec (ABS - cnt) 0) as [Hroom|Hfull].
      * destruct (copy_to_blocks buf 0 cnt (ABS - cnt) l r l2 r2)
          as [[[a b] c] d] eqn:Ec.
        apply copy_to_blocks_ids in Ec. destruct Ec as (I1 & I2 & I3 & I4).
        cbn [rx with_rx]. 
        assert (ready_occupied (set_incoming (Some a) (Some b) (Some c) (Some d)
                  (set_receive_flag 1 (rx st))) = true) as -> by exact Hocc.
        destruct (Z.ltb_spec cnt ABS); [|lia].
        replace (cnt + (ABS - cnt)) with ABS by lia.
        replace (n - (ABS - cnt) >? 0) with (n >? ABS - cnt)
          by (destruct (Z.gtb_spec n (ABS - cnt)), (Z.gtb_spec (n - (ABS - cnt)) 0); lia).
        destruct (n >? ABS - cnt);
          (eexists _, a, b, c, d; split; [reflexivity|]); cbn;
          unfold rx_inv, u16; cbn; rewrite Z.mod_small by lia;
          repeat split; try done; try lia; by rewrite I1, I2, I3, I4.
      * assert (ready_occupied (set_receive_flag 1 (rx st)) = true) as -> by exact Hocc.
        destruct (Z.ltb_spec cnt ABS); [lia|].
        eexists _, l, r, l2, r2. split; [reflexivity|]. cbn.
        unfold rx_inv; cbn. fold cnt.
        inversion Hq as [[H1 H2 H3 H4]].
        repeat split; try done; lia.
  - assert (n = 0) as Hn0 by lia. rewrite Hn0 in *.
    eexists _, l, r, l2, r2. split; [reflexivity|]. cbn.
    unfold rx_inv, u16; cbn. fold cnt. rewrite Z.mod_small by lia.
    inversion Hq as [[H1 H2 H3 H4]].
    destruct (Z.ltb_spec 0 (ABS - cnt)).
    + repeat split; try done; lia.
    + destruct (Z.ltb_spec cnt ABS); [lia|].
      repeat split; try done; try lia.
Qed.

Lemma ready_quad_occupied x y :
  ready_quad x = ready_quad y -> ready_occupied x = ready_occupied y.
Proof.
  unfold ready_quad, ready_occupied. intros H. injection H as H1 H2 H3 H4.
  by rewrite H1, H2, H3, H4.
Qed.

Lemma receive_packets_occupied pkts : forall st l r l2 r2,
  incoming_quad (rx st) = [Some l; Some r; Some l2; Some r2] ->
  ready_occupied (rx st) = true ->
  rx_inv ABS st ->
  Forall (fun p : list Z * Z => 0 <= p.2) pkts ->
  exists st',
    receive_packets ABS pkts st = Done st' /\
    ready_quad (rx st') = ready_quad (rx st) /\
    pool st' = pool st /\
    (usb_audio_overrun_count st' = usb_audio_overrun_count st \/
     (usb_audio_overrun_count st' = u32 (usb_audio_overrun_count st + 1) /\
      incoming_count (rx st) < ABS)).
Proof.
  induction pkts as [|[buf len] pkts IH]; intros st l r l2 r2 Hq Hocc Hinv Hlen.
  - eexists. split; [reflexivity|]. auto.
  - inversion Hlen as [|? ? Hl Hrest]; subst. cbn in Hl.
    destruct (receive_callback_occupied buf len st l r l2 r2 Hq Hocc Hinv Hl)
      as (st1 & l' & r' & l2' & r2' & E & Hr & Hp & Hq' & _ & _ & Hinv' & Hcase).
    cbn [receive_packets]. rewrite E.
    destruct (IH st1 l' r' l2' r2' Hq') as (st' & E' & Hr' & Hp' & Ho'); [|done|done|].
    { rewrite (ready_quad_occupied _ _ Hr). exact Hocc. }
    exists st'. split; [exact E'|]. split; [congruence|]. split; [congruence|].
    unfold rx_inv in Hinv.
    assert (Hn : 0 <= Z.shiftr len 3) by (by apply Z.shiftr_nonneg).
    destruct (Z.ltb_spec (Z.shiftr len 3) (ABS - incoming_count (rx st))) as [H1|H1].
    + destruct Hcase as [Hc Hov]. rewrite <- Hov. destruct Ho' as [?|[? ?]]; [by left|].
      right. split; [done|]. lia.
    + destruct (Z.ltb_spec (incoming_count (rx st)) ABS) as [H2|H2].
      * destruct Hcase as [Hc Hov]. destruct Ho' as [Ho'|[_ Ho']]; [|lia].
        rewrite Ho', Hov. destruct (_ >? _); auto.
      * subst st1. cbn in Ho'. destruct Ho' as [?|[_ ?]]; [by left|lia].
Qed.


(** C2, as the code has it.  When the ready mailbox is occupied the
    receive callback never replaces it.  A packet that does not fill
    the incoming blocks is stored; one that fills them leaves the
    filled set in the incoming slots ([incoming_count] at the block
    size), drops the rest of the packet and counts one overrun only if
    samples were left over; once the incoming blocks are full every
    further packet is dropped whole and not counted.  So through any
    run of packets the mailbox keeps the set it held (the oldest
    unread one) and the overrun counter goes up at most once. *)
Theorem rx_overrun_policy st l r l2 r2 :
  incoming_quad (rx st) = [Some l; Some r; Some l2; Some r2] ->
  ready_occupied (rx st) = true ->
  rx_inv ABS st ->
  (forall buf len, 0 <= len ->
     let n := Z.shiftr len 3 in
     let cnt := incoming_count (rx st) in
     exists st',
       usb_audio_receive_callback ABS buf len st = Done st' /\
       ready_quad (rx st') = ready_quad (rx st) /\
       pool st' = pool st /\
       block_ids (incoming_quad (rx st')) = block_ids (incoming_quad (rx st)) /\
       (if n <? ABS - cnt then
          incoming_count (rx st') = cnt + n /\
          usb_audio_overrun_count st' = usb_audio_overrun_count st
        else if cnt <? ABS then
          incoming_count (rx st') = ABS /\
          usb_audio_overrun_count st'
          = (if n >? ABS - cnt then u32 (usb_audio_overrun_count st + 1)
             else usb_audio_overrun_count st)
        else st' = with_rx (set_receive_flag 1 (rx st)) st)) /\
  (forall pkts, Forall (fun p : list Z * Z => 0 <= p.2) pkts ->
     exists st',
       receive_packets ABS pkts st = Done st' /\
       ready_quad (rx st') = ready_quad (rx st) /\
       pool st' = pool st /\
       (usb_audio_overrun_count st' = usb_audio_overrun_count st \/
        usb_audio_overrun_count st' = u32 (usb_audio_overrun_count st + 1))).
Proof.
  intros Hq Hocc Hinv. split.
  - intros buf len Hlen n cnt.
    destruct (receive_callback_occupied buf len st l r l2 r2 Hq Hocc Hinv Hlen)
      as (st' & l' & r' & l2' & r2' & E & Hr & Hp & Hq' & Hids & _ & _ & Hcase).
    exists st'. split; [exact E|]. split; [exact Hr|]. split; [exact Hp|].
    split; [|exact Hcase].
    rewrite Hq, Hq'. exact Hids.
  - intros pkts Hlen.
    destruct (receive_packets_occupied pkts st l r l2 r2 Hq Hocc Hinv Hlen)
      as (st' & E & Hr & Hp & Ho).
    exists st'. split; [exact E|]. split; [exact Hr|]. split; [exact Hp|].
    destruct Ho as [?|[? _]]; auto.
Qed.





Lemma receive_send_count l r l2 r2 st :
  match receive_send l r l2 r2 st with
  | (Some _, st') => incoming_count (rx st') = incoming_count (rx st)
  | (None, st') => incoming_count (rx st') = 0
  end.
Proof.
  unfold receive_send, allocate. cbn.
  repeat (match goal with
          | |- context [pool_oracle ?p ?n] => destruct (pool_oracle p n); cbn
          end); done.
Qed.

(** The receive loop returns, and keeps the fill count within the block. *)
Lemma receive_loop_done fuel : forall buf len dptr cnt l r l2 r2 st,
  0 <= cnt <= ABS -> rx_inv ABS st ->
  (Z.to_nat len + (if (cnt <? ABS)%Z then 1 else 2) <= fuel)%nat ->
  exists st', receive_loop ABS fuel buf len dptr cnt l r l2 r2 st = Done st' /\
              rx_inv ABS st'.
Proof.
  induction fuel as [|fuel IH]; intros buf len dptr cnt l r l2 r2 st Hc Hinv Hf.
  { destruct (cnt <? ABS); lia. }
  cbn [receive_loop]. unfold rx_inv in *.
  destruct (Z.gtb_spec len 0) as [Hpos|Hz].
  2:{ eexists. split; [reflexivity|]. cbn. unfold u16. rewrite Z.mod_small; lia. }
  unfold u32. rewrite (Z.mod_small (ABS - cnt)) by lia.
  destruct (Z.ltb_spec len (ABS - cnt)) as [Hs|Hb].
  { destruct (copy_to_blocks _ _ _ _ _ _ _ _) as [[[a b] c] d].
    eexists. split; [reflexivity|]. cbn. unfold u16. rewrite Z.mod_small; lia. }
  destruct (Z.gtb_spec (ABS - cnt) 0) as [Hroom|Hfull].
  - destruct (copy_to_blocks _ _ _ _ _ _ _ _) as [[[a b] c] d]. cbv zeta.
    destruct (ready_occupied _).
    + destruct (_ >? 0); eexists; (split; [reflexivity|]); cbn;
        unfold u16; rewrite Z.mod_small; lia.
    + match goal with
      | |- context [receive_send ?a ?b ?c ?d ?s] =>
          pose proof (receive_send_count a b c d s) as Hcount;
          destruct (receive_send a b c d s) as [[[[[a' b'] c'] d']|] s']
      end.
      * cbn in Hcount. apply IH; [lia|lia|].
        destruct (Z.ltb_spec 0 ABS); [|lia].
        destruct (Z.ltb_spec cnt ABS); lia.
      * eexists. split; [reflexivity|]. lia.
  - destruct (ready_occupied _); [eauto|].
    pose proof (receive_send_count l r l2 r2 st) as Hcount.
    destruct (receive_send l r l2 r2 st) as [[[[[a' b'] c'] d']|] s'].
    + apply IH; [lia|lia|].
      destruct (Z.ltb_spec 0 ABS); [|lia].
      destruct (Z.ltb_spec cnt ABS); lia.
    + eexists. split; [reflexivity|]. lia.
Qed.

Lemma acquire_count cur store st :
  (forall o x, incoming_count (store o x) = incoming_count x) ->
  incoming_count (rx (acquire cur store st).2) = incoming_count (rx st).
Proof.
  intros Hs. unfold acquire, allocate. destruct cur; [done|].
  destruct (pool_oracle _ _); cbn; [apply Hs|done].
Qed.

Lemma initial_chain_count st :
  incoming_count (rx (initial_chain st).2) = incoming_count (rx st).
Proof.
  unfold initial_chain.
  destruct (acquire (incoming_left (rx st)) set_incoming_left st) as [[b1|] st1] eqn:E1;
    pose proof (acquire_count (incoming_left (rx st)) set_incoming_left st
                  (fun _ _ => eq_refl)) as F1;
    rewrite E1 in F1; [|done].
  destruct (acquire (incoming_right (rx st)) set_incoming_right st1) as [[b2|] st2] eqn:E2;
    pose proof (acquire_count (incoming_right (rx st)) set_incoming_right st1
                  (fun _ _ => eq_refl)) as F2;
    rewrite E2 in F2; [|cbn in *; congruence].
  destruct (acquire (incoming_left2 (rx st)) set_incoming_left2 st2) as [[b3|] st3] eqn:E3;
    pose proof (acquire_count (incoming_left2 (rx st)) set_incoming_left2 st2
                  (fun _ _ => eq_refl)) as F3;
    rewrite E3 in F3; [|cbn in *; congruence].
  destruct (acquire (incoming_right2 (rx st)) set_incoming_right2 st3) as [[b4|] st4] eqn:E4;
    pose proof (acquire_count (incoming_right2 (rx st)) set_incoming_right2 st3
                  (fun _ _ => eq_refl)) as F4;
    rewrite E4 in F4; cbn in *; congruence.
Qed.

Lemma receive_callback_done buf len st :
  rx_inv ABS st ->
  exists st', usb_audio_receive_callback ABS buf len st = Done st' /\ rx_inv ABS st'.
Proof.
  intros Hinv. unfold usb_audio_receive_callback.
  match goal with
  | |- context [initial_chain ?s] =>
      pose proof (initial_chain_count s) as Hc;
      destruct (initial_chain s) as [[[[[a b] c] d]|] s']
  end; cbn in Hc.
  - apply receive_loop_done; unfold rx_inv in *; cbn; [lia|lia|].
    destruct (_ <? _); lia.
  - eexists. split; [reflexivity|]. unfold rx_inv in *. lia.
Qed.

Lemma receive_packets_done pkts : forall st,
  rx_inv ABS st ->
  exists st', receive_packets ABS pkts st = Done st' /\ rx_inv ABS st' /\
              feedback_accumulator st' = feedback_accumulator st.
Proof.
  induction pkts as [|[buf len] pkts IH]; intros st Hinv; cbn [receive_packets].
  - eauto.
  - destruct (receive_callback_done buf len st Hinv) as (st1 & E & Hinv1).
    rewrite E. destruct (IH st1 Hinv1) as (st' & E' & Hinv' & Hf).
    exists st'. split; [done|]. split; [done|].
    apply receive_callback_frame in E. destruct E as (_ & _ & _ & Hfb & _). congruence.
Qed.

Lemma update_keeps_count st :
  incoming_count (rx (AudioInputUSB_update ABS st)) = incoming_count (rx st).
Proof.
  unfold AudioInputUSB_update, transmit_release.
  repeat (match goal with
          | |- context [match ?x with _ => _ end] => destruct x
          end; cbn);
    done.
Qed.

Lemma u32_add_l a b : u32 (u32 a + b) = u32 (a + b).
Proof. unfold u32. apply Z.add_mod_idemp_l. lia. Qed.

Lemma update_feedback_underrun st :
  underrun_signal st ->
  feedback_accumulator (AudioInputUSB_update ABS st)
  = u32 (feedback_accumulator st + (3500 + (ABS ÷ 2 - incoming_count (rx st)))).
Proof.
  intros [Hf Hn]. unfold AudioInputUSB_update, transmit_release.
  destruct (Z.eqb_spec (receive_flag (rx st)) 0) as [|_]; [done|].
  cbn [rx with_rx]. rewrite Hn.
  repeat (match goal with
          | |- context [match ?x with _ => _ end] => destruct x
          end; cbn);
    rewrite u32_add_l; f_equal; lia.
Qed.

Lemma sum_lower_bound lo ds :
  Forall (fun d => lo <= d) ds -> lo * Z.of_nat (length ds) <= foldr Z.add 0 ds.
Proof. induction 1; cbn [foldr length]; lia. Qed.

Lemma update_cycles_feedback cycles : forall st,
  rx_inv ABS st -> sustained_underrun ABS cycles st ->
  0 <= feedback_accumulator st < 4294967296 ->
  exists st',
    update_cycles ABS cycles st = Done st' /\
    length (cycle_deltas ABS cycles st) = length cycles /\
    Forall (fun d => 3500 + ABS ÷ 2 - ABS <= d <= 3500 + ABS ÷ 2)
           (cycle_deltas ABS cycles st) /\
    feedback_accumulator st'
    = u32 (feedback_accumulator st + foldr Z.add 0 (cycle_deltas ABS cycles st)).
Proof.
  induction cycles as [|pkts cycles IH]; intros st Hinv Hs Hfb.
  - exists st. cbn. split; [done|]. split; [done|]. split; [done|].
    rewrite Z.add_0_r, u32_small; done.
  - cbn [update_cycles sustained_underrun cycle_deltas] in *.
    destruct (receive_packets_done pkts st Hinv) as (st1 & E & Hinv1 & Hf1).
    rewrite E in *. destruct Hs as [Hu Hs].
    assert (Hinv2 : rx_inv ABS (AudioInputUSB_update ABS st1))
      by (unfold rx_inv; rewrite update_keeps_count; exact Hinv1).
    pose proof (update_feedback_underrun st1 Hu) as Hf2.
    destruct (IH _ Hinv2 Hs) as (st' & E' & Hl & Hall & Hf').
    { rewrite Hf2. unfold u32. lia. }
    exists st'. split; [exact E'|]. split; [cbn; by rewrite Hl|].
    split.
    + constructor; [|exact Hall]. unfold rx_inv in Hinv1. lia.
    + rewrite Hf', Hf2, Hf1, u32_add_l. cbn [foldr]. f_equal. lia.
Qed.

(** C8, as the code has it.  Over a run of update cycles that each
    observe the underrun signal, every update adds
    [3500 + (AUDIO_BLOCK_SAMPLES/2 - incoming_count)] to the
    accumulator, modulo 2^32: an amount that depends on the fill count
    of that cycle and lies within half a block of 3500.  When half a
    block is less than 3500 every such amount is positive, so the
    accumulator
    goes strictly up for as long as the sum stays below 2^32. *)
Theorem feedback_underrun_drift cycles st :
  rx_inv ABS st -> sustained_underrun ABS cycles st ->
  0 <= feedback_accumulator st < 4294967296 ->
  let ds := cycle_deltas ABS cycles st in
  exists st',
    update_cycles ABS cycles st = Done st' /\
    length ds = length cycles /\
    Forall (fun d => 3500 + ABS ÷ 2 - ABS <= d <= 3500 + ABS ÷ 2) ds /\
    feedback_accumulator st' = u32 (feedback_accumulator st + foldr Z.add 0 ds) /\
    (ABS - ABS ÷ 2 < 3500 ->
     feedback_accumulator st + foldr Z.add 0 ds < 4294967296 ->
     feedback_accumulator st' = feedback_accumulator st + foldr Z.add 0 ds /\
     (cycles <> [] -> feedback_accumulator st < feedback_accumulator st')).
Proof.
  intros Hinv Hs Hfb ds.
  destruct (update_cycles_feedback cycles st Hinv Hs Hfb) as (st' & E & Hl & Hall & Hf).
  fold ds in Hl, Hall, Hf.
  exists st'. split; [exact E|]. split; [exact Hl|]. split; [exact Hall|].
  split; [exact Hf|].
  intros Hsmall Hsum.
  assert (Hlow : (3500 + ABS ÷ 2 - ABS) * Z.of_nat (length ds) <= foldr Z.add 0 ds).
  { apply sum_lower_bound. eapply Forall_impl; [exact Hall|]. cbn. intros; lia. }
  assert (Hpos : 0 < 3500 + ABS ÷ 2 - ABS) by lia.
  split.
  - rewrite Hf. apply u32_small. nia.
  - intros Hne. rewrite Hf, u32_small by nia.
    assert (0 < Z.of_nat (length ds)) by (rewrite Hl; destruct cycles; [done|cbn; lia]).
    nia.
Qed.

(** ** Reassembly of the stream *)

Lemma frame_words_lookup fs : forall (j : nat) f,
  fs !! j = Some f ->
  frame_words fs !! (2 * j)%nat = Some f.1 /\
  frame_words fs !! (2 * j + 1)%nat = Some f.2.
Proof.
  induction fs as [|g fs IH]; intros j f Hj; [done|].
  destruct j as [|j]; cbn in *.
  - inversion Hj; subst. done.
  - replace (j + S (j + 0))%nat with (S (2 * j)) by lia.
    replace (S (2 * j) + 1)%nat with (S (2 * j + 1)) by lia. cbn.
    by apply IH.
Qed.

Lemma splice_nil k l : splice k [] l = l.
Proof. unfold splice. cbn. rewrite Nat.add_0_r. apply take_drop. Qed.

Lemma splice_length k xs l :
  (k + length xs <= length l)%nat -> length (splice k xs l) = length l.
Proof.
  intros H. unfold splice. rewrite !length_app, length_take, length_drop. lia.
Qed.

Lemma splice_insert k v xs (l : list Z) :
  (k < length l)%nat ->
  splice (k + 1) xs (<[k:=v]> l) = splice k (v :: xs) l.
Proof.
  intros Hk. unfold splice.
  replace (k + 1)%nat with (S k) by lia.
  rewrite (take_S_r _ _ v) by (by apply list_lookup_insert_eq).
  rewrite take_insert_ge by lia.
  rewrite drop_insert_lt by lia.
  rewrite <- app_assoc. cbn.
  replace (k + S (length xs))%nat with (S k + length xs)%nat by lia. done.
Qed.

Lemma copy_to_buffers_spec m : forall fs (j k : nat) l r l2 r2,
  (j + m <= length fs)%nat ->
  (k + m <= length l)%nat -> (k + m <= length r)%nat ->
  (k + m <= length l2)%nat -> (k + m <= length r2)%nat ->
  let part := take m (drop j fs) in
  copy_to_buffers_4ch m (frame_words fs) (2 * j) k l r l2 r2
  = (splice k (spec_channel 0 part) l, splice k (spec_channel 1 part) r,
     splice k (spec_channel 2 part) l2, splice k (spec_channel 3 part) r2).
Proof.
  induction m as [|m IH]; intros fs j k l r l2 r2 Hj Hl Hr Hl2 Hr2 part.
  - unfold part. cbn. by rewrite !splice_nil.
  - cbn [copy_to_buffers_4ch].
    destruct (lookup_lt_is_Some_2 fs j) as [f Hf]; [lia|].
    destruct (frame_words_lookup fs j f Hf) as [H1 H2].
    rewrite (list_lookup_total_correct _ _ _ H1).
    rewrite (list_lookup_total_correct _ _ _ H2).
    replace (2 * j + 2)%nat with (2 * (j + 1))%nat by lia.
    rewrite IH by (rewrite ?length_insert; lia).
    rewrite !splice_insert by lia.
    unfold part. rewrite (drop_S _ _ _ Hf). cbn [take].
    replace (j + 1)%nat with (S j) by lia. done.
Qed.

Lemma take_splice k xs (l : list Z) :
  (k <= length l)%nat ->
  take (k + length xs) (splice k xs l) = take k l ++ xs.
Proof.
  intros Hk. unfold splice. rewrite app_assoc.
  rewrite take_app_length'; [done|].
  rewrite length_app, length_take. lia.
Qed.

Lemma splice_full k xs (l : list Z) :
  (k + length xs = length l)%nat -> splice k xs l = take k l ++ xs.
Proof.
  intros H. unfold splice. rewrite drop_ge by lia. by rewrite app_nil_r.
Qed.

Lemma allocate_ok p :
  pool_plentiful ABS p ->
  exists d, allocate p = (Some (Block (pool_calls p) d), count_call p) /\
            length d = Z.to_nat ABS /\ pool_plentiful ABS (count_call p).
Proof.
  intros Hp. destruct (Hp (pool_calls p)) as (d & E & Hl).
  exists d. unfold allocate. rewrite E. done.
Qed.


Lemma pool_plentiful_oracle p p' :
  pool_oracle p' = pool_oracle p -> pool_plentiful ABS p -> pool_plentiful ABS p'.
Proof. unfold pool_plentiful. intros ->. done. Qed.

Lemma copy_to_blocks_spec fs (dptr j : nat) cnt m l r l2 r2 :
  dptr = (2 * j)%nat ->
  0 <= cnt -> 0 <= m ->
  (j + Z.to_nat m <= length fs)%nat ->
  (Z.to_nat cnt + Z.to_nat m <= length (data l))%nat ->
  (Z.to_nat cnt + Z.to_nat m <= length (data r))%nat ->
  (Z.to_nat cnt + Z.to_nat m <= length (data l2))%nat ->
  (Z.to_nat cnt + Z.to_nat m <= length (data r2))%nat ->
  let part := take (Z.to_nat m) (drop j fs) in
  copy_to_blocks (frame_words fs) dptr cnt m l r l2 r2
  = (with_data l (splice (Z.to_nat cnt) (spec_channel 0 part) (data l)),
     with_data r (splice (Z.to_nat cnt) (spec_channel 1 part) (data r)),
     with_data l2 (splice (Z.to_nat cnt) (spec_channel 2 part) (data l2)),
     with_data r2 (splice (Z.to_nat cnt) (spec_channel 3 part) (data r2))).
Proof.
  intros ->. intros. unfold copy_to_blocks. rewrite copy_to_buffers_spec by lia. done.
Qed.

(** The first chain on a well-formed state. *)
Lemma initial_chain_ok st :
  rx_wf ABS st ->
  exists l r l2 r2 st2,
    initial_chain st = (Some (l, r, l2, r2), st2) /\
    incoming_quad (rx st2) = [Some l; Some r; Some l2; Some r2] /\
    length (data l) = Z.to_nat ABS /\ length (data r) = Z.to_nat ABS /\
    length (data l2) = Z.to_nat ABS /\ length (data r2) = Z.to_nat ABS /\
    ready_quad (rx st2) = ready_quad (rx st) /\
    incoming_count (rx st2) = incoming_count (rx st) /\
    receive_flag (rx st2) = receive_flag (rx st) /\
    transmitted st2 = transmitted st /\
    pool_plentiful ABS (pool st2) /\
    (forall k : nat,
        take (Z.to_nat (incoming_count (rx st)))
             (block_data (incoming_quad (rx st2) !!! k))
        = take (Z.to_nat (incoming_count (rx st)))
               (block_data (incoming_quad (rx st) !!! k))).
Proof.
  intros (Hp & [Hq|(l & r & l2 & r2 & Hq & L1 & L2 & L3 & L4)] & _ & Hc & Hz).
  - specialize (Hz Hq).
    unfold incoming_quad in Hq. injection Hq as H1 H2 H3 H4.
    destruct st as [x t buf setting fb un ov k p tr]. cbn in *.
    unfold initial_chain, acquire. cbn. rewrite H1, H2, H3, H4.
    destruct (allocate_ok p Hp) as (d1 & -> & L1 & Hp1). cbn.
    destruct (allocate_ok _ Hp1) as (d2 & -> & L2 & Hp2). cbn.
    destruct (allocate_ok _ Hp2) as (d3 & -> & L3 & Hp3). cbn.
    destruct (allocate_ok _ Hp3) as (d4 & -> & L4 & Hp4). cbn.
    eexists _, _, _, _, _. split; [reflexivity|]. cbn.
    repeat (split; [done|]).
    intros k'. rewrite Hz. cbn. by rewrite !take_0.
  - exists l, r, l2, r2, st.
    split.
    { unfold incoming_quad in Hq. injection Hq as H1 H2 H3 H4.
      unfold initial_chain, acquire. rewrite H1, H2, H3, H4. done. }
    repeat (split; [done|]). done.
Qed.

(** The replacement chain with a plentiful pool. *)
Lemma receive_send_ok l r l2 r2 st :
  pool_plentiful ABS (pool st) ->
  exists l' r' l2' r2' st',
    receive_send l r l2 r2 st = (Some (l', r', l2', r2'), st') /\
    incoming_quad (rx st') = [Some l'; Some r'; Some l2'; Some r2'] /\
    length (data l') = Z.to_nat ABS /\ length (data r') = Z.to_nat ABS /\
    length (data l2') = Z.to_nat ABS /\ length (data r2') = Z.to_nat ABS /\
    ready_quad (rx st') = [Some l; Some r; Some l2; Some r2] /\
    incoming_count (rx st') = incoming_count (rx st) /\
    receive_flag (rx st') = receive_flag (rx st) /\
    transmitted st' = transmitted st /\
    pool_plentiful ABS (pool st').
Proof.
  intros Hp.
  destruct st as [x t buf setting fb un ov k p tr]. cbn in *.
  unfold receive_send. cbn.
  destruct (allocate_ok p Hp) as (d1 & -> & L1 & Hp1). cbn.
  destruct (allocate_ok _ Hp1) as (d2 & -> & L2 & Hp2). cbn.
  destruct (allocate_ok _ Hp2) as (d3 & -> & L3 & Hp3). cbn.
  destruct (allocate_ok _ Hp3) as (d4 & -> & L4 & Hp4). cbn.
  eexists _, _, _, _, _. split; [reflexivity|]. cbn.
  repeat (split; [done|]). done.
Qed.



Lemma incoming_quad_set_count c x :
  incoming_quad (set_incoming_count c x) = incoming_quad x.
Proof. done. Qed.

Lemma ready_quad_set_count c x :
  ready_quad (set_incoming_count c x) = ready_quad x.
Proof. done. Qed.

Lemma incoming_quad_set_incoming a b c d x :
  incoming_quad (set_incoming a b c d x) = [a; b; c; d].
Proof. done. Qed.

Lemma ready_quad_set_incoming a b c d x :
  ready_quad (set_incoming a b c d x) = ready_quad x.
Proof. done. Qed.

Ltac quads :=
  rewrite ?incoming_quad_set_count, ?ready_quad_set_count,
          ?incoming_quad_set_incoming, ?ready_quad_set_incoming.

Lemma shiftr_bytes (n : Z) : 0 <= n -> Z.shiftr (8 * n) 3 = n.
Proof. intros. rewrite Z.shiftr_div_pow2 by lia. change (2 ^ 3) with 8. lia. Qed.

Lemma not_occupied_quad x :
  ready_occupied x = false -> ready_quad x = [None; None; None; None].
Proof.
  unfold ready_occupied, ready_quad.
  destruct (ready_left x), (ready_right x), (ready_left2 x), (ready_right2 x); done.
Qed.

Lemma spec_channel_length k fs : length (spec_channel k fs) = length fs.
Proof. apply length_fmap. Qed.

Lemma packet_step fs st :
  rx_wf ABS st -> completes_in_time ABS (Packet fs) st ->
  exists st',
    usb_audio_receive_callback ABS (frame_words fs) (8 * Z.of_nat (length fs)) st
      = Done st' /\
    rx_wf ABS st' /\
    forall k, (k < 4)%nat ->
      channel_stream k st' = channel_stream k st ++ spec_channel k fs.
Proof.
  intros Hwf Hc.
  set (n := Z.of_nat (length fs)).
  assert (Hn : 0 <= n) by lia.
  unfold usb_audio_receive_callback. fold n. rewrite (shiftr_bytes n Hn).
  set (st1 := with_rx (set_receive_flag 1 (rx st)) st).
  assert (Hwf1 : rx_wf ABS st1) by exact Hwf.
  destruct (initial_chain_ok st1 Hwf1)
    as (l & r & l2 & r2 & st2 & E & Hq2 & L1 & L2 & L3 & L4 & Hr2 & Hc2 & Hf2 & Ht2 & Hp2 & Htake).
  rewrite E.
  destruct Hwf as (Hp & Hqi & Hqr & Hcnt & Hz).
  change (incoming_count (rx st1)) with (incoming_count (rx st)) in *.
  change (ready_quad (rx st1)) with (ready_quad (rx st)) in *.
  change (transmitted st1) with (transmitted st) in *.
  set (cnt := incoming_count (rx st)) in *.
  assert (Hstream : forall k, channel_stream k st
            = flat_map (sent_on k) (rev (transmitted st))
              ++ block_data (ready_quad (rx st) !!! k)
              ++ take (Z.to_nat cnt) (block_data (incoming_quad (rx st2) !!! k))).
  { intros k. unfold channel_stream. fold cnt. rewrite <- Htake. done. }
  replace (Z.to_nat n + 3)%nat with (S (S (Z.to_nat n + 1))) by lia.
  cbn [receive_loop].
  unfold u32. rewrite (Z.mod_small (ABS - cnt)) by lia.
  destruct (Z.gtb_spec n 0) as [Hpos|Hzero].
  2:{ (* an empty packet *)
    assert (fs = []) as -> by (destruct fs; [done|cbn in n; lia]).
    eexists. split; [reflexivity|].
    unfold u16. rewrite Z.mod_small by lia.
    split.
    - unfold rx_wf. cbn. quads.
      rewrite Hq2, Hr2. split; [done|]. split; [right; eauto 10|].
      split; [done|]. split; [lia|done].
    - intros k Hk. rewrite Hstream. unfold channel_stream. cbn. quads.
      rewrite Ht2, Hr2, !app_nil_r. done. }
  destruct (Z.ltb_spec n (ABS - cnt)) as [Hsmall|Hbig].
  { (* the packet fits in the incoming blocks *)
    rewrite (copy_to_blocks_spec fs 0 0) by (rewrite ?L1, ?L2, ?L3, ?L4; lia).
    rewrite drop_0, take_ge by lia.
    eexists. split; [reflexivity|].
    unfold u16. rewrite Z.mod_small by lia.
    split.
    - unfold rx_wf. cbn. quads.
      rewrite Hr2. split; [done|]. split.
      { right. eexists _, _, _, _. split; [reflexivity|]. cbn.
        rewrite !splice_length by (rewrite spec_channel_length, ?L1, ?L2, ?L3, ?L4; lia).
        done. }
      split; [done|]. split; [lia|done].
    - intros k Hk. rewrite Hstream. unfold channel_stream. cbn. quads. rewrite Ht2, Hr2, Hq2.
      rewrite <- !app_assoc. do 2 f_equal.
      replace (Z.to_nat (cnt + n)) with (Z.to_nat cnt + length (spec_channel k fs))%nat
        by (rewrite spec_channel_length; lia).
      destruct k as [|[|[|[|k]]]]; [| | | |lia]; cbn;
        rewrite take_splice by (rewrite ?L1, ?L2, ?L3, ?L4; lia); done. }
  (* the packet completes the incoming blocks *)
  destruct Hc as [Hc|[Hocc Hc]]; [fold cnt in Hc; fold n in Hc; lia|].
  fold cnt in Hc. fold n in Hc.
  destruct (Z.gtb_spec (ABS - cnt) 0) as [_|?]; [|lia].
  rewrite (copy_to_blocks_spec fs 0 0) by (rewrite ?L1, ?L2, ?L3, ?L4; lia).
  rewrite drop_0. cbv zeta.
  cbn [rx with_rx].
  assert (ready_occupied (set_incoming
            (Some (with_data l (splice (Z.to_nat cnt)
               (spec_channel 0 (take (Z.to_nat (ABS - cnt)) fs)) (data l))))
            (Some (with_data r (splice (Z.to_nat cnt)
               (spec_channel 1 (take (Z.to_nat (ABS - cnt)) fs)) (data r))))
            (Some (with_data l2 (splice (Z.to_nat cnt)
               (spec_channel 2 (take (Z.to_nat (ABS - cnt)) fs)) (data l2))))
            (Some (with_data r2 (splice (Z.to_nat cnt)
               (spec_channel 3 (take (Z.to_nat (ABS - cnt)) fs)) (data r2))))
            (rx st2)) = false) as ->.
  { rewrite <- Hocc. apply ready_quad_occupied. exact Hr2. }
  match goal with
  | |- context [receive_send ?a ?b ?c ?d ?s] =>
      destruct (receive_send_ok a b c d s Hp2)
        as (l' & r' & l2' & r2' & st4 & Es & Hq4 & L1' & L2' & L3' & L4' & Hr4 & Hc4 & Hf4 & Ht4 & Hp4)
  end.
  rewrite Es.
  assert (Hpart : forall k, length (spec_channel k (take (Z.to_nat (ABS - cnt)) fs))
                            = Z.to_nat (ABS - cnt)).
  { intros k. rewrite spec_channel_length, length_take. lia. }
  cbn [receive_loop].
  unfold u32. rewrite (Z.mod_small (ABS - 0)) by lia.
  destruct (Z.gtb_spec (n - (ABS - cnt)) 0) as [Hrest|Hnone].
  - (* and goes on into the fresh ones *)
    destruct (Z.ltb_spec (n - (ABS - cnt)) (ABS - 0)) as [_|?]; [|lia].
    rewrite (copy_to_blocks_spec fs _ (Z.to_nat (ABS - cnt)))
      by (rewrite ?L1', ?L2', ?L3', ?L4'; lia).
    eexists. split; [reflexivity|].
    unfold u16. rewrite Z.mod_small by lia.
    split.
    + unfold rx_wf. cbn. quads.
      rewrite Hr4. split; [done|]. split.
      { right. eexists _, _, _, _. split; [reflexivity|]. cbn.
        rewrite !splice_length
          by (rewrite spec_channel_length, length_take, length_drop, ?L1', ?L2', ?L3', ?L4'; lia).
        done. }
      split.
      { right. eexists _, _, _, _. split; [reflexivity|]. cbn.
        rewrite !splice_length by (rewrite Hpart, ?L1, ?L2, ?L3, ?L4; lia).
        done. }
      split; [lia|done].
    + intros k Hk. rewrite Hstream. unfold channel_stream. cbn. quads. rewrite Ht4, Hr4. cbn. rewrite Ht2.
      rewrite (not_occupied_quad _ Hocc), Hq2.
      assert (Hfs : spec_channel k fs
                    = spec_channel k (take (Z.to_nat (ABS - cnt)) fs)
                      ++ spec_channel k (drop (Z.to_nat (ABS - cnt)) fs)).
      { unfold spec_channel. rewrite <- fmap_app, take_drop. done. }
      rewrite Hfs.
      assert (Hd : take (Z.to_nat (n - (ABS - cnt))) (drop (Z.to_nat (ABS - cnt)) fs)
                   = drop (Z.to_nat (ABS - cnt)) fs)
        by (apply take_ge; rewrite length_drop; lia).
      rewrite Hd.
      replace (Z.to_nat (0 + (n - (ABS - cnt))))
        with (0 + length (spec_channel k (drop (Z.to_nat (ABS - cnt)) fs)))%nat
        by (rewrite spec_channel_length, length_drop; lia).
      rewrite <- !app_assoc. f_equal.
      change (Z.to_nat 0) with 0%nat.
      destruct k as [|[|[|[|k]]]]; [| | | |lia]; cbn -[splice spec_channel Nat.add];
        rewrite take_splice by lia;
        rewrite splice_full by (rewrite Hpart, ?L1, ?L2, ?L3, ?L4; lia);
        cbn; rewrite <- ?app_assoc; done.
  - (* exactly *)
    eexists. split; [reflexivity|].
    unfold u16. rewrite Z.mod_small by lia.
    split.
    + unfold rx_wf. cbn. quads.
      rewrite Hr4, Hq4. split; [done|]. split; [right; eauto 10|].
      split.
      { right. eexists _, _, _, _. split; [reflexivity|]. cbn.
        rewrite !splice_length by (rewrite Hpart, ?L1, ?L2, ?L3, ?L4; lia).
        done. }
      split; [lia|done].
    + intros k Hk. rewrite Hstream. unfold channel_stream. cbn. quads.
      rewrite Ht4, Hr4. cbn. rewrite Ht2.
      rewrite (not_occupied_quad _ Hocc), Hq2.
      assert (Hall : take (Z.to_nat (ABS - cnt)) fs = fs) by (apply take_ge; lia).
      rewrite <- !app_assoc. f_equal.
      change (Z.to_nat 0) with 0%nat. rewrite take_0, app_nil_r.
      destruct k as [|[|[|[|k]]]]; [| | | |lia]; cbn -[splice spec_channel Nat.add];
        rewrite splice_full by (rewrite Hpart, ?L1, ?L2, ?L3, ?L4; lia);
        rewrite Hall; done.
Qed.

Lemma sent_on_quad k l r l2 r2 :
  (k < 4)%nat ->
  flat_map (sent_on k) [(0%nat, l); (1%nat, r); (2%nat, l2); (3%nat, r2)]
  = block_data ([Some l; Some r; Some l2; Some r2] !!! k).
Proof.
  intros Hk. destruct k as [|[|[|[|k]]]]; [| | | |lia]; cbn; by rewrite ?app_nil_r.
Qed.

Ltac wf_tac :=
  split_and!; try assumption; try lia; try (by left);
  try match goal with
      | Hp : pool_plentiful _ _ |- _ => let n := fresh in intros n; apply (Hp n)
      end.

Lemma update_step st :
  rx_wf ABS st ->
  rx_wf ABS (AudioInputUSB_update ABS st) /\
  forall k, (k < 4)%nat ->
    channel_stream k (AudioInputUSB_update ABS st) = channel_stream k st.
Proof.
  intros (Hp & Hqi & Hqr & Hcnt & Hz).
  destruct st as [[il ir il2 ir2 a b c d cnt f] t buf setting fb un ov k0 p tr].
  unfold rx_wf, channel_stream, incoming_quad, ready_quad in *. cbn in *.
  destruct Hqr as [Hq|(l & r & l2 & r2 & Hq & L1 & L2 & L3 & L4)];
    injection Hq as -> -> -> ->; unfold AudioInputUSB_update; cbn;
    destruct (f =? 0); cbn.
  - split; [wf_tac|]. intros k Hk. done.
  - split; [wf_tac|]. intros k Hk. done.
  - split; [wf_tac|]. intros k Hk.
    rewrite <- !app_assoc, !flat_map_app, <- !app_assoc. f_equal.
    destruct k as [|[|[|[|k]]]]; [| | | |lia]; cbn; by rewrite ?app_nil_r.
  - split; [wf_tac|]. intros k Hk.
    rewrite <- !app_assoc, !flat_map_app, <- !app_assoc. f_equal.
    destruct k as [|[|[|[|k]]]]; [| | | |lia]; cbn; by rewrite ?app_nil_r.
Qed.

Lemma run_events_stream evs : forall st,
  rx_wf ABS st -> drained_in_time ABS evs st ->
  exists st',
    run_events ABS evs st = Done st' /\ rx_wf ABS st' /\
    forall k, (k < 4)%nat ->
      channel_stream k st' = channel_stream k st ++ spec_channel k (stream_of evs).
Proof.
  induction evs as [|e evs IH]; intros st Hwf Hd.
  - exists st. split; [done|]. split; [done|]. intros k _. by rewrite app_nil_r.
  - destruct Hd as [Hc Hd]. cbn [run_events drained_in_time].
    destruct e as [fs|].
    + destruct (packet_step fs st Hwf Hc) as (st1 & E & Hwf1 & Hs1).
      cbn [do_event] in *. rewrite E in *.
      destruct (IH st1 Hwf1 Hd) as (st' & E' & Hwf' & Hs').
      exists st'. split; [done|]. split; [done|].
      intros k Hk. rewrite (Hs' k Hk), (Hs1 k Hk).
      cbn [stream_of flat_map]. unfold spec_channel. rewrite fmap_app, app_assoc. done.
    + cbn [do_event] in *.
      destruct (update_step st Hwf) as [Hwf1 Hs1].
      destruct (IH _ Hwf1 Hd) as (st' & E' & Hwf' & Hs').
      exists st'. split; [done|]. split; [done|].
      intros k Hk. rewrite (Hs' k Hk), (Hs1 k Hk). done.
Qed.

Lemma begin_wf st0 :
  pool_plentiful ABS (pool st0) -> rx_wf ABS (AudioInputUSB_begin st0).
Proof.
  intros Hp. unfold rx_wf. cbn. split; [done|]. split; [by left|]. split; [by left|].
  split; [lia|done].
Qed.

(** C7.  USB RX reassembly: two schedules that deliver the same frame
    stream, cut into packets at any boundaries and with the mailbox
    drained before a second block completes, leave in the per-channel
    blocks the same sample sequences, namely the de-interleaved
    stream; the single delivery of the whole stream is one such
    schedule. *)
Theorem usb_rx_reassembly evs1 evs2 st0 :
  pool_plentiful ABS (pool st0) -> transmitted st0 = [] ->
  stream_of evs1 = stream_of evs2 ->
  drained_in_time ABS evs1 (AudioInputUSB_begin st0) ->
  drained_in_time ABS evs2 (AudioInputUSB_begin st0) ->
  exists st1 st2,
    run_events ABS evs1 (AudioInputUSB_begin st0) = Done st1 /\
    run_events ABS evs2 (AudioInputUSB_begin st0) = Done st2 /\
    forall k, (k < 4)%nat ->
      channel_stream k st1 = spec_channel k (stream_of evs1) /\
      channel_stream k st2 = channel_stream k st1.
Proof.
  intros Hp Ht Hs Hd1 Hd2.
  destruct (run_events_stream evs1 _ (begin_wf st0 Hp) Hd1) as (st1 & E1 & _ & H1).
  destruct (run_events_stream evs2 _ (begin_wf st0 Hp) Hd2) as (st2 & E2 & _ & H2).
  exists st1, st2. split; [done|]. split; [done|].
  intros k Hk. rewrite (H1 k Hk), (H2 k Hk), Hs.
  unfold channel_stream. cbn. rewrite Ht. cbn.
  destruct k as [|[|[|[|k]]]]; done.
Qed.
End USB_Properties.

(** * Concrete runs *)

Section ConcreteRuns.

Import USB.
Local Open Scope Z_scope.

(** Each conjunct in turn, by evaluation. *)
Ltac run_each tac :=
  repeat match goal with
         | |- _ /\ _ => split; [tac|]
         end;
  tac.

Lemma block_size_128 : 0 < 128 < 65536.
Proof. lia. Defined.

(** Against C2 as stated.  The mailbox holds blocks 0..3, unread, when
    a packet of 44 samples completes the second set (blocks 4..7): the
    mailbox still holds blocks 0..3 afterwards, nothing is discarded,
    and later packets change neither the mailbox nor the counter.
    When the completing packet ends exactly on the block boundary the
    overrun is not counted at all. *)
Lemma rx_overrun_keeps_first_block :
  exists st6 st8 st6',
    usb_audio_receive_callback 128 (packet 44 5000).1 (packet 44 5000).2
      mailbox_occupied = Done st6 /\
    ready_occupied (rx mailbox_occupied) = true /\
    block_ids (ready_quad (rx mailbox_occupied)) = [0; 1; 2; 3]%nat /\
    incoming_count (rx mailbox_occupied) = 92 /\
    incoming_count (rx st6) = 128 /\
    block_ids (incoming_quad (rx st6)) = [4; 5; 6; 7]%nat /\
    block_ids (ready_quad (rx st6)) = [0; 1; 2; 3]%nat /\
    pool_released (pool st6) = [] /\
    usb_audio_overrun_count st6 = 1 /\
    receive_packets 128 [packet 44 6000; packet 44 7000] st6 = Done st8 /\
    block_ids (ready_quad (rx st8)) = [0; 1; 2; 3]%nat /\
    usb_audio_overrun_count st8 = 1 /\
    receive_packets 128
      [packet 44 0; packet 44 1000; packet 40 2000;
       packet 44 3000; packet 44 4000; packet 40 5000]
      (started plentiful_pool) = Done st6' /\
    incoming_count (rx st6') = 128 /\
    block_ids (ready_quad (rx st6')) = [0; 1; 2; 3]%nat /\
    block_ids (incoming_quad (rx st6')) = [4; 5; 6; 7]%nat /\
    usb_audio_overrun_count st6' = 0.
Proof.
  eexists _, _, _. run_each ltac:(vm_compute; reflexivity).
Qed.

(** Against C3 as stated.  A transmit callback that finds the queue
    empty leaves the underrun counter where it was. *)
Lemma tx_underrun_not_counted :
  exists st',
    left_1st (tx (started plentiful_pool)) = None /\
    usb_audio_transmit_callback 128 (started plentiful_pool) = Done (352, st') /\
    usb_audio_underrun_count st' = usb_audio_underrun_count (started plentiful_pool) /\
    usb_audio_underrun_count st'
      <> u32 (usb_audio_underrun_count (started plentiful_pool) + 1).
Proof.
  eexists. run_each ltac:(vm_compute; (reflexivity || discriminate)).
Qed.

(** The queue running dry in the middle of a packet: the third callback
    after one update copies the last 40 samples of the block and then
    finds the queue empty.  The sixteen elements that should hold
    silence keep the data of the previous packet, and sixteen elements
    of the samples just copied are zeroed instead. *)
Lemma tx_starved_mid_packet :
  exists st1 st2 st3,
    usb_audio_transmit_callback 128 streaming = Done (352, st1) /\
    usb_audio_transmit_callback 128 st1 = Done (352, st2) /\
    usb_audio_transmit_callback 128 st2 = Done (352, st3) /\
    offset_1st (tx st2) = 88 /\
    left_1st (tx st3) = None /\
    take 16 (drop 160 (usb_audio_transmit_buffer st3))
      = take 16 (drop 160 (usb_audio_transmit_buffer st2)) /\
    take 16 (drop 160 (usb_audio_transmit_buffer st3))
      = (fun i => 337 + Z.of_nat i) <$> seq 0 16 /\
    take 16 (drop 80 (usb_audio_transmit_buffer st3)) = replicate 16 0 /\
    usb_audio_underrun_count st3 = usb_audio_underrun_count streaming.
Proof.
  eexists _, _, _. run_each ltac:(vm_compute; reflexivity).
Qed.


(** Against C8 as stated.  Two consecutive update cycles observe the
    underrun signal, after a packet of 44 and after one of 45 samples:
    the accumulator goes up by 3520 and then by 3475, so no fixed
    per-cycle delta accounts for both runs. *)
Lemma feedback_delta_not_fixed :
  sustained_underrun 128 starved_cycles (started plentiful_pool) /\
  ~ exists delta,
      (exists st1,
          update_cycles 128 (take 1 starved_cycles) (started plentiful_pool) = Done st1 /\
          feedback_accumulator st1
          = feedback_accumulator (started plentiful_pool) + 1 * delta) /\
      (exists st2,
          update_cycles 128 starved_cycles (started plentiful_pool) = Done st2 /\
          feedback_accumulator st2
          = feedback_accumulator (started plentiful_pool) + 2 * delta).
Proof.
  split.
  - vm_compute. repeat split; discriminate.
  - assert (V0 : feedback_accumulator (started plentiful_pool) = 739875226)
      by reflexivity.
    assert (V1 : feedback_accumulator
                   (state_of (update_cycles 128 (take 1 starved_cycles)
                                (started plentiful_pool))) = 739875226 + 3520)
      by (vm_compute; reflexivity).
    assert (V2 : feedback_accumulator
                   (state_of (update_cycles 128 starved_cycles
                                (started plentiful_pool))) = 739875226 + 3520 + 3475)
      by (vm_compute; reflexivity).
    intros (delta & (st1 & E1 & H1) & (st2 & E2 & H2)).
    rewrite E1 in V1. rewrite E2 in V2. cbn [state_of] in V1, V2.
    rewrite V1, V0 in H1. rewrite V2, V0 in H2. lia.
Qed.

Lemma streaming_reachable : tx_reachable 128 streaming.
Proof.
  unfold streaming, started.
  eapply tx_step; [eapply tx_step; [apply tx_init|apply step_setting]|].
  apply step_tx_update.
Defined.

Lemma plentiful_pool_plentiful : pool_plentiful 128 plentiful_pool.
Proof. intros n. exists (replicate 128 0). split; reflexivity. Defined.

Lemma tx_underrun_zero_fill_witness :
  left_1st (tx (started plentiful_pool)) = None /\
  let st := started plentiful_pool in
  let target := if u32 (count st + 1) <? 10 then 44 else 45 in
  exists st',
    usb_audio_transmit_callback 128 st = Done (target * 8, st') /\
    (forall q : nat,
        usb_audio_transmit_buffer st' !! q
        = if decide (q < Z.to_nat (target * 4))%nat
          then (fun _ => 0) <$> usb_audio_transmit_buffer st !! q
          else usb_audio_transmit_buffer st !! q) /\
    usb_audio_underrun_count st' = usb_audio_underrun_count st /\
    tx st' = tx st.
Proof.
  split; [reflexivity|].
  apply (tx_underrun_zero_fill 128 (started plentiful_pool)). reflexivity.
Defined.

Lemma tx_head_offset_invariant_witness :
  (0 < 128 < 65536 /\ tx_reachable 128 streaming) /\
  0 <= offset_1st (tx streaming) < 128 /\
  forall target len l r l2 r2,
    0 <= len < target -> target <= 45 ->
    left_1st (tx streaming) = Some l -> right_1st (tx streaming) = Some r ->
    left2_1st (tx streaming) = Some l2 -> right2_1st (tx streaming) = Some r2 ->
    let offset := offset_1st (tx streaming) in
    let t := tx streaming in
    if 128 - offset <=? target - len then
      exists st', transmit_iter 128 target len streaming
                  = Next (len + (128 - offset)) st' /\
        tx st' = Tx (left_2nd t) None (right_2nd t) None
                    (left2_2nd t) None (right2_2nd t) None 0 /\
        pool_released (pool st')
          = blk_id r2 :: blk_id l2 :: blk_id r :: blk_id l
              :: pool_released (pool streaming)
    else
      exists st', transmit_iter 128 target len streaming = Next target st' /\
        tx st' = set_offset_1st (offset + (target - len)) t /\
        offset + (target - len) < 128 /\
        pool st' = pool streaming.
Proof.
  split; [split; [exact block_size_128|exact streaming_reachable]|].
  apply (tx_head_offset_invariant 128 block_size_128 streaming streaming_reachable).
Defined.

Lemma tx_queue_group_consistent_witness :
  (0 < 128 < 65536 /\ tx_reachable 128 streaming) /\
  tx_group_consistent (tx streaming) /\
  exists n st', usb_audio_transmit_callback 128 streaming = Done (n, st').
Proof.
  split; [split; [exact block_size_128|exact streaming_reachable]|].
  apply (tx_queue_group_consistent 128 block_size_128 streaming streaming_reachable).
Defined.

Lemma mailbox_occupied_incoming :
  incoming_quad (rx mailbox_occupied)
  = [Some (block_of (incoming_left (rx mailbox_occupied)));
     Some (block_of (incoming_right (rx mailbox_occupied)));
     Some (block_of (incoming_left2 (rx mailbox_occupied)));
     Some (block_of (incoming_right2 (rx mailbox_occupied)))].
Proof. vm_compute. reflexivity. Defined.

Lemma mailbox_occupied_inv : rx_inv 128 mailbox_occupied.
Proof.
  unfold rx_inv.
  assert (incoming_count (rx mailbox_occupied) = 92) as -> by (vm_compute; reflexivity).
  lia.
Defined.

Lemma rx_overrun_policy_witness :
  (0 < 128 < 65536 /\
   ready_occupied (rx mailbox_occupied) = true /\
   rx_inv 128 mailbox_occupied) /\
  forall pkts, Forall (fun p : list Z * Z => 0 <= p.2) pkts ->
    exists st',
      receive_packets 128 pkts mailbox_occupied = Done st' /\
      ready_quad (rx st') = ready_quad (rx mailbox_occupied) /\
      pool st' = pool mailbox_occupied /\
      (usb_audio_overrun_count st' = usb_audio_overrun_count mailbox_occupied \/
       usb_audio_overrun_count st' = u32 (usb_audio_overrun_count mailbox_occupied + 1)).
Proof.
  assert (Hocc : ready_occupied (rx mailbox_occupied) = true)
    by (vm_compute; reflexivity).
  split; [split; [exact block_size_128|split; [exact Hocc|exact mailbox_occupied_inv]]|].
  exact (proj2 (rx_overrun_policy 128 block_size_128 mailbox_occupied _ _ _ _
                  mailbox_occupied_incoming Hocc mailbox_occupied_inv)).
Defined.

Lemma started_inv : rx_inv 128 (started plentiful_pool).
Proof. unfold rx_inv. cbn. lia. Defined.

Lemma starved_cycles_underrun :
  sustained_underrun 128 starved_cycles (started plentiful_pool).
Proof. vm_compute. repeat split; discriminate. Defined.

Lemma feedback_underrun_drift_witness :
  (0 < 128 < 65536 /\
   rx_inv 128 (started plentiful_pool) /\
   sustained_underrun 128 starved_cycles (started plentiful_pool) /\
   0 <= feedback_accumulator (started plentiful_pool) < 4294967296) /\
  let st := started plentiful_pool in
  let ds := cycle_deltas 128 starved_cycles st in
  exists st',
    update_cycles 128 starved_cycles st = Done st' /\
    length ds = length starved_cycles /\
    Forall (fun d => 3500 + 128 ÷ 2 - 128 <= d <= 3500 + 128 ÷ 2) ds /\
    feedback_accumulator st' = u32 (feedback_accumulator st + foldr Z.add 0 ds) /\
    (128 - 128 ÷ 2 < 3500 ->
     feedback_accumulator st + foldr Z.add 0 ds < 4294967296 ->
     feedback_accumulator st' = feedback_accumulator st + foldr Z.add 0 ds /\
     (starved_cycles <> [] -> feedback_accumulator st < feedback_accumulator st')).
Proof.
  assert (Hfb : 0 <= feedback_accumulator (started plentiful_pool) < 4294967296)
    by (cbn; lia).
  split.
  - split; [exact block_size_128|]. split; [exact started_inv|].
    split; [exact starved_cycles_underrun|exact Hfb].
  - apply (feedback_underrun_drift 128 block_size_128 starved_cycles
             (started plentiful_pool) started_inv starved_cycles_underrun Hfb).
Defined.

Ltac drained :=
  vm_compute;
  repeat match goal with
         | |- _ /\ _ => split
         | |- _ \/ _ => (left; reflexivity) || (right; split; reflexivity)
         | |- True => exact I
         end.

Lemma schedule_packets_drained :
  drained_in_time 128 schedule_packets (AudioInputUSB_begin (power_on plentiful_pool)).
Proof. drained. Defined.

Lemma schedule_monolithic_drained :
  drained_in_time 128 schedule_monolithic (AudioInputUSB_begin (power_on plentiful_pool)).
Proof. drained. Defined.

Lemma usb_rx_reassembly_witness :
  (0 < 128 < 65536 /\
   pool_plentiful 128 (pool (power_on plentiful_pool)) /\
   transmitted (power_on plentiful_pool) = [] /\
   stream_of schedule_packets = stream_of schedule_monolithic /\
   drained_in_time 128 schedule_packets (AudioInputUSB_begin (power_on plentiful_pool)) /\
   drained_in_time 128 schedule_monolithic
     (AudioInputUSB_begin (power_on plentiful_pool))) /\
  exists st1 st2,
    run_events 128 schedule_packets (AudioInputUSB_begin (power_on plentiful_pool))
      = Done st1 /\
    run_events 128 schedule_monolithic (AudioInputUSB_begin (power_on plentiful_pool))
      = Done st2 /\
    forall k, (k < 4)%nat ->
      channel_stream k st1 = spec_channel k (stream_of schedule_packets) /\
      channel_stream k st2 = channel_stream k st1.
Proof.
  assert (Hs : stream_of schedule_packets = stream_of schedule_monolithic)
    by (vm_compute; reflexivity).
  split.
  - split; [exact block_size_128|]. split; [exact plentiful_pool_plentiful|].
    split; [reflexivity|]. split; [exact Hs|].
    split; [exact schedule_packets_drained|exact schedule_monolithic_drained].
  - apply (usb_rx_reassembly 128 block_size_128 schedule_packets schedule_monolithic
             (power_on plentiful_pool) plentiful_pool_plentiful eq_refl Hs
             schedule_packets_drained schedule_monolithic_drained).
Defined.

End ConcreteRuns.

(** * Further properties of the TDM transmit engine *)

Section TDM_More.

Import TDM.

Variable AUDIO_BLOCK_SAMPLES : nat.
Local Abbreviation ABS := AUDIO_BLOCK_SAMPLES.

Lemma memcpy_loop_outside n : forall dest s src1 src2 buf (q : nat),
  (q < dest \/ q mod 8 <> dest mod 8 \/ dest + 32 * n <= q) ->
  memcpy_tdm_tx_loop n dest s src1 src2 buf !! q = buf !! q.
Proof.
  induction n as [|n IH]; intros dest s src1 src2 buf q Hq;
    cbn [memcpy_tdm_tx_loop]; [done|].
  rewrite IH by lia.
  rewrite !list_lookup_insert_ne by lia. done.
Qed.

Lemma isr_copy_outside n : forall base i dest st buf (q : nat),
  base <= dest -> dest + n <= base + 8 ->
  (q < base \/ base + 32 * (ABS / 4) <= q) ->
  isr_copy_loop ABS n i dest st buf !! q = buf !! q.
Proof.
  induction n as [|n IH]; intros base i dest st buf q Hb Hn Hq;
    cbn [isr_copy_loop]; [done|].
  rewrite (IH base) by lia.
  apply memcpy_loop_outside.
  destruct (decide (q mod 8 = dest mod 8)); lia.
Qed.

Lemma isr_pre_buffer upd st : tdm_tx_buffer (isr_pre upd st) = tdm_tx_buffer st.
Proof.
  unfold isr_pre, update_all. destruct (update_responsibility st); [|done].
  destruct upd as [rx|]; [|done]. apply (update_fields rx st).
Qed.

(** X1.  Double buffering: isr() writes nothing into the half of
    tdm_tx_buffer the DMA engine is reading.  Every word of the half
    that the source address [saddr] points into is the same after the
    ISR as before, whatever the channel slots hold and whether or not
    the update pass runs inside the ISR. *)
Theorem tdm_isr_spares_dma_half upd saddr st (q : nat) :
  dma_half ABS saddr q ->
  tdm_tx_buffer (isr ABS upd saddr st) !! q = tdm_tx_buffer st !! q.
Proof.
  unfold dma_half. intros Hq. unfold isr.
  destruct (isr_body_fields ABS saddr (isr_pre upd st)) as (_ & _ & ->).
  rewrite (isr_copy_outside 8 (isr_dest ABS saddr)), isr_pre_buffer; [done|lia|lia|].
  unfold isr_dest. destruct (_ <? _)%Z; lia.
Qed.

Lemma isr_free_half_words upd saddr st (q : nat) :
  reachable ABS st -> ABS mod 4 = 0 -> q < ABS * 8 ->
  let st' := isr_pre upd st in
  let inA := channel_src st' (2 * (q mod 8)) !!! (q / 16) in
  let inB := channel_src st' (2 * (q mod 8) + 1) !!! (q / 16) in
  tdm_tx_buffer (isr ABS upd saddr st) !! (isr_dest ABS saddr + q)
  = Some (if Nat.even (q / 8) then tdm_out1 inA inB else tdm_out2 inA inB).
Proof.
  intros Hr Hm Hq st' inA inB.
  destruct (isr_fill_words ABS upd saddr st (q mod 8) (q / 16) Hr Hm) as [H1 H2];
    [lia|lia|].
  fold st' in H1, H2. fold inA in H1, H2. fold inB in H1, H2.
  destruct (Nat.even (q / 8)) eqn:E.
  - apply Nat.even_spec in E. destruct E as [m Hm'].
    replace (isr_dest ABS saddr + q)
      with (isr_dest ABS saddr + q mod 8 + 16 * (q / 16)) by lia.
    exact H1.
  - assert (Ho : Nat.odd (q / 8) = true) by (rewrite <- Nat.negb_even, E; done).
    apply Nat.odd_spec in Ho. destruct Ho as [m Hm'].
    replace (isr_dest ABS saddr + q)
      with (isr_dest ABS saddr + q mod 8 + 16 * (q / 16) + 8) by lia.
    exact H2.
Qed.

Lemma isr_all_null_zero upd saddr st (q : nat) :
  reachable ABS st -> ABS mod 4 = 0 -> q < ABS * 8 ->
  block_input (isr_pre upd st) = replicate 16 None ->
  tdm_tx_buffer (isr ABS upd saddr st) !! (isr_dest ABS saddr + q) = Some 0%Z.
Proof.
  intros Hr Hm Hq Hnull.
  rewrite (isr_free_half_words upd saddr st q Hr Hm Hq).
  assert (Hinv : tdm_inv ABS (isr_pre upd st)) by (apply isr_pre_inv, reachable_inv, Hr).
  assert (Hz : forall c, channel_src (isr_pre upd st) c !!! (q / 16) = 0%Z).
  { intros c. unfold channel_src. rewrite Hnull.
    assert (replicate 16 (@None audio_block_t) !!! c = None) as ->.
    { rewrite list_lookup_total_alt.
      destruct (replicate 16 (@None audio_block_t) !! c) as [o|] eqn:E; [|done].
      apply lookup_replicate in E. by destruct E as [-> _]. }
    destruct Hinv as (_ & -> & _). apply lookup_total_replicate_2. lia. }
  rewrite !Hz. by destruct (Nat.even (q / 8)).
Qed.

Lemma update_resp rx st : update_responsibility (update rx st) = update_responsibility st.
Proof. apply (update_fields rx st). Qed.

Lemma isr_body_resp saddr st :
  update_responsibility (isr_body ABS saddr st) = update_responsibility st.
Proof.
  unfold isr_body. destruct (isr_release_loop 16 0 (block_input st) (pool st)). done.
Qed.

(** X2.  No block is played twice: when a second ISR runs with no
    update pass since the first (this object does not hold the update
    responsibility, or the pass does not reach it), every word of the
    half it fills is zero.  The first ISR released all sixteen slots,
    so the second finds only the silence buffer. *)
Theorem tdm_isr_no_replay upd saddr upd' saddr' st (q : nat) :
  reachable ABS st -> ABS mod 4 = 0 -> q < ABS * 8 ->
  update_responsibility st = false \/ upd' = None ->
  tdm_tx_buffer (isr ABS upd' saddr' (isr ABS upd saddr st)) !! (isr_dest ABS saddr' + q)
  = Some 0%Z.
Proof.
  intros Hr Hm Hq Hno.
  assert (Hr1 : reachable ABS (isr ABS upd saddr st)) by (by apply reach_isr).
  apply isr_all_null_zero; try done.
  assert (Hpre : isr_pre upd' (isr ABS upd saddr st) = isr ABS upd saddr st).
  { unfold isr_pre at 1. unfold isr at 1. rewrite isr_body_resp.
    destruct Hno as [E | ->].
    - assert (update_responsibility (isr_pre upd st) = false) as ->; [|done].
      unfold isr_pre. rewrite E. done.
    - by destruct (update_responsibility _). }
  rewrite Hpre. unfold isr.
  assert (Hinv : tdm_inv ABS (isr_pre upd st)) by (apply isr_pre_inv, reachable_inv, Hr).
  apply (isr_body_slots ABS saddr (isr_pre upd st)). apply Hinv.
Qed.

Lemma do_op_balance o st :
  length (block_input st) = 16 ->
  length (block_input (do_op ABS o st)) = 16 /\
  update_responsibility (do_op ABS o st) = update_responsibility st /\
  held (do_op ABS o st) ++ pool_released (pool (do_op ABS o st))
    ≡ₚ op_deposited (update_responsibility st) o ++ held st ++ pool_released (pool st).
Proof.
  intros Hlen. destruct o as [rx|upd saddr]; cbn [do_op op_deposited].
  - destruct (update_slots rx st Hlen) as [Hb Hr].
    split; [by rewrite Hb, length_fmap, length_seq|]. split; [apply update_resp|].
    rewrite Hr. unfold held at 1, ids. rewrite Hb, omap_id_fmap. done.
  - unfold isr.
    assert (Hpre : length (block_input (isr_pre upd st)) = 16 /\
              update_responsibility (isr_pre upd st) = update_responsibility st /\
              held (isr_pre upd st) ++ pool_released (pool (isr_pre upd st))
              ≡ₚ op_deposited (update_responsibility st) (OpIsr upd saddr)
                 ++ held st ++ pool_released (pool st)).
    { unfold isr_pre, update_all. cbn [op_deposited].
      destruct (update_responsibility st) eqn:E; [|by destruct upd].
      destruct upd as [rx|]; [|done].
      destruct (update_slots rx st Hlen) as [Hb Hr].
      split; [by rewrite Hb, length_fmap, length_seq|]. split; [by rewrite update_resp|].
      rewrite Hr. unfold held at 1, ids. rewrite Hb, omap_id_fmap. done. }
    destruct Hpre as (Hl & He & Hp).
    destruct (isr_body_slots ABS saddr (isr_pre upd st) Hl) as [Hb Hr].
    split; [by rewrite Hb, length_replicate|]. split; [by rewrite isr_body_resp|].
    rewrite Hr. unfold held at 1. rewrite Hb, ids_replicate_None. cbn [app].
    exact Hp.
Qed.

Lemma run_ops_balance ops : forall st,
  length (block_input st) = 16 ->
  held (run_ops ABS ops st) ++ pool_released (pool (run_ops ABS ops st))
    ≡ₚ mjoin (op_deposited (update_responsibility st) <$> ops)
       ++ held st ++ pool_released (pool st).
Proof.
  induction ops as [|o ops IH]; intros st Hlen; cbn [run_ops].
  - done.
  - destruct (do_op_balance o st Hlen) as (Hl & He & Hp).
    etransitivity; [apply (IH _ Hl)|].
    rewrite He, mjoin_fmap_cons.
    etransitivity; [apply Permutation_app_head; exact Hp|].
    rewrite !app_assoc. apply Permutation_app_tail, Permutation_app_tail.
    apply Permutation_app_comm.
Qed.

(** X3.  Block ownership under any interleaving: after begin() and any
    sequence of update() and isr() calls, in any order and with or
    without the update responsibility, the blocks held in the sixteen
    slots together with the blocks released so far are exactly the
    blocks taken over from the inputs (and what had been released
    before begin()).  Nothing is released twice, nothing is lost; an
    update() that overwrites an occupied slot releases the block it
    displaces. *)
Theorem tdm_ownership_any_interleaving ops b st0 :
  let st := run_ops ABS ops (begin ABS b st0) in
  held st ++ pool_released (pool st)
    ≡ₚ mjoin (op_deposited b <$> ops) ++ pool_released (pool st0).
Proof.
  intros st. unfold st.
  etransitivity; [apply run_ops_balance; done|]. done.
Qed.

End TDM_More.

Section TDM_More_Runs.

Import TDM.

Lemma tdm_isr_spares_dma_half_witness :
  dma_half 128 0 5 /\
  tdm_tx_buffer (isr 128 None 0 ramp_state) !! 5 = tdm_tx_buffer ramp_state !! 5.
Proof.
  assert (H : dma_half 128 0 5) by (vm_compute; lia).
  split; [exact H|].
  apply (tdm_isr_spares_dma_half 128 None 0%Z ramp_state 5 H).
Defined.

Lemma tdm_isr_no_replay_witness :
  (reachable 128 ramp_state /\ 128 mod 4 = 0 /\ 7 < 128 * 8 /\
   (update_responsibility ramp_state = false \/ @None (nat -> option audio_block_t) = None)) /\
  tdm_tx_buffer (isr 128 None 4096 (isr 128 None 0 ramp_state))
    !! (isr_dest 128 4096 + 7) = Some 0%Z.
Proof.
  assert (Hr : reachable 128 ramp_state) by apply reach_update, reach_begin.
  assert (Hq : 7 < 128 * 8) by lia.
  split.
  - split; [exact Hr|]. split; [reflexivity|]. split; [exact Hq|]. by left.
  - apply (tdm_isr_no_replay 128 None 0%Z None 4096%Z ramp_state 7 Hr eq_refl Hq).
    by left.
Defined.

End TDM_More_Runs.

(** * Further properties of the USB audio paths

    ** Block ownership along any trace of calls *)

Section USB_Ownership.

Import USB.

Local Open Scope Z_scope.

Variable AUDIO_BLOCK_SAMPLES : Z.
Local Abbreviation ABS := AUDIO_BLOCK_SAMPLES.
Hypothesis ABS_range : 0 < ABS < 65536.

Local Abbreviation occ x l := (count_occ Nat.eq_dec l x).

Lemma occ_perm (l1 l2 : list nat) : (forall x, occ x l1 = occ x l2) -> l1 ≡ₚ l2.
Proof. apply Permutation_count_occ. Qed.

Lemma perm_occ (l1 l2 : list nat) x : l1 ≡ₚ l2 -> occ x l1 = occ x l2.
Proof. intros H. by apply (Permutation_count_occ Nat.eq_dec). Qed.

Lemma block_ids_cons o l : block_ids (o :: l) = block_ids [o] ++ block_ids l.
Proof. by destruct o. Qed.

Lemma block_ids_None : block_ids [None] = [].
Proof. done. Qed.

Lemma block_ids_Some b : block_ids [Some b] = [blk_id b].
Proof. done. Qed.

Lemma block_ids_nil : block_ids [] = [].
Proof. done. Qed.

Ltac ids_norm :=
  rewrite ?(block_ids_cons _ (_ :: _)), ?block_ids_None, ?block_ids_Some, ?block_ids_nil.

Lemma occ_cons x a (l : list nat) : occ x (a :: l) = (occ x [a] + occ x l)%nat.
Proof. cbn. by destruct (Nat.eq_dec a x). Qed.

Lemma occ_nil x : occ x [] = 0%nat.
Proof. done. Qed.

Ltac occ_norm :=
  ids_norm; cbn [blk_id];
  repeat first
    [ rewrite count_occ_app
    | match goal with
      | |- context [count_occ _ (?a :: ?l) ?x] =>
          lazymatch l with
          | [] => fail
          | _ => rewrite (occ_cons x a l)
          end
      end ];
  rewrite ?occ_nil.

Ltac occ_solve := apply occ_perm; intros ?x; occ_norm; lia.

Lemma allocated_count_call p :
  allocated (count_call p)
  = allocated p ++ (match pool_oracle p (pool_calls p) with Some _ => [pool_calls p] | None => [] end).
Proof.
  unfold allocated, count_call. cbn [pool_oracle pool_calls].
  rewrite seq_S, filter_app. cbn [Nat.add]. f_equal.
  destruct (pool_oracle p (pool_calls p)) eqn:E.
  - rewrite filter_cons_True by (rewrite E; done). done.
  - rewrite filter_cons_False by (rewrite E; intros [? ?]; done). done.
Qed.

(** allocate, as the two ways it can go *)
Lemma allocate_cases p :
  (exists d, allocate p = (Some (Block (pool_calls p) d), count_call p) /\
             allocated (count_call p) = allocated p ++ [pool_calls p]) \/
  (allocate p = (None, count_call p) /\ allocated (count_call p) = allocated p).
Proof.
  rewrite allocated_count_call. unfold allocate.
  destruct (pool_oracle p (pool_calls p)) as [d|].
  - left. by exists d.
  - right. by rewrite app_nil_r.
Qed.

Lemma balanced_refl st : balanced st st [].
Proof. split_and!; [done|lia|]. occ_solve. Qed.

Lemma balanced_trans st1 st2 st3 d1 d2 :
  balanced st1 st2 d1 -> balanced st2 st3 d2 -> balanced st1 st3 (d1 ++ d2).
Proof.
  intros (Ho1 & Hc1 & Hp1) (Ho2 & Hc2 & Hp2).
  split_and!; [congruence|lia|].
  apply occ_perm. intros x.
  apply (perm_occ _ _ x) in Hp1, Hp2. revert Hp1 Hp2. occ_norm. lia.
Qed.

Lemma rx_update_shape st :
  let st' := AudioInputUSB_update ABS st in
  tx st' = tx st /\
  incoming_quad (rx st') = incoming_quad (rx st) /\
  ready_quad (rx st') = [None; None; None; None] /\
  pool_oracle (pool st') = pool_oracle (pool st) /\
  pool_calls (pool st') = pool_calls (pool st) /\
  pool_released (pool st')
  = block_ids [ready_right2 (rx st)] ++ block_ids [ready_left2 (rx st)] ++
    block_ids [ready_right (rx st)] ++ block_ids [ready_left (rx st)] ++
    pool_released (pool st).
Proof.
  unfold AudioInputUSB_update.
  destruct (ready_left (rx st)), (ready_right (rx st)), (ready_left2 (rx st)),
    (ready_right2 (rx st)), (receive_flag (rx st) =? 0); cbn; done.
Qed.

Lemma rx_update_balanced st : balanced st (AudioInputUSB_update ABS st) [].
Proof.
  destruct (rx_update_shape st) as (Ht & Hi & Hr & Ho & Hc & Hp).
  split_and!; [done|lia|].
  unfold usb_held, allocated. rewrite Ht, Hi, Hr, Ho, Hc, Hp.
  unfold ready_quad. occ_solve.
Qed.

Ltac alloc_cases :=
  repeat match goal with
         | |- context [allocate ?p] =>
             let d := fresh "d" in
             let Ha := fresh "Ha" in
             let Hl := fresh "Hl" in
             destruct (allocate_cases p) as [(d & Ha & Hl) | (Ha & Hl)];
             rewrite Ha; clear Ha; cbn -[allocated count_call allocate];
             cbn -[allocated count_call] in Hl
         end.

Lemma allocated_release b p : allocated (release b p) = allocated p.
Proof. done. Qed.

Lemma allocated_release_opt o p : allocated (release_opt o p) = allocated p.
Proof. by destruct o. Qed.

Ltac held_solve :=
  unfold usb_held, incoming_quad, ready_quad, first_quad, second_quad;
  cbn -[allocated count_call block_ids release release_opt];
  rewrite ?allocated_release, ?allocated_release_opt;
  repeat match goal with
         | H : allocated (count_call _) = _ |- _ => rewrite H; clear H
         end;
  cbn -[allocated block_ids]; occ_solve.

Ltac balanced_solve :=
  split_and!; [ reflexivity | cbn; lia | held_solve ].

Lemma initial_chain_balanced st :
  balanced st (snd (initial_chain st)) [] /\
  tx (snd (initial_chain st)) = tx st /\
  ready_quad (rx (snd (initial_chain st))) = ready_quad (rx st) /\
  match fst (initial_chain st) with
  | Some (l, r, l2, r2) =>
      incoming_quad (rx (snd (initial_chain st))) = [Some l; Some r; Some l2; Some r2]
  | None => True
  end.
Proof.
  unfold initial_chain, acquire.
  destruct st as [x t b s f u o c p tr]. destruct x as [a1 a2 a3 a4 r1 r2 r3 r4 ic rf].
  destruct a1, a2, a3, a4; cbn -[allocated count_call allocate];
    alloc_cases; (split; [balanced_solve | done]).
Qed.

Lemma receive_send_balanced l r l2 r2 st :
  ready_quad (rx st) = [None; None; None; None] ->
  incoming_quad (rx st) = [Some l; Some r; Some l2; Some r2] ->
  balanced st (snd (receive_send l r l2 r2 st)) [] /\
  tx (snd (receive_send l r l2 r2 st)) = tx st /\
  match fst (receive_send l r l2 r2 st) with
  | Some (l', r', l2', r2') =>
      incoming_quad (rx (snd (receive_send l r l2 r2 st)))
      = [Some l'; Some r'; Some l2'; Some r2'] /\
      ready_occupied (rx (snd (receive_send l r l2 r2 st))) = true
  | None => True
  end.
Proof.
  destruct st as [x t b s f u o c p tr]. destruct x as [a1 a2 a3 a4 r1 r2' r3 r4 ic rf].
  unfold incoming_quad, ready_quad. cbn [rx incoming_left incoming_right incoming_left2
    incoming_right2 ready_left ready_right ready_left2 ready_right2].
  intros [= -> -> -> ->] [= -> -> -> ->].
  unfold receive_send. cbn -[allocated count_call allocate].
  alloc_cases; (split; [balanced_solve | done]).
Qed.

Lemma set_count_balanced c st :
  balanced st (with_rx (set_incoming_count c (rx st)) st) [].
Proof. balanced_solve. Qed.

Lemma set_overrun_balanced v st : balanced st (with_overrun v st) [].
Proof. balanced_solve. Qed.

Lemma copy_balanced l r l2 r2 a b c d st :
  incoming_quad (rx st) = [Some l; Some r; Some l2; Some r2] ->
  blk_id a = blk_id l -> blk_id b = blk_id r ->
  blk_id c = blk_id l2 -> blk_id d = blk_id r2 ->
  balanced st (with_rx (set_incoming (Some a) (Some b) (Some c) (Some d) (rx st)) st) [].
Proof.
  intros Hq Ha Hb Hc Hd. split_and!; [done|cbn; lia|].
  unfold usb_held. rewrite Hq. unfold incoming_quad, ready_quad. cbn -[allocated block_ids].
  apply occ_perm; intros x; occ_norm. rewrite Ha, Hb, Hc, Hd. lia.
Qed.

Lemma receive_loop_balanced fuel : forall buf len dptr cnt l r l2 r2 st st',
  incoming_quad (rx st) = [Some l; Some r; Some l2; Some r2] ->
  receive_loop ABS fuel buf len dptr cnt l r l2 r2 st = Done st' ->
  balanced st st' [] /\ tx st' = tx st.
Proof.
  induction fuel as [|fuel IH]; intros buf len dptr cnt l r l2 r2 st st' Hq H;
    cbn [receive_loop] in H; [done|].
  destruct (len >? 0).
  2: { injection H as <-. split; [apply set_count_balanced|done]. }
  destruct (len <? u32 (ABS - cnt)).
  { destruct (copy_to_blocks _ _ _ _ _ _ _ _) as [[[a b] c] d] eqn:Hc.
    apply copy_to_blocks_ids in Hc. destruct Hc as (Ha & Hb & Hc & Hd).
    injection H as <-. split; [|done].
    change [] with (@nil nat ++ []).
    eapply balanced_trans; [apply (copy_balanced l r l2 r2 a b c d st); done|].
    exact (set_count_balanced (u16 (cnt + len))
             (with_rx (set_incoming (Some a) (Some b) (Some c) (Some d) (rx st)) st)). }
  destruct (u32 (ABS - cnt) >? 0).
  - destruct (copy_to_blocks _ _ _ _ _ _ _ _) as [[[a b] c] d] eqn:Hc.
    apply copy_to_blocks_ids in Hc. destruct Hc as (Ha & Hb & Hc & Hd).
    pose proof (copy_balanced l r l2 r2 a b c d st Hq Ha Hb Hc Hd) as Hcopy.
    set (st1 := with_rx (set_incoming (Some a) (Some b) (Some c) (Some d) (rx st)) st)
      in *.
    assert (Hq1 : incoming_quad (rx st1) = [Some a; Some b; Some c; Some d]) by done.
    assert (Ht1 : tx st1 = tx st) by done.
    destruct (ready_occupied (rx st1)) eqn:Hocc.
    + injection H as <-. split.
      * change [] with (@nil nat ++ []).
        eapply balanced_trans; [exact Hcopy|].
        change [] with (@nil nat ++ []).
        eapply balanced_trans; [apply set_count_balanced|].
        destruct (_ >? 0); [apply set_overrun_balanced|apply balanced_refl].
      * by destruct (_ >? 0).
    + apply not_occupied_quad in Hocc.
      destruct (receive_send_balanced a b c d st1 Hocc Hq1) as (Hb1 & Ht & Hs).
      destruct (receive_send a b c d st1) as [[[[[l' r'] l2'] r2']|] st2] eqn:Hrs;
        cbn [fst snd] in *.
      * destruct Hs as [Hq2 _].
        destruct (IH _ _ _ _ _ _ _ _ _ _ Hq2 H) as [Hb2 Ht2].
        split; [|congruence].
        change [] with (@nil nat ++ []).
        eapply balanced_trans; [exact Hcopy|].
        change [] with (@nil nat ++ []).
        eapply balanced_trans; [exact Hb1|exact Hb2].
      * injection H as <-. split; [|congruence].
        change [] with (@nil nat ++ []).
        eapply balanced_trans; [exact Hcopy|exact Hb1].
  - destruct (ready_occupied (rx st)) eqn:Hocc.
    + injection H as <-. split; [apply balanced_refl|done].
    + apply not_occupied_quad in Hocc.
      destruct (receive_send_balanced l r l2 r2 st Hocc Hq) as (Hb1 & Ht & Hs).
      destruct (receive_send l r l2 r2 st) as [[[[[l' r'] l2'] r2']|] st2] eqn:Hrs;
        cbn [fst snd] in *.
      * destruct Hs as [Hq2 _].
        destruct (IH _ _ _ _ _ _ _ _ _ _ Hq2 H) as [Hb2 Ht2].
        split; [|congruence].
        change [] with (@nil nat ++ []).
        eapply balanced_trans; [exact Hb1|exact Hb2].
      * injection H as <-. split; [exact Hb1|congruence].
Qed.

Lemma set_flag_balanced f st : balanced st (with_rx (set_receive_flag f (rx st)) st) [].
Proof. balanced_solve. Qed.

Lemma receive_callback_balanced buf len st st' :
  usb_audio_receive_callback ABS buf len st = Done st' ->
  balanced st st' [] /\ tx st' = tx st.
Proof.
  unfold usb_audio_receive_callback. intros H.
  set (st0 := with_rx (set_receive_flag 1 (rx st)) st) in *.
  destruct (initial_chain_balanced st0) as (Hb & Ht & _ & Hq).
  destruct (initial_chain st0) as [[[[[l r] l2] r2]|] st1]; cbn [fst snd] in *.
  - destruct (receive_loop_balanced _ _ _ _ _ _ _ _ _ _ _ Hq H) as [Hb2 Ht2].
    split; [|by rewrite Ht2, Ht].
    change [] with (@nil nat ++ []).
    eapply balanced_trans; [apply set_flag_balanced|].
    change [] with (@nil nat ++ []).
    eapply balanced_trans; [exact Hb|exact Hb2].
  - injection H as <-. split; [|done].
    change [] with (@nil nat ++ []).
    eapply balanced_trans; [apply set_flag_balanced|exact Hb].
Qed.

(** *** Transmit side *)

Lemma released_release_opt o p :
  pool_released (release_opt o p) = block_ids [o] ++ pool_released p.
Proof. by destruct o. Qed.

Lemma oracle_release_opt o p : pool_oracle (release_opt o p) = pool_oracle p.
Proof. by destruct o. Qed.

Lemma calls_release_opt o p : pool_calls (release_opt o p) = pool_calls p.
Proof. by destruct o. Qed.

Lemma silence_spec o p :
  exists extra,
    block_ids [fst (silence ABS o p)] = block_ids [o] ++ extra /\
    allocated (snd (silence ABS o p)) = allocated p ++ extra /\
    pool_released (snd (silence ABS o p)) = pool_released p /\
    pool_oracle (snd (silence ABS o p)) = pool_oracle p /\
    (pool_calls p <= pool_calls (snd (silence ABS o p)))%nat.
Proof.
  unfold silence. destruct o as [b|].
  - exists []. cbn [fst snd]. rewrite !app_nil_r. split_and!; done || lia.
  - destruct (allocate_cases p) as [(d & -> & Hl) | (-> & Hl)]; cbn [fst snd].
    + exists [pool_calls p]. split_and!; try done. cbn. lia.
    + exists []. rewrite !app_nil_r. split_and!; try done. cbn. lia.
Qed.

Lemma first_quad_null t :
  tx_groups_eq t -> is_null (left_1st t) = true ->
  first_quad t = [None; None; None; None].
Proof.
  intros (H1 & H2 & H3 & _) Hn. rewrite Hn in H1, H2, H3. unfold first_quad.
  destruct (left_1st t), (right_1st t), (left2_1st t), (right2_1st t); done.
Qed.

Lemma second_quad_null t :
  tx_groups_eq t -> is_null (left_2nd t) = true ->
  second_quad t = [None; None; None; None].
Proof.
  intros (_ & _ & _ & H1 & H2 & H3) Hn. rewrite Hn in H1, H2, H3. unfold second_quad.
  destruct (left_2nd t), (right_2nd t), (left2_2nd t), (right2_2nd t); done.
Qed.

Lemma tx_update_balanced rw st :
  tx_groups_eq (tx st) ->
  balanced st (AudioOutputUSB_update ABS rw st) (block_ids (rw <$> seq 0 4)) /\
  rx (AudioOutputUSB_update ABS rw st) = rx st /\
  count (AudioOutputUSB_update ABS rw st) = count st.
Proof.
  intros Hg. unfold AudioOutputUSB_update.
  change (block_ids (rw <$> seq 0 4))
    with (block_ids [rw 0%nat; rw 1%nat; rw 2%nat; rw 3%nat]).
  destruct (usb_audio_transmit_setting st =? 0).
  { split; [|done]. split_and!.
    - cbn [pool with_tx with_pool]. by rewrite !oracle_release_opt.
    - cbn [pool with_tx with_pool]. rewrite !calls_release_opt. lia.
    - unfold usb_held. cbn [pool with_tx with_pool rx tx].
      rewrite !released_release_opt, !allocated_release_opt.
      unfold first_quad, second_quad.
      cbn [left_1st left_2nd right_1st right_2nd left2_1st left2_2nd right2_1st right2_2nd].
      occ_solve. }
  destruct (silence_spec (rw 0%nat) (pool st)) as (e1 & Hi1 & Ha1 & Hr1 & Ho1 & Hc1).
  destruct (silence ABS (rw 0%nat) (pool st)) as [o1 p1]. cbn [fst snd] in *.
  destruct (silence_spec (rw 1%nat) p1) as (e2 & Hi2 & Ha2 & Hr2 & Ho2 & Hc2).
  destruct (silence ABS (rw 1%nat) p1) as [o2 p2]. cbn [fst snd] in *.
  destruct (silence_spec (rw 2%nat) p2) as (e3 & Hi3 & Ha3 & Hr3 & Ho3 & Hc3).
  destruct (silence ABS (rw 2%nat) p2) as [o3 p3]. cbn [fst snd] in *.
  destruct (silence_spec (rw 3%nat) p3) as (e4 & Hi4 & Ha4 & Hr4 & Ho4 & Hc4).
  destruct (silence ABS (rw 3%nat) p3) as [o4 p4]. cbn [fst snd] in *.
  assert (Ho : pool_oracle p4 = pool_oracle (pool st)) by congruence.
  assert (Ha : allocated p4 = allocated (pool st) ++ e1 ++ e2 ++ e3 ++ e4).
  { rewrite Ha4, Ha3, Ha2, Ha1, <- !app_assoc. done. }
  assert (Hr : pool_released p4 = pool_released (pool st)) by congruence.
  assert (Hids : forall x,
    (occ x (block_ids [o1]) + occ x (block_ids [o2]) + occ x (block_ids [o3])
     + occ x (block_ids [o4])
     = occ x (block_ids [rw 0%nat]) + occ x (block_ids [rw 1%nat])
       + occ x (block_ids [rw 2%nat]) + occ x (block_ids [rw 3%nat])
       + occ x e1 + occ x e2 + occ x e3 + occ x e4)%nat).
  { intros x. rewrite Hi1, Hi2, Hi3, Hi4, !count_occ_app. lia. }
  clear Hi1 Hi2 Hi3 Hi4 Ha1 Ha2 Ha3 Ha4 Hr1 Hr2 Hr3 Hr4 Ho1 Ho2 Ho3 Ho4.
  destruct (is_null o1 || is_null o2 || is_null o3 || is_null o4).
  { split; [|done]. split_and!.
    - cbn [pool with_pool]. by rewrite !oracle_release_opt.
    - cbn [pool with_pool]. rewrite !calls_release_opt. lia.
    - unfold usb_held. cbn [pool with_pool rx tx].
      rewrite !released_release_opt, !allocated_release_opt, Ha, Hr.
      apply occ_perm; intros x. specialize (Hids x). revert Hids. occ_norm. lia. }
  destruct (is_null (left_1st (tx st))) eqn:E1.
  { pose proof (first_quad_null _ Hg E1) as Hq.
    split; [|done]. split_and!; [done|cbn; lia|].
    unfold usb_held. cbn [pool with_tx with_pool rx tx]. rewrite Hq, Ha, Hr.
    unfold first_quad, second_quad.
    cbn [set_offset_1st set_1st
         left_1st left_2nd right_1st right_2nd left2_1st left2_2nd right2_1st right2_2nd].
    apply occ_perm; intros x. specialize (Hids x). revert Hids. occ_norm. lia. }
  destruct (is_null (left_2nd (tx st))) eqn:E2.
  { pose proof (second_quad_null _ Hg E2) as Hq.
    split; [|done]. split_and!; [done|cbn; lia|].
    unfold usb_held. cbn [pool with_tx with_pool rx tx]. rewrite Hq, Ha, Hr.
    unfold first_quad, second_quad.
    cbn [set_2nd
         left_1st left_2nd right_1st right_2nd left2_1st left2_2nd right2_1st right2_2nd].
    apply occ_perm; intros x. specialize (Hids x). revert Hids. occ_norm. lia. }
  split; [|done]. split_and!.
  - cbn [pool with_tx with_pool]. by rewrite !oracle_release_opt.
  - cbn [pool with_tx with_pool]. rewrite !calls_release_opt. lia.
  - unfold usb_held. cbn [pool with_tx with_pool rx tx].
    rewrite !released_release_opt, !allocated_release_opt, Ha, Hr.
    unfold first_quad, second_quad.
    cbn [set_offset_1st set_2nd set_1st
         left_1st left_2nd right_1st right_2nd left2_1st left2_2nd right2_1st right2_2nd].
    apply occ_perm; intros x. specialize (Hids x). revert Hids. occ_norm. lia.
Qed.

Lemma transmit_iter_balanced target len st len' st' :
  transmit_iter ABS target len st = Next len' st' ->
  balanced st st' [] /\ rx st' = rx st.
Proof.
  unfold transmit_iter.
  destruct (left_1st (tx st)) as [l|] eqn:E1; [|done].
  destruct (right_1st (tx st)) as [r|] eqn:E2; [|done].
  destruct (left2_1st (tx st)) as [l2|] eqn:E3; [|done].
  destruct (right2_1st (tx st)) as [r2|] eqn:E4; [|done].
  destruct (_ >=? _); intros [= <- <-]; (split; [|done]).
  - split_and!; [done|cbn; lia|].
    unfold usb_held, first_quad, second_quad. rewrite E1, E2, E3, E4. held_solve.
  - balanced_solve.
Qed.

Lemma transmit_loop_balanced fuel : forall target len st st',
  tx_inv ABS st -> 0 <= len -> target <= 45 ->
  transmit_loop ABS fuel target len st = Done st' ->
  balanced st st' [] /\ rx st' = rx st.
Proof.
  induction fuel as [|fuel IH]; intros target len st st' Hinv Hlen Ht H;
    cbn [transmit_loop] in H; [done|].
  destruct (len <? target) eqn:E.
  2: { injection H as <-. split; [apply balanced_refl|done]. }
  apply Z.ltb_lt in E.
  destruct (transmit_iter_inv ABS ABS_range target len st Hinv) as
    [(st1 & Hi & _ & ->) | (len1 & st1 & Hi & Hl & Hinv1 & _)]; [lia|lia|..];
    rewrite Hi in H.
  - injection H as <-. split; [|done]. balanced_solve.
  - destruct (transmit_iter_balanced _ _ _ _ _ Hi) as [Hb1 Hr1].
    destruct (IH target len1 st1 st' Hinv1 ltac:(lia) Ht H) as [Hb2 Hr2].
    split; [|congruence].
    change [] with (@nil nat ++ []). eapply balanced_trans; eassumption.
Qed.

Lemma transmit_callback_props st :
  tx_inv ABS st ->
  let fresh := u32 (count st + 1) <? 10 in
  exists st',
    usb_audio_transmit_callback ABS st = Done ((if fresh then 352 else 360), st') /\
    tx_inv ABS st' /\
    count st' = (if fresh then u32 (count st + 1) else 0) /\
    balanced st st' [] /\ rx st' = rx st.
Proof.
  intros Hinv fresh. unfold usb_audio_transmit_callback. fold fresh.
  destruct fresh.
  - destruct (transmit_loop_done ABS ABS_range (Z.to_nat (2 * 44 + 2)) 44 0
                (with_count (u32 (count st + 1)) st)) as (st' & H & Hinv' & _ & Hc);
      [exact Hinv|lia|lia|lia|].
    rewrite H. exists st'. split_and!; try done.
    + destruct (transmit_loop_balanced _ 44 0 (with_count (u32 (count st + 1)) st) _ Hinv ltac:(lia) ltac:(lia) H) as [Hb _].
      change [] with (@nil nat ++ []).
      eapply balanced_trans; [|exact Hb]. balanced_solve.
    + by destruct (transmit_loop_balanced _ 44 0 (with_count (u32 (count st + 1)) st) _ Hinv ltac:(lia) ltac:(lia) H).
  - destruct (transmit_loop_done ABS ABS_range (Z.to_nat (2 * 45 + 2)) 45 0
                (with_count 0 st)) as (st' & H & Hinv' & _ & Hc);
      [exact Hinv|lia|lia|lia|].
    rewrite H. exists st'. split_and!; try done.
    + destruct (transmit_loop_balanced _ 45 0 (with_count 0 st) _ Hinv ltac:(lia) ltac:(lia) H) as [Hb _].
      change [] with (@nil nat ++ []).
      eapply balanced_trans; [|exact Hb]. balanced_solve.
    + by destruct (transmit_loop_balanced _ 45 0 (with_count 0 st) _ Hinv ltac:(lia) ltac:(lia) H).
Qed.

(** *** Any trace of calls *)

Lemma tx_update_rx_inv rw st : rx_inv ABS st -> rx_inv ABS (AudioOutputUSB_update ABS rw st).
Proof.
  unfold rx_inv. intros H.
  assert (rx (AudioOutputUSB_update ABS rw st) = rx st) as ->; [|done].
  unfold AudioOutputUSB_update.
  repeat match goal with
         | |- context [if ?c then _ else _] => destruct c
         | |- context [silence ?a ?b ?c] => destruct (silence a b c)
         end; done.
Qed.

Lemma do_usb_op_props o st :
  rx_inv ABS st -> tx_inv ABS st ->
  exists out st',
    do_usb_op ABS o st = Done (out, st') /\
    rx_inv ABS st' /\ tx_inv ABS st' /\
    balanced st st' (usb_deposited o) /\
    match o with
    | OpTransmit =>
        let fresh := u32 (count st + 1) <? 10 in
        out = [if fresh then 352 else 360] /\
        count st' = (if fresh then u32 (count st + 1) else 0)
    | _ => out = [] /\ count st' = count st
    end.
Proof.
  intros Hrx Htx. destruct o as [buf len| |rw| |v]; cbn [do_usb_op usb_deposited].
  - destruct (receive_callback_done ABS ABS_range buf len st Hrx) as (st' & H & Hrx').
    rewrite H. exists [], st'.
    destruct (receive_callback_balanced _ _ _ _ H) as [Hb Ht].
    pose proof (receive_callback_frame _ _ _ _ _ H) as (_ & _ & _ & _ & _ & Hc & _).
    split_and!; try done. unfold tx_inv. by rewrite Ht.
  - exists [], (AudioInputUSB_update ABS st).
    destruct (rx_update_frame ABS st) as (Ht & _ & Hc).
    split_and!; try done.
    + unfold rx_inv. by rewrite update_keeps_count.
    + unfold tx_inv. by rewrite Ht.
    + apply rx_update_balanced.
  - exists [], (AudioOutputUSB_update ABS rw st).
    destruct (tx_update_balanced rw st (proj1 Htx)) as (Hb & Hr & Hc).
    split_and!; try done.
    + by apply tx_update_rx_inv.
    + by apply tx_update_inv.
  - destruct (transmit_callback_props st Htx) as (st' & H & Htx' & Hc & Hb & Hr).
    rewrite H. eexists _, st'. split_and!; try done.
    unfold rx_inv. by rewrite Hr.
  - exists [], (set_transmit_setting v st). split_and!; try done. balanced_solve.
Qed.

Lemma run_usb_ops_props ops : forall st,
  rx_inv ABS st -> tx_inv ABS st ->
  exists lens st',
    run_usb_ops ABS ops st = Done (lens, st') /\
    rx_inv ABS st' /\ tx_inv ABS st' /\
    balanced st st' (mjoin (usb_deposited <$> ops)) /\
    length lens = transmits ops /\
    (0 <= count st < 10 ->
     count st' = (count st + Z.of_nat (length lens)) mod 10 /\
     Forall (fun n => n = 352 \/ n = 360) lens /\
     foldr Z.add 0 lens
     = 8 * (44 * Z.of_nat (length lens) + (count st + Z.of_nat (length lens)) / 10)).
Proof.
  induction ops as [|o ops IH]; intros st Hrx Htx; cbn [run_usb_ops].
  - exists [], st. split_and!; try done; [apply balanced_refl|].
    intros Hc. cbn. split_and!; [lia|done|lia].
  - destruct (do_usb_op_props o st Hrx Htx) as (out & st1 & -> & Hrx1 & Htx1 & Hb1 & Ho).
    destruct (IH st1 Hrx1 Htx1) as (lens & st' & -> & Hrx' & Htx' & Hb & Hn & Hrate).
    exists (out ++ lens), st'. split_and!; try done.
    + exact (balanced_trans _ _ _ _ _ Hb1 Hb).
    + unfold transmits in *. cbn [List.filter]. rewrite length_app, Hn.
      destruct o; destruct Ho as [-> _]; done.
    + intros Hc. unfold u32 in Ho.
      assert (Hout : 0 <= count st1 < 10 /\
                (out = [] /\ count st1 = count st \/
                 out = [352] /\ count st1 = count st + 1 \/
                 out = [360] /\ count st = 9 /\ count st1 = 0)).
      { destruct o; try (destruct Ho as [-> ->]; split; [lia|by left]).
        cbn zeta in Ho. destruct Ho as [-> ->].
        destruct (Z.ltb_spec ((count st + 1) mod 4294967296) 10);
          rewrite ?Z.mod_small in * by lia; split; try lia.
        - right; left. done.
        - right; right. split_and!; [done|lia|done]. }
      destruct Hout as [Hc1 Hout].
      destruct (Hrate Hc1) as (Hc' & Hf & Hs).
      destruct Hout as [(-> & E) | [(-> & E) | (-> & E9 & E)]]; cbn [app foldr length].
      * rewrite E in Hc', Hs. done.
      * rewrite E in Hc', Hs.
        split_and!; [rewrite Hc'; f_equal; lia|constructor; [by left|done]|rewrite Hs; lia].
      * rewrite E in Hc', Hs. rewrite E9 in *.
        split_and!; [rewrite Hc'; lia|constructor; [by right|done]|rewrite Hs; lia].
Qed.

Lemma allocated_fresh p0 p :
  pool_oracle p = pool_oracle p0 -> (pool_calls p0 <= pool_calls p)%nat ->
  allocated p = allocated p0 ++ fresh_ids p0 p.
Proof.
  intros Ho Hc. unfold allocated, fresh_ids. rewrite Ho, <- filter_app.
  f_equal. rewrite <- seq_app. f_equal. lia.
Qed.

(** X5.  Block ownership on the USB side: after the two begin() calls
    and any sequence of receive callbacks, transmit callbacks, update
    passes of both objects and changes of the transmit setting, with
    any pool (allocations may fail at any point), every call returns,
    and the blocks held in the receive slots, the ready mailbox and
    the transmit queue together with the blocks released so far are
    exactly the blocks allocated from the pool plus the blocks taken
    over from upstream (and what had been released before).  No
    allocation failure path leaks a block or releases one twice. *)
Theorem usb_block_ownership ops st0 :
  exists lens st,
    run_usb_ops ABS ops (AudioOutputUSB_begin (AudioInputUSB_begin st0)) = Done (lens, st) /\
    usb_held st ++ pool_released (pool st)
      ≡ₚ fresh_ids (pool st0) (pool st) ++ mjoin (usb_deposited <$> ops)
         ++ pool_released (pool st0).
Proof.
  destruct (run_usb_ops_props ops (AudioOutputUSB_begin (AudioInputUSB_begin st0)))
    as (lens & st & H & _ & _ & (Ho & Hc & Hp) & _).
  { unfold rx_inv. cbn. lia. }
  { split; [by repeat split|cbn; lia]. }
  exists lens, st. split; [exact H|].
  cbn [pool AudioOutputUSB_begin AudioInputUSB_begin with_tx with_rx] in Ho, Hc, Hp.
  rewrite (allocated_fresh (pool st0) (pool st) Ho Hc) in Hp.
  apply occ_perm. intros x. apply (perm_occ _ _ x) in Hp. revert Hp.
  change (usb_held (AudioOutputUSB_begin (AudioInputUSB_begin st0))) with (@nil nat).
  occ_norm. lia.
Qed.

(** X6.  The transmit rate: along any sequence of calls, each transmit
    callback returns 352 or 360 bytes (44 or 45 frames of four
    channels), and after [n] callbacks, starting with the static
    counter at [c], the byte total is 8 * (44 n + (c + n) / 10): one
    packet in ten carries the extra frame, 441 frames per ten packets,
    whatever the queue holds and whatever else is called in
    between. *)
Theorem usb_transmit_rate ops st :
  rx_inv ABS st -> tx_inv ABS st -> 0 <= count st < 10 ->
  exists lens st',
    run_usb_ops ABS ops st = Done (lens, st') /\
    length lens = transmits ops /\
    Forall (fun n => n = 352 \/ n = 360) lens /\
    foldr Z.add 0 lens
    = 8 * (44 * Z.of_nat (length lens) + (count st + Z.of_nat (length lens)) / 10) /\
    count st' = (count st + Z.of_nat (length lens)) mod 10.
Proof.
  intros Hrx Htx Hc.
  destruct (run_usb_ops_props ops st Hrx Htx) as (lens & st' & H & _ & _ & _ & Hn & Hrate).
  destruct (Hrate Hc) as (Hc' & Hf & Hs).
  by exists lens, st'.
Qed.
End USB_Ownership.

(** ** The receive side in every reachable state *)

Section USB_Receive_Invariants.

Import USB.

Local Open Scope Z_scope.

Variable AUDIO_BLOCK_SAMPLES : Z.
Local Abbreviation ABS := AUDIO_BLOCK_SAMPLES.
Hypothesis ABS_range : 0 < ABS < 65536.

Lemma receive_send_ready l r l2 r2 st :
  ready_quad (rx (snd (receive_send l r l2 r2 st))) = [Some l; Some r; Some l2; Some r2].
Proof.
  unfold receive_send.
  repeat match goal with
         | |- context [allocate ?p] => destruct (allocate p) as [[?|] ?]
         end; done.
Qed.

Lemma receive_loop_ready fuel : forall buf len dptr cnt l r l2 r2 st st',
  receive_loop ABS fuel buf len dptr cnt l r l2 r2 st = Done st' ->
  ready_quad (rx st') = ready_quad (rx st) \/
  exists a b c d, ready_quad (rx st') = [Some a; Some b; Some c; Some d].
Proof.
  induction fuel as [|fuel IH]; intros buf len dptr cnt l r l2 r2 st st' H;
    cbn [receive_loop] in H; [done|].
  destruct (len >? 0); [|injection H as <-; by left].
  destruct (len <? u32 (ABS - cnt)).
  { destruct (copy_to_blocks _ _ _ _ _ _ _ _) as [[[a b] c] d].
    injection H as <-. by left. }
  destruct (u32 (ABS - cnt) >? 0).
  - destruct (copy_to_blocks _ _ _ _ _ _ _ _) as [[[a b] c] d].
    destruct (ready_occupied _).
    + injection H as <-. left. by destruct (_ >? 0).
    + match type of H with
      | context [receive_send ?a ?b ?c ?d ?s] =>
          pose proof (receive_send_ready a b c d s) as Hr;
          destruct (receive_send a b c d s) as [[[[[l' r'] l2'] r2']|] st2]
      end; cbn [snd] in Hr.
      * right. destruct (IH _ _ _ _ _ _ _ _ _ _ H) as [E | E]; [|exact E].
        rewrite E, Hr. eauto.
      * injection H as <-. right. eauto.
  - destruct (ready_occupied _).
    + injection H as <-. by left.
    + pose proof (receive_send_ready l r l2 r2 st) as Hr.
      destruct (receive_send l r l2 r2 st) as [[[[[l' r'] l2'] r2']|] st2];
        cbn [snd] in Hr.
      * right. destruct (IH _ _ _ _ _ _ _ _ _ _ H) as [E | E]; [|exact E].
        rewrite E, Hr. eauto.
      * injection H as <-. right. eauto.
Qed.

Lemma receive_callback_ready buf len st st' :
  usb_audio_receive_callback ABS buf len st = Done st' ->
  ready_quad (rx st') = ready_quad (rx st) \/
  exists a b c d, ready_quad (rx st') = [Some a; Some b; Some c; Some d].
Proof.
  unfold usb_audio_receive_callback. intros H.
  set (st0 := with_rx (set_receive_flag 1 (rx st)) st) in *.
  destruct (initial_chain_balanced st0) as (_ & _ & Hr & _).
  destruct (initial_chain st0) as [[[[[l r] l2] r2]|] st1]; cbn [fst snd] in *.
  - destruct (receive_loop_ready _ _ _ _ _ _ _ _ _ _ _ H) as [E | E]; [|by right].
    left. by rewrite E, Hr.
  - injection H as <-. by left.
Qed.

Lemma transmit_loop_rx fuel : forall target len st st',
  transmit_loop ABS fuel target len st = Done st' -> rx st' = rx st.
Proof.
  induction fuel as [|fuel IH]; intros target len st st' H;
    cbn [transmit_loop] in H; [done|].
  destruct (len <? target); [|by injection H as <-].
  destruct (transmit_iter ABS target len st) as [st1|len1 st1|] eqn:Hi; [| |done].
  - injection H as <-. unfold transmit_iter in Hi.
    destruct (left_1st (tx st)); [|by injection Hi as <-].
    destruct (right_1st (tx st)), (left2_1st (tx st)), (right2_1st (tx st)); try done.
    by destruct (_ >=? _).
  - rewrite (IH _ _ _ _ H). by destruct (transmit_iter_balanced _ _ _ _ _ _ Hi).
Qed.

Lemma transmit_callback_rx st n st' :
  usb_audio_transmit_callback ABS st = Done (n, st') -> rx st' = rx st.
Proof.
  unfold usb_audio_transmit_callback.
  destruct (_ <? 10).
  - destruct (transmit_loop _ _ _ _ _) eqn:E; [|done|done].
    intros [= _ <-]. by rewrite (transmit_loop_rx _ _ _ _ _ E).
  - destruct (transmit_loop _ _ _ _ _) eqn:E; [|done|done].
    intros [= _ <-]. by rewrite (transmit_loop_rx _ _ _ _ _ E).
Qed.

Lemma tx_update_rx rw st : rx (AudioOutputUSB_update ABS rw st) = rx st.
Proof.
  unfold AudioOutputUSB_update.
  repeat match goal with
         | |- context [if ?c then _ else _] => destruct c
         | |- context [silence ?a ?b ?c] => destruct (silence a b c)
         end; done.
Qed.

Lemma step_ready_inv st st' : ready_inv ABS st -> step ABS st st' -> ready_inv ABS st'.
Proof.
  intros [Hc Hr] Hs. destruct Hs.
  - done.
  - done.
  - split; [unfold rx_inv; cbn; lia|by left].
  - done.
  - destruct (receive_callback_done ABS ABS_range buf len st Hc) as (st2 & E & Hc').
    assert (st2 = st') as -> by congruence.
    split; [done|].
    destruct (receive_callback_ready _ _ _ _ H) as [-> | E']; [done|by right].
  - split.
    + unfold rx_inv. by rewrite update_keeps_count.
    + left. by destruct (rx_update_shape ABS st) as (_ & _ & -> & _).
  - unfold ready_inv, rx_inv. by rewrite tx_update_rx.
  - unfold ready_inv, rx_inv. by rewrite (transmit_callback_rx _ _ _ H).
Qed.

(** X4.  Receive side invariant: in every state reachable after
    AudioInputUSB::begin(), [incoming_count] lies within the block
    (so no copy runs past the end of a block), the four pointers of
    the ready mailbox are all null or all set, and a receive callback
    for any packet returns. *)
Theorem rx_mailbox_invariant st :
  rx_reachable ABS st ->
  0 <= incoming_count (rx st) <= ABS /\
  all_or_none (ready_left (rx st)) (ready_right (rx st))
              (ready_left2 (rx st)) (ready_right2 (rx st)) /\
  forall buf len, exists st', usb_audio_receive_callback ABS buf len st = Done st'.
Proof.
  intros Hr.
  assert (Hinv : ready_inv ABS st).
  { induction Hr as [st|st st' _ IH Hs].
    - split; [unfold rx_inv; cbn; lia|by left].
    - by apply (step_ready_inv st). }
  destruct Hinv as [Hc Hq]. split; [exact Hc|]. split.
  - unfold ready_quad in Hq.
    destruct Hq as [[= -> -> -> ->] | (a & b & c & d & [= -> -> -> ->])];
      [by left|right; eauto].
  - intros buf len.
    destruct (receive_callback_done ABS ABS_range buf len st Hc) as (st' & E & _).
    eauto.
Qed.

End USB_Receive_Invariants.

(** ** Packing two samples into a word *)

Section USB_Packing.

Import USB.
Local Open Scope Z_scope.

Lemma pack_bits r l n : 0 <= n ->
  Z.testbit (u32 (Z.lor (Z.shiftl r 16) (Z.land l 65535))) n
  = if n <? 16 then Z.testbit l n else if n <? 32 then Z.testbit r (n - 16) else false.
Proof.
  intros Hn. unfold u32. change 4294967296 with (2 ^ 32).
  destruct (Z.ltb_spec n 32).
  - rewrite Z.mod_pow2_bits_low by lia.
    rewrite Z.lor_spec, Z.land_spec, Z.shiftl_spec by lia.
    change 65535 with (Z.ones 16).
    destruct (Z.ltb_spec n 16).
    + rewrite Z.ones_spec_low by lia. rewrite Z.testbit_neg_r by lia.
      by rewrite andb_true_r.
    + rewrite Z.ones_spec_high by lia. by rewrite andb_false_r, orb_false_r.
  - rewrite Z.mod_pow2_bits_high by lia.
    destruct (Z.ltb_spec n 16); [lia|done].
Qed.

Lemma pack_lo r l : Z.land (u32 (Z.lor (Z.shiftl r 16) (Z.land l 65535))) 65535 = u16 l.
Proof.
  apply Z.bits_inj'. intros n Hn.
  rewrite Z.land_spec, pack_bits by lia. unfold u16.
  change 65535 with (Z.ones 16). change 65536 with (2 ^ 16).
  destruct (Z.ltb_spec n 16).
  - rewrite Z.ones_spec_low, Z.mod_pow2_bits_low by lia. by rewrite andb_true_r.
  - rewrite Z.ones_spec_high, Z.mod_pow2_bits_high by lia. by rewrite andb_false_r.
Qed.

Lemma pack_hi r l : Z.shiftr (u32 (Z.lor (Z.shiftl r 16) (Z.land l 65535))) 16 = u16 r.
Proof.
  apply Z.bits_inj'. intros n Hn.
  rewrite Z.shiftr_spec, pack_bits by lia. unfold u16. change 65536 with (2 ^ 16).
  destruct (Z.ltb_spec (n + 16) 16); [lia|].
  replace (n + 16 - 16) with n by lia.
  destruct (Z.ltb_spec (n + 16) 32).
  - by rewrite Z.mod_pow2_bits_low by lia.
  - by rewrite Z.mod_pow2_bits_high by lia.
Qed.

Lemma store32_length j w buf : length (store32 j w buf) = length buf.
Proof. unfold store32. by rewrite !length_insert. Qed.

Lemma copy_from_length len : forall dst k l r l2 r2 buf,
  length (copy_from_buffers_4ch len dst k l r l2 r2 buf) = length buf.
Proof.
  induction len as [|len IH]; intros; cbn [copy_from_buffers_4ch]; [done|].
  by rewrite IH, !store32_length.
Qed.

Lemma store32_lookup j w buf (q : nat) :
  (2 * j + 1 < length buf)%nat ->
  store32 j w buf !! q
  = if decide (q = 2 * j)%nat then Some (Z.land w 65535)
    else if decide (q = 2 * j + 1)%nat then Some (Z.shiftr w 16)
    else buf !! q.
Proof.
  intros Hl. unfold store32.
  destruct (decide (q = 2 * j)%nat) as [->|].
  - rewrite list_lookup_insert_ne by lia. by rewrite list_lookup_insert_eq by lia.
  - destruct (decide (q = 2 * j + 1)%nat) as [->|].
    + by rewrite list_lookup_insert_eq by (rewrite length_insert; lia).
    + by rewrite !list_lookup_insert_ne by lia.
Qed.

Lemma copy_from_lookup len : forall dst k l r l2 r2 buf (q : nat),
  (2 * (dst + 2 * len) <= length buf)%nat ->
  copy_from_buffers_4ch len dst k l r l2 r2 buf !! q
  = if decide (2 * dst <= q < 2 * dst + 4 * len)%nat
    then Some (u16 (([l; r; l2; r2] !!! ((q - 2 * dst) mod 4)%nat)
                      !!! (k + (q - 2 * dst) / 4)%nat))
    else buf !! q.
Proof.
  induction len as [|len IH]; intros dst k l r l2 r2 buf q Hl;
    cbn [copy_from_buffers_4ch].
  { destruct (decide _); [lia|done]. }
  rewrite IH by (rewrite !store32_length; lia).
  destruct (decide (2 * (dst + 2) <= q < 2 * (dst + 2) + 4 * len)%nat).
  - rewrite decide_True by lia.
    replace ((q - 2 * (dst + 2)) mod 4)%nat with ((q - 2 * dst) mod 4)%nat by lia.
    replace (k + 1 + (q - 2 * (dst + 2)) / 4)%nat with (k + (q - 2 * dst) / 4)%nat by lia.
    done.
  - rewrite !store32_lookup by (rewrite ?store32_length; lia).
    rewrite !pack_lo, !pack_hi.
    destruct (decide (q = 2 * (dst + 1))%nat) as [->|].
    { rewrite decide_True by lia.
      replace ((2 * (dst + 1) - 2 * dst) mod 4)%nat with 2%nat by lia.
      replace (k + (2 * (dst + 1) - 2 * dst) / 4)%nat with k by lia. done. }
    destruct (decide (q = 2 * (dst + 1) + 1)%nat) as [->|].
    { rewrite decide_True by lia.
      replace ((2 * (dst + 1) + 1 - 2 * dst) mod 4)%nat with 3%nat by lia.
      replace (k + (2 * (dst + 1) + 1 - 2 * dst) / 4)%nat with k by lia. done. }
    destruct (decide (q = 2 * dst)%nat) as [->|].
    { rewrite decide_True by lia.
      replace ((2 * dst - 2 * dst) mod 4)%nat with 0%nat by lia.
      replace (k + (2 * dst - 2 * dst) / 4)%nat with k by lia. done. }
    destruct (decide (q = 2 * dst + 1)%nat) as [->|].
    { rewrite decide_True by lia.
      replace ((2 * dst + 1 - 2 * dst) mod 4)%nat with 1%nat by lia.
      replace (k + (2 * dst + 1 - 2 * dst) / 4)%nat with k by lia. done. }
    rewrite decide_False by lia. done.
Qed.

End USB_Packing.

(** ** The transmit queue as a stream *)

Section USB_Transmit_Stream.

Import USB.

Local Open Scope Z_scope.

Variable AUDIO_BLOCK_SAMPLES : Z.
Local Abbreviation ABS := AUDIO_BLOCK_SAMPLES.
Hypothesis ABS_range : 0 < ABS < 65536.

Lemma quad_data l r l2 r2 (c : nat) :
  (c < 4)%nat ->
  [data l; data r; data l2; data r2] !!! c
  = block_data ([Some l; Some r; Some l2; Some r2] !!! c).
Proof. intros H. by destruct c as [|[|[|[|c]]]]; [..|lia]. Qed.

Lemma quad_none (c : nat) :
  block_data ([None; None; None; None] !!! c) = [].
Proof. by destruct c as [|[|[|[|c]]]]. Qed.

Lemma tx_wf_first st :
  tx_wf ABS st -> (0 < length (tx_pending 0 st))%nat ->
  exists l r l2 r2,
    first_quad (tx st) = [Some l; Some r; Some l2; Some r2] /\
    length (data l) = Z.to_nat ABS /\ length (data r) = Z.to_nat ABS /\
    length (data l2) = Z.to_nat ABS /\ length (data r2) = Z.to_nat ABS.
Proof.
  intros ([(H1 & H2 & H3 & H4 & H5 & H6) Ho] & Hf & Hn) Hp.
  unfold tx_pending, first_quad, second_quad in *.
  destruct (left_1st (tx st)) as [l|].
  - destruct (right_1st (tx st)) as [r|]; [|done].
    destruct (left2_1st (tx st)) as [l2|]; [|done].
    destruct (right2_1st (tx st)) as [r2|]; [|done].
    exists l, r, l2, r2. split; [done|].
    apply Forall_app in Hf as [Hf _].
    apply Forall_cons in Hf as [F1 Hf]. apply Forall_cons in Hf as [F2 Hf].
    apply Forall_cons in Hf as [F3 Hf]. apply Forall_cons in Hf as [F4 _].
    done.
  - rewrite (Hn eq_refl) in Hp. cbn in Hp. rewrite drop_nil in Hp. cbn in Hp. lia.
Qed.

Lemma tx_wf_second_length st (k : nat) :
  tx_wf ABS st -> (k < 4)%nat ->
  length (block_data (second_quad (tx st) !!! k))
  = length (block_data (second_quad (tx st) !!! 0%nat)).
Proof.
  intros ([(_ & _ & _ & H4 & H5 & H6) _] & Hf & _) Hk.
  apply Forall_app in Hf as [_ Hf]. unfold second_quad in *.
  apply Forall_cons in Hf as [F1 Hf]. apply Forall_cons in Hf as [F2 Hf].
  apply Forall_cons in Hf as [F3 Hf]. apply Forall_cons in Hf as [F4 _].
  destruct (left_2nd (tx st)), (right_2nd (tx st)), (left2_2nd (tx st)),
    (right2_2nd (tx st)); try done;
    destruct k as [|[|[|[|k]]]]; cbn in *; lia.
Qed.

Lemma transmit_iter_fifo target len st :
  tx_wf ABS st -> 0 <= len < target -> target <= 45 ->
  (0 < length (tx_pending 0 st))%nat ->
  (Z.to_nat (4 * target) <= length (usb_audio_transmit_buffer st))%nat ->
  exists num st',
    0 < num <= target - len /\
    (Z.to_nat num <= length (tx_pending 0 st))%nat /\
    transmit_iter ABS target len st = Next (len + num) st' /\
    tx_wf ABS st' /\
    (forall k : nat, (k < 4)%nat ->
       tx_pending k st' = drop (Z.to_nat num) (tx_pending k st)) /\
    length (usb_audio_transmit_buffer st') = length (usb_audio_transmit_buffer st) /\
    (forall q : nat,
       usb_audio_transmit_buffer st' !! q
       = if decide (Z.to_nat (4 * len) <= q < Z.to_nat (4 * (len + num)))%nat
         then Some (u16 (tx_pending ((q - Z.to_nat (4 * len)) mod 4) st
                           !!! ((q - Z.to_nat (4 * len)) / 4)%nat))
         else usb_audio_transmit_buffer st !! q) /\
    count st' = count st /\ rx st' = rx st /\
    usb_audio_underrun_count st' = usb_audio_underrun_count st.
Proof.
  intros Hwf Hlen Ht Hp Hbuf.
  destruct (tx_wf_first st Hwf Hp) as (l & r & l2 & r2 & Hq & L1 & L2 & L3 & L4).
  pose proof (tx_wf_second_length st) as Hsec.
  destruct Hwf as ([(H1 & H2 & H3 & H4 & H5 & H6) Ho] & Hf & Hn).
  specialize (fun k Hk => Hsec k (conj (conj (conj H1 (conj H2 (conj H3 (conj H4 (conj H5 H6))))) Ho) (conj Hf Hn)) Hk).
  injection Hq as E1 E2 E3 E4.
  unfold transmit_iter. rewrite E1, E2, E3, E4.
  rewrite (u32_small (target - len)) by lia.
  rewrite (u32_small (ABS - offset_1st (tx st))) by lia.
  set (off := offset_1st (tx st)) in *.
  set (num := if target - len >? ABS - off then ABS - off else target - len).
  assert (Hnum : 0 < num <= target - len /\ num <= ABS - off /\
                 (num = ABS - off \/ num = target - len)).
  { unfold num. destruct (Z.gtb_spec (target - len) (ABS - off)); lia. }
  rewrite (u32_small (len + num)) by lia.
  rewrite (u32_small (off + num)) by lia.
  assert (Hpend : forall k : nat, (k < 4)%nat ->
            tx_pending k st
            = drop (Z.to_nat off) ([data l; data r; data l2; data r2] !!! k)
              ++ block_data (second_quad (tx st) !!! k)).
  { intros k Hk. unfold tx_pending, first_quad. rewrite E1, E2, E3, E4.
    fold off. by rewrite quad_data. }
  assert (Hlenk : forall k : nat, (k < 4)%nat ->
            length ([data l; data r; data l2; data r2] !!! k) = Z.to_nat ABS).
  { intros k Hk. by destruct k as [|[|[|[|k]]]]; [..|lia]. }
  assert (Hcopy : forall q : nat,
    copy_from_buffers_4ch (Z.to_nat num) (Z.to_nat (len * 2)) (Z.to_nat off)
      (data l) (data r) (data l2) (data r2) (usb_audio_transmit_buffer st) !! q
    = if decide (Z.to_nat (4 * len) <= q < Z.to_nat (4 * (len + num)))%nat
      then Some (u16 (tx_pending ((q - Z.to_nat (4 * len)) mod 4) st
                        !!! ((q - Z.to_nat (4 * len)) / 4)%nat))
      else usb_audio_transmit_buffer st !! q).
  { intros q. rewrite copy_from_lookup by lia.
    destruct (decide (Z.to_nat (4 * len) <= q < Z.to_nat (4 * (len + num)))%nat).
    - rewrite decide_True by lia.
      replace (2 * Z.to_nat (len * 2))%nat with (Z.to_nat (4 * len)) by lia.
      set (c := ((q - Z.to_nat (4 * len)) mod 4)%nat).
      set (j := ((q - Z.to_nat (4 * len)) / 4)%nat).
      assert (c < 4)%nat by (unfold c; lia).
      assert (j < Z.to_nat num)%nat by (unfold j; lia).
      rewrite (Hpend c) by done.
      rewrite lookup_total_app_l by (rewrite length_drop, Hlenk by done; lia).
      by rewrite lookup_total_drop.
    - rewrite decide_False by lia. done. }
  assert (Hnr : (Z.to_nat num <= length (tx_pending 0 st))%nat).
  { rewrite (Hpend 0%nat) by lia. rewrite length_app, length_drop.
    rewrite (Hlenk 0%nat) by lia. lia. }
  exists num.
  destruct (Z.geb_spec (off + num) ABS) as [Hge|Hlt].
  - eexists. split; [lia|]. split; [exact Hnr|]. split; [reflexivity|].
    assert (Hnum' : num = ABS - off) by lia.
    split.
    { split; [split|split].
      - unfold tx_groups_eq; cbn. by rewrite H4, H5, H6.
      - change (0 <= 0 < ABS). lia.
      - unfold first_quad, second_quad in *. cbn.
        apply Forall_app in Hf as [_ Hf].
        apply (Forall_app _ [_; _; _; _] [_; _; _; _]). split; [exact Hf|].
        by repeat constructor.
      - done. }
    split.
    { intros k Hk. rewrite (Hpend k Hk).
      rewrite drop_app_length' by (rewrite length_drop, Hlenk by done; lia).
      unfold tx_pending, first_quad, second_quad. cbn.
      rewrite quad_none, app_nil_r. done. }
    split; [cbn; by rewrite copy_from_length|].
    split; [exact Hcopy|]. done.
  - eexists. split; [lia|]. split; [exact Hnr|]. split; [reflexivity|].
    rewrite (u16_small (off + num)) by lia.
    split.
    { split; [split|split].
      - unfold tx_groups_eq; cbn. done.
      - change (0 <= off + num < ABS). lia.
      - exact Hf.
      - exact Hn. }
    split.
    { intros k Hk. rewrite (Hpend k Hk).
      rewrite drop_app_le by (rewrite length_drop, Hlenk by done; lia).
      rewrite drop_drop.
      unfold tx_pending, first_quad, second_quad. cbn. rewrite E1, E2, E3, E4.
      rewrite <- quad_data by done.
      do 2 f_equal. lia. }
    split; [cbn; by rewrite copy_from_length|].
    split; [exact Hcopy|]. done.
Qed.

Lemma tx_wf_empty st (k : nat) :
  tx_wf ABS st -> left_1st (tx st) = None -> tx_pending k st = [].
Proof.
  intros ([Hg _] & _ & Hn) E.
  unfold tx_pending.
  rewrite (first_quad_null _ Hg) by (by rewrite E).
  rewrite (second_quad_null _ Hg) by (by rewrite (Hn E)).
  by rewrite !quad_none, drop_nil.
Qed.

Lemma tx_wf_nonempty st :
  tx_wf ABS st -> is_Some (left_1st (tx st)) -> (0 < length (tx_pending 0 st))%nat.
Proof.
  intros ([(H1 & _) Ho] & Hf & _) [l E].
  unfold tx_pending, first_quad in *. rewrite E in *.
  apply Forall_cons in Hf as [F1 _]. cbn in F1 |- *.
  rewrite length_app, length_drop. lia.
Qed.

(** The loop of the transmit callback, whatever the queue holds: [r]
    samples are pending, [m] of them are copied, and the zero fill
    that follows starts at element 2(len+r). *)
Lemma transmit_loop_stream fuel : forall target len st,
  tx_wf ABS st -> 0 <= len <= target -> target <= 45 ->
  (Z.to_nat (4 * target) <= length (usb_audio_transmit_buffer st))%nat ->
  (Z.to_nat (target - len) < fuel)%nat ->
  let r := Z.of_nat (length (tx_pending 0 st)) in
  let m := Z.min (target - len) r in
  exists st',
    transmit_loop ABS fuel target len st = Done st' /\
    tx_wf ABS st' /\
    (forall k : nat, (k < 4)%nat ->
       tx_pending k st' = drop (Z.to_nat (target - len)) (tx_pending k st)) /\
    length (usb_audio_transmit_buffer st') = length (usb_audio_transmit_buffer st) /\
    (forall q : nat,
       let mid :=
         if decide (Z.to_nat (4 * len) <= q < Z.to_nat (4 * (len + m)))%nat
         then Some (u16 (tx_pending ((q - Z.to_nat (4 * len)) mod 4) st
                           !!! ((q - Z.to_nat (4 * len)) / 4)%nat))
         else usb_audio_transmit_buffer st !! q in
       usb_audio_transmit_buffer st' !! q
       = if decide (r < target - len /\
                    2 * (len + r) <= Z.of_nat q < 2 * (len + r) + 4 * (target - len - r))
         then (fun _ => 0) <$> mid else mid) /\
    count st' = count st /\ rx st' = rx st /\
    usb_audio_underrun_count st' = usb_audio_underrun_count st.
Proof.
  induction fuel as [|fuel IH]; intros target len st Hwf Hlen Ht Hbuf Hfuel r m; [lia|].
  cbn [transmit_loop].
  assert (Hr0 : 0 <= r) by (unfold r; lia).
  assert (Hm : m = Z.min (target - len) r) by done.
  destruct (Z.ltb_spec len target) as [Hlt|Hge].
  2: { exists st. split; [done|]. split; [done|].
       split; [intros k Hk; by replace (target - len) with 0 by lia|].
       split; [done|]. split; [|done].
       intros q. cbn zeta.
       rewrite (decide_False (P := _ /\ _)) by lia.
       by rewrite decide_False by lia. }
  destruct (left_1st (tx st)) as [l1|] eqn:E1.
  2: { (* the queue is empty: zero fill *)
    assert (Hr : r = 0) by (unfold r; by rewrite (tx_wf_empty st 0 Hwf E1)).
    unfold transmit_iter. rewrite E1.
    rewrite (u32_small (target - len)) by lia.
    eexists. split; [reflexivity|]. split; [exact Hwf|].
    split.
    { intros k Hk. change (tx_pending k (with_buffer _ st)) with (tx_pending k st).
      by rewrite (tx_wf_empty st k Hwf E1), drop_nil. }
    split.
    { cbn [usb_audio_transmit_buffer with_buffer].
      clear. generalize (Z.to_nat (len * 2)). generalize (usb_audio_transmit_buffer st).
      induction (Z.to_nat ((target - len) * 4)) as [|n IHn]; intros b s; [done|].
      cbn [memset_zero]. by rewrite IHn, length_insert. }
    split; [|done].
    intros q. cbn zeta. cbn [usb_audio_transmit_buffer with_buffer].
    rewrite memset_zero_lookup.
    rewrite (decide_False (P := (_ <= q < Z.to_nat (4 * (len + m)))%nat)) by lia.
    destruct (decide (Z.to_nat (len * 2) <= q
                      < Z.to_nat (len * 2) + Z.to_nat ((target - len) * 4))%nat).
    - by rewrite decide_True by lia.
    - by rewrite decide_False by lia. }
  assert (Hp : (0 < length (tx_pending 0 st))%nat).
  { apply tx_wf_nonempty; [done|]. rewrite E1. eauto. }
  destruct (transmit_iter_fifo target len st Hwf ltac:(lia) Ht Hp Hbuf)
    as (num & st1 & Hnum & Hnr & -> & Hwf1 & Hp1 & Hl1 & Hb1 & Hc1 & Hr1 & Hu1).
  destruct (IH target (len + num) st1 Hwf1 ltac:(lia) Ht ltac:(lia) ltac:(lia)) as
    (st' & -> & Hwf' & Hp' & Hl' & Hb' & Hc' & Hr' & Hu').
  exists st'. split; [done|]. split; [done|].
  split.
  { intros k Hk. rewrite (Hp' k Hk), (Hp1 k Hk), drop_drop. f_equal. lia. }
  split; [lia|].
  split; [|split_and!; congruence].
  intros q. cbn zeta in Hb' |- *. rewrite Hb'. clear Hb'.
  assert (Hr1' : Z.of_nat (length (tx_pending 0 st1)) = r - num).
  { rewrite (Hp1 0%nat) by lia. rewrite length_drop. unfold r. lia. }
  rewrite Hr1'.
  set (mid := if decide (Z.to_nat (4 * len) <= q < Z.to_nat (4 * (len + m)))%nat
              then Some (u16 (tx_pending ((q - Z.to_nat (4 * len)) mod 4) st
                                !!! ((q - Z.to_nat (4 * len)) / 4)%nat))
              else usb_audio_transmit_buffer st !! q).
  assert (Hmid :
    (if decide (Z.to_nat (4 * (len + num)) <= q
                < Z.to_nat (4 * (len + num + Z.min (target - (len + num)) (r - num))))%nat
     then Some (u16 (tx_pending ((q - Z.to_nat (4 * (len + num))) mod 4) st1
                       !!! ((q - Z.to_nat (4 * (len + num))) / 4)%nat))
     else usb_audio_transmit_buffer st1 !! q) = mid).
  { unfold mid. rewrite Hb1.
    destruct (decide (Z.to_nat (4 * (len + num)) <= q
                < Z.to_nat (4 * (len + num + Z.min (target - (len + num)) (r - num))))%nat).
    - rewrite decide_True by lia.
      rewrite Hp1 by lia. rewrite lookup_total_drop.
      replace ((q - Z.to_nat (4 * (len + num))) mod 4)%nat
        with ((q - Z.to_nat (4 * len)) mod 4)%nat by lia.
      replace (Z.to_nat num + (q - Z.to_nat (4 * (len + num))) / 4)%nat
        with ((q - Z.to_nat (4 * len)) / 4)%nat by lia.
      done.
    - destruct (decide (Z.to_nat (4 * len) <= q < Z.to_nat (4 * (len + num)))%nat).
      + by rewrite decide_True by lia.
      + by rewrite decide_False by lia. }
  rewrite Hmid.
  destruct (decide (r - num < target - (len + num) /\
              2 * (len + num + (r - num)) <= Z.of_nat q
              < 2 * (len + num + (r - num)) + 4 * (target - (len + num) - (r - num)))).
  - by rewrite decide_True by lia.
  - by rewrite decide_False by lia.
Qed.

Lemma transmit_callback_stream st :
  tx_wf ABS st ->
  let target := if u32 (count st + 1) <? 10 then 44 else 45 in
  (Z.to_nat (4 * target) <= length (usb_audio_transmit_buffer st))%nat ->
  let r := Z.of_nat (length (tx_pending 0 st)) in
  exists st',
    usb_audio_transmit_callback ABS st = Done (target * 8, st') /\
    tx_wf ABS st' /\
    (forall k : nat, (k < 4)%nat ->
       tx_pending k st' = drop (Z.to_nat target) (tx_pending k st)) /\
    (forall q : nat,
       let mid :=
         if decide (q < Z.to_nat (4 * Z.min target r))%nat
         then Some (u16 (tx_pending (q mod 4) st !!! (q / 4)%nat))
         else usb_audio_transmit_buffer st !! q in
       usb_audio_transmit_buffer st' !! q
       = if decide (r < target /\ 2 * r <= Z.of_nat q < 4 * target - 2 * r)
         then (fun _ => 0) <$> mid else mid) /\
    usb_audio_underrun_count st' = usb_audio_underrun_count st.
Proof.
  intros Hwf target Hbuf r. unfold usb_audio_transmit_callback.
  fold target.
  assert (Ht : target = 44 \/ target = 45) by (unfold target; destruct (_ <? _); auto).
  set (c := if u32 (count st + 1) <? 10 then u32 (count st + 1) else 0).
  assert ((if u32 (count st + 1) <? 10 then (u32 (count st + 1), 44) else (0, 45))
          = (c, target)) as ->.
  { unfold c, target. by destruct (_ <? _). }
  destruct (transmit_loop_stream (Z.to_nat (2 * target + 2)) target 0 (with_count c st))
    as (st' & -> & Hwf' & Hp' & Hl' & Hb' & Hc' & Hr' & Hu');
    [exact Hwf|lia|lia|exact Hbuf|lia|].
  exists st'. split; [done|]. split; [done|]. split; [|split; [|done]].
  - intros k Hk. rewrite (Hp' k Hk). by rewrite Z.sub_0_r.
  - intros q. cbn zeta in Hb' |- *. rewrite Hb'.
    change (tx_pending 0 (with_count c st)) with (tx_pending 0 st). fold r.
    change (Z.to_nat (4 * 0)) with 0%nat. rewrite !Nat.sub_0_r, !Z.sub_0_r, !Z.add_0_l.
    change (usb_audio_transmit_buffer (with_count c st))
      with (usb_audio_transmit_buffer st).
    change (tx_pending (q mod 4) (with_count c st)) with (tx_pending (q mod 4) st).
    destruct (decide (r < target /\ 2 * r <= Z.of_nat q < 2 * r + 4 * (target - r)));
      [rewrite (decide_True (P := r < target /\ _)) by lia
      |rewrite (decide_False (P := r < target /\ _)) by lia];
      (destruct (decide (0 <= q < Z.to_nat (4 * Z.min target r))%nat);
       [by rewrite decide_True by lia|by rewrite decide_False by lia]).
Qed.

(** X7.  The transmit queue is a first-in first-out stream: when the
    queue holds at least the [target] frames of a packet, the callback
    writes exactly the next [target] samples of each channel into the
    transmit buffer, interleaved left1, right1, left2, right2 as
    16-bit values, also across the boundary between the two queued
    groups, and removes just these samples from the queue. *)
Theorem tx_stream_in_order st :
  tx_wf ABS st ->
  let target := if u32 (count st + 1) <? 10 then 44 else 45 in
  (Z.to_nat target <= length (tx_pending 0 st))%nat ->
  (Z.to_nat (4 * target) <= length (usb_audio_transmit_buffer st))%nat ->
  exists st',
    usb_audio_transmit_callback ABS st = Done (target * 8, st') /\
    (forall i k : nat, (i < Z.to_nat target)%nat -> (k < 4)%nat ->
       usb_audio_transmit_buffer st' !! (4 * i + k)%nat
       = Some (u16 (tx_pending k st !!! i))) /\
    (forall k : nat, (k < 4)%nat ->
       tx_pending k st' = drop (Z.to_nat target) (tx_pending k st)) /\
    tx_wf ABS st' /\
    usb_audio_underrun_count st' = usb_audio_underrun_count st.
Proof.
  intros Hwf target Hp Hbuf.
  destruct (transmit_callback_stream st Hwf Hbuf) as (st' & H & Hwf' & Hp' & Hb' & Hu').
  fold target in H, Hp', Hb'.
  exists st'. split; [done|]. split; [|done].
  intros i k Hi Hk. specialize (Hb' (4 * i + k)%nat). cbn zeta in Hb'. rewrite Hb'.
  rewrite decide_False by lia. rewrite decide_True by lia.
  replace ((4 * i + k) mod 4)%nat with k by lia.
  replace ((4 * i + k) / 4)%nat with i by lia. done.
Qed.

(** X8.  The queue running dry in mid-packet: with [r] frames left,
    0 < r < target, the callback still returns the full byte count,
    empties the queue and leaves the underrun counter alone.  The zero
    fill starts at element 2r of the uint16_t buffer, not at 4r where
    the copied samples end: elements 2r to 4 target - 2r - 1 are zero,
    which wipes out the second half of the frames just copied, and the
    last 2r elements of the packet are not cleared, so those from 4r on
    still hold the previous packet's data. *)
Theorem tx_mid_packet_starvation st :
  tx_wf ABS st ->
  let target := if u32 (count st + 1) <? 10 then 44 else 45 in
  let r := length (tx_pending 0 st) in
  (0 < r < Z.to_nat target)%nat ->
  (Z.to_nat (4 * target) <= length (usb_audio_transmit_buffer st))%nat ->
  exists st',
    usb_audio_transmit_callback ABS st = Done (target * 8, st') /\
    (forall k : nat, (k < 4)%nat -> tx_pending k st' = []) /\
    usb_audio_underrun_count st' = usb_audio_underrun_count st /\
    forall q : nat,
      usb_audio_transmit_buffer st' !! q
      = if decide (q < 2 * r)%nat
        then Some (u16 (tx_pending (q mod 4) st !!! (q / 4)%nat))
        else if decide (q < Z.to_nat (4 * target) - 2 * r)%nat then Some 0
        else if decide (q < 4 * r)%nat
        then Some (u16 (tx_pending (q mod 4) st !!! (q / 4)%nat))
        else usb_audio_transmit_buffer st !! q.
Proof.
  intros Hwf target r Hr Hbuf.
  pose proof (tx_wf_second_length st) as Hsec.
  destruct (transmit_callback_stream st Hwf Hbuf) as (st' & H & Hwf' & Hp' & Hb' & Hu').
  fold target in H, Hp', Hb'. fold r in Hb'.
  assert (Ht : target = 44 \/ target = 45) by (unfold target; destruct (_ <? _); auto).
  exists st'. split; [done|]. split; [|split; [done|]].
  - intros k Hk. rewrite (Hp' k Hk). apply drop_ge.
    destruct (left_1st (tx st)) as [l1|] eqn:E1.
    2: { rewrite (tx_wf_empty st k Hwf E1). cbn. lia. }
    destruct (tx_wf_first st Hwf ltac:(lia)) as (l & r1 & l2 & r2 & Hq & L1 & L2 & L3 & L4).
    unfold r, tx_pending in *. rewrite Hq in *.
    rewrite length_app, length_drop in *. rewrite (Hsec k Hwf Hk).
    destruct k as [|[|[|[|k]]]]; cbn in *; lia.
  - intros q. specialize (Hb' q). cbn zeta in Hb'. rewrite Hb'.
    destruct (decide (q < 2 * r)%nat).
    { rewrite decide_False by lia. by rewrite decide_True by lia. }
    destruct (decide (q < Z.to_nat (4 * target) - 2 * r)%nat).
    { rewrite decide_True by lia.
      destruct (decide (q < Z.to_nat (4 * Z.min target (Z.of_nat r)))%nat); [done|].
      destruct (lookup_lt_is_Some_2 (usb_audio_transmit_buffer st) q) as [v ->];
        [lia|done]. }
    rewrite decide_False by lia.
    destruct (decide (q < 4 * r)%nat).
    + by rewrite decide_True by lia.
    + by rewrite decide_False by lia.
Qed.

Lemma silence_data o p :
  match fst (silence ABS o p) with
  | Some b =>
      data b = match o with
               | Some b0 => data b0
               | None => replicate (Z.to_nat ABS) 0
               end
  | None => o = None
  end.
Proof.
  unfold silence. destruct o as [b|]; [done|].
  by destruct (allocate p) as [[b|] p'].
Qed.

Lemma tx_pending_eq k st off q1 q2 :
  offset_1st (tx st) = off -> first_quad (tx st) = q1 -> second_quad (tx st) = q2 ->
  tx_pending k st = drop (Z.to_nat off) (block_data (q1 !!! k)) ++ block_data (q2 !!! k).
Proof. by intros <- <- <-. Qed.

Lemma silence_available_cons o os p :
  silence_available (o :: os) p
  = negb (is_null (fst (silence ABS o p)))
    && silence_available os (snd (silence ABS o p)).
Proof.
  unfold silence, allocate. destruct o as [b|]; [done|].
  cbn [silence_available]. by destruct (pool_oracle p (pool_calls p)).
Qed.

(** X9.  AudioOutputUSB::update() with the interface selected and
    full-size blocks from upstream.  Every missing channel costs one
    allocation.  When the pool serves them all, each missing channel
    is fed a block of silence and the four blocks are queued: appended
    to the queued stream when the second queue entry is free, and when
    the queue is full the oldest group is discarded, sent part and
    unsent part alike, so that the queue holds the former second group
    followed by the new one.  When an allocation fails the queue is
    left as it was.  In every case the queue stays well-formed and the
    transmit buffer is not touched. *)
Theorem tx_update_enqueue rw st :
  tx_wf ABS st ->
  usb_audio_transmit_setting st <> 0 ->
  (forall k : nat, (k < 4)%nat -> full_size ABS (rw k)) ->
  let st' := AudioOutputUSB_update ABS rw st in
  tx_wf ABS st' /\
  usb_audio_transmit_buffer st' = usb_audio_transmit_buffer st /\
  if silence_available (rw <$> seq 0 4) (pool st)
  then
    left_2nd (tx st) = None /\
    (forall k : nat, (k < 4)%nat ->
       tx_pending k st' = tx_pending k st ++ fed ABS rw k)
    \/
    is_Some (left_2nd (tx st)) /\
    (forall k : nat, (k < 4)%nat ->
       tx_pending k st' = block_data (second_quad (tx st) !!! k) ++ fed ABS rw k)
  else tx st' = tx st.
Proof.
  intros Hwf Hs Hrw st'.
  assert (Hinv' : tx_inv ABS st') by (apply tx_update_inv; [done|apply Hwf]).
  pose proof (fun k => tx_wf_empty st k Hwf) as Hempty.
  destruct Hwf as ([Hg Ho] & Hf & Hn).
  change (rw <$> seq 0 4) with [rw 0%nat; rw 1%nat; rw 2%nat; rw 3%nat].
  rewrite !silence_available_cons. cbn [silence_available].
  unfold st' in *. clear st'. unfold AudioOutputUSB_update in *.
  destruct (Z.eqb_spec (usb_audio_transmit_setting st) 0) as [|_]; [done|].
  pose proof (silence_data (rw 0%nat) (pool st)) as D1.
  destruct (silence ABS (rw 0%nat) (pool st)) as [o1 p1]. cbn [fst snd] in *.
  pose proof (silence_data (rw 1%nat) p1) as D2.
  destruct (silence ABS (rw 1%nat) p1) as [o2 p2]. cbn [fst snd] in *.
  pose proof (silence_data (rw 2%nat) p2) as D3.
  destruct (silence ABS (rw 2%nat) p2) as [o3 p3]. cbn [fst snd] in *.
  pose proof (silence_data (rw 3%nat) p3) as D4.
  destruct (silence ABS (rw 3%nat) p3) as [o4 p4]. cbn [fst snd] in *.
  destruct o1 as [b1|]; [|done].
  destruct o2 as [b2|]; [|done].
  destruct o3 as [b3|]; [|done].
  destruct o4 as [b4|]; [|done].
  cbn [is_null orb negb andb] in *.
  assert (Hfed : forall k : nat, (k < 4)%nat ->
            block_data ([Some b1; Some b2; Some b3; Some b4] !!! k) = fed ABS rw k).
  { intros k Hk. unfold fed.
    destruct k as [|[|[|[|k]]]]; [..|lia]; cbn; by destruct (rw _). }
  assert (Hfull : Forall (full_size ABS) [Some b1; Some b2; Some b3; Some b4]).
  { pose proof (Hrw 0%nat ltac:(lia)) as F1. pose proof (Hrw 1%nat ltac:(lia)) as F2.
    pose proof (Hrw 2%nat ltac:(lia)) as F3. pose proof (Hrw 3%nat ltac:(lia)) as F4.
    repeat constructor; cbn.
    - rewrite D1. destruct (rw 0%nat); [done|by rewrite length_replicate].
    - rewrite D2. destruct (rw 1%nat); [done|by rewrite length_replicate].
    - rewrite D3. destruct (rw 2%nat); [done|by rewrite length_replicate].
    - rewrite D4. destruct (rw 3%nat); [done|by rewrite length_replicate]. }
  apply Forall_app in Hf as [Hf1 Hf2].
  destruct (left_1st (tx st)) as [l1|] eqn:E1; cbn [is_null] in *.
  2: { (* empty queue *)
    pose proof (Hn eq_refl) as E2.
    split; [split; [done|split]|split; [done|]].
    - unfold first_quad, second_quad in *. cbn.
      apply (Forall_app _ [_; _; _; _] [_; _; _; _]). split; [exact Hfull|exact Hf2].
    - cbn. by rewrite E2.
    - left. split; [done|]. intros k Hk.
      rewrite (Hempty k eq_refl). cbn [app].
      assert (Hq2 : second_quad (tx st) = [None; None; None; None])
        by (apply (second_quad_null _ Hg); by rewrite E2).
      rewrite (tx_pending_eq k _ 0 [Some b1; Some b2; Some b3; Some b4]
                 [None; None; None; None]); [|done|done|exact Hq2].
      rewrite quad_none, app_nil_r. by apply Hfed. }
  destruct (left_2nd (tx st)) as [l2|] eqn:E2; cbn [is_null] in *.
  2: { (* room in the second entry *)
    split; [split; [done|split]|split; [done|]].
    - unfold first_quad, second_quad in *. cbn.
      apply (Forall_app _ [_; _; _; _] [_; _; _; _]). split; [|exact Hfull].
      exact Hf1.
    - cbn. by rewrite E1.
    - left. split; [done|]. intros k Hk.
      assert (Hq2 : second_quad (tx st) = [None; None; None; None])
        by (apply (second_quad_null _ Hg); by rewrite E2).
      rewrite (tx_pending_eq k _ (offset_1st (tx st)) (first_quad (tx st))
                 [Some b1; Some b2; Some b3; Some b4]); [|done|done|done].
      rewrite (tx_pending_eq k st (offset_1st (tx st)) (first_quad (tx st))
                 [None; None; None; None]); [|done|done|exact Hq2].
      rewrite quad_none, app_nil_r. f_equal. by apply Hfed. }
  (* the queue is full: the oldest group goes *)
  split; [split; [done|split]|split; [done|]].
  - unfold first_quad, second_quad in *. cbn.
    apply (Forall_app _ [_; _; _; _] [_; _; _; _]). split; [|exact Hfull].
    by rewrite <- E2.
  - cbn. done.
  - right. split; [eauto|]. intros k Hk.
    rewrite (tx_pending_eq k _ 0 (second_quad (tx st))
               [Some b1; Some b2; Some b3; Some b4]);
      [|done|unfold first_quad, second_quad; cbn; by rewrite E2|done].
    f_equal. by apply Hfed.
Qed.

(** X10.  The interface deselected (alternate setting 0): the update
    pass empties the transmit queue and releases every queued block
    and every block it was handed, and the next transmit callback
    sends a packet of zeros. *)
Theorem tx_update_deselected rw st :
  usb_audio_transmit_setting st = 0 ->
  (Z.to_nat (4 * 45) <= length (usb_audio_transmit_buffer st))%nat ->
  let st1 := AudioOutputUSB_update ABS rw st in
  let target := if u32 (count st + 1) <? 10 then 44 else 45 in
  tx st1 = Tx None None None None None None None None 0 /\
  pool_released (pool st1)
    ≡ₚ block_ids (rw <$> seq 0 4) ++ block_ids (first_quad (tx st))
       ++ block_ids (second_quad (tx st)) ++ pool_released (pool st) /\
  exists st2,
    usb_audio_transmit_callback ABS st1 = Done (target * 8, st2) /\
    forall q : nat, (q < Z.to_nat (4 * target))%nat ->
      usb_audio_transmit_buffer st2 !! q = Some 0.
Proof.
  intros Hs Hbuf st1 target.
  assert (E : st1 = with_tx (Tx None None None None None None None None 0)
    (with_pool
       (release_opt (right2_2nd (tx st)) (release_opt (right2_1st (tx st))
        (release_opt (left2_2nd (tx st)) (release_opt (left2_1st (tx st))
        (release_opt (right_2nd (tx st)) (release_opt (right_1st (tx st))
        (release_opt (left_2nd (tx st)) (release_opt (left_1st (tx st))
        (release_opt (rw 3%nat) (release_opt (rw 2%nat)
        (release_opt (rw 1%nat) (release_opt (rw 0%nat) (pool st))))))))))))) st)).
  { unfold st1, AudioOutputUSB_update. by rewrite Hs. }
  assert (Ht : target = 44 \/ target = 45) by (unfold target; destruct (_ <? _); auto).
  split; [by rewrite E|]. split.
  { rewrite E. cbn [pool with_tx with_pool]. rewrite !released_release_opt.
    change (block_ids (rw <$> seq 0 4))
      with (block_ids [rw 0%nat; rw 1%nat; rw 2%nat; rw 3%nat]).
    unfold first_quad, second_quad.
    rewrite !(block_ids_cons _ (_ :: _)).
    apply Permutation_count_occ with (eq_dec := Nat.eq_dec). intros x.
    repeat rewrite count_occ_app. lia. }
  assert (Hwf : tx_wf ABS st1).
  { rewrite E. split; [split; [done|cbn; lia]|split; [|done]].
    unfold first_quad, second_quad. cbn. by repeat constructor. }
  assert (Hb1 : usb_audio_transmit_buffer st1 = usb_audio_transmit_buffer st)
    by (by rewrite E).
  assert (Hc1 : count st1 = count st) by (by rewrite E).
  destruct (transmit_callback_stream st1 Hwf) as (st2 & H & Hwf2 & Hp2 & Hb2 & _).
  { rewrite Hb1, Hc1. fold target. lia. }
  rewrite Hc1 in H, Hb2. fold target in H, Hb2.
  exists st2. split; [exact H|].
  assert (Hr : length (tx_pending 0 st1) = 0%nat).
  { by rewrite (tx_wf_empty st1 0 Hwf) by (by rewrite E). }
  intros q Hq. specialize (Hb2 q). cbn zeta in Hb2. rewrite Hb2, Hr.
  rewrite decide_True by lia. rewrite decide_False by lia.
  destruct (lookup_lt_is_Some_2 (usb_audio_transmit_buffer st1) q) as [v ->];
    [rewrite Hb1; lia|done].
Qed.

End USB_Transmit_Stream.

(** ** The wire format *)

Section USB_Wire_Format.

Import USB.

Local Open Scope Z_scope.

Lemma u16_range z : 0 <= u16 z < 65536.
Proof. unfold u16. lia. Qed.

Lemma unpack_lo a b : 0 <= a < 65536 -> Z.land (Z.lor a (Z.shiftl b 16)) 65535 = a.
Proof.
  intros Ha. rewrite Z.land_lor_distr_l.
  change 65535 with (Z.ones 16). rewrite !Z.land_ones by lia.
  rewrite Z.shiftl_mul_pow2 by lia. rewrite Z_mod_mult.
  rewrite Z.lor_0_r. apply Z.mod_small. change (2 ^ 16) with 65536. lia.
Qed.

Lemma unpack_hi a b : 0 <= a < 65536 -> Z.shiftr (Z.lor a (Z.shiftl b 16)) 16 = b.
Proof.
  intros Ha. rewrite Z.shiftr_lor.
  rewrite Z.shiftr_shiftl_l by lia. change (16 - 16) with 0. rewrite Z.shiftl_0_r.
  rewrite Z.shiftr_div_pow2 by lia. change (2 ^ 16) with 65536.
  rewrite Z.div_small by lia. done.
Qed.

Lemma int16_u16 z : in_int16 z -> int16 (u16 z) = z.
Proof. unfold in_int16, int16, u16. lia. Qed.

Lemma copy_to_ext len : forall src src' (s k : nat) l r l2 r2,
  (forall i : nat, (i < 2 * len)%nat -> src !!! (s + i)%nat = src' !!! (s + i)%nat) ->
  copy_to_buffers_4ch len src s k l r l2 r2
  = copy_to_buffers_4ch len src' s k l r l2 r2.
Proof.
  induction len as [|len IH]; intros src src' s k l r l2 r2 H; [done|].
  cbn [copy_to_buffers_4ch].
  pose proof (H 0%nat ltac:(lia)) as H0. rewrite Nat.add_0_r in H0.
  pose proof (H 1%nat ltac:(lia)) as H1.
  rewrite H0, H1. apply IH. intros i Hi.
  replace (s + 2 + i)%nat with (s + (2 + i))%nat by lia. apply H. lia.
Qed.

Lemma u16_u16 z : u16 (u16 z) = u16 z.
Proof. unfold u16. lia. Qed.

Lemma copy_from_word len k L R L2 R2 buf (i : nat) :
  (i < len)%nat -> (4 * len <= length buf)%nat ->
  let src := as_uint32 (copy_from_buffers_4ch len 0 k L R L2 R2 buf) in
  src !! (2 * i)%nat
  = Some (Z.lor (u16 (L !!! (k + i)%nat)) (Z.shiftl (u16 (R !!! (k + i)%nat)) 16)) /\
  src !! (2 * i + 1)%nat
  = Some (Z.lor (u16 (L2 !!! (k + i)%nat)) (Z.shiftl (u16 (R2 !!! (k + i)%nat)) 16)).
Proof.
  intros Hi Hl src. unfold src.
  assert (Hel : forall (q c : nat), (c < 4)%nat -> q = (4 * i + c)%nat ->
            copy_from_buffers_4ch len 0 k L R L2 R2 buf !!! q
            = u16 (([L; R; L2; R2] !!! c) !!! (k + i)%nat)).
  { intros q c Hc ->. apply list_lookup_total_correct.
    rewrite copy_from_lookup by lia. rewrite decide_True by lia.
    replace ((4 * i + c - 2 * 0) mod 4)%nat with c by lia.
    replace (k + (4 * i + c - 2 * 0) / 4)%nat with (k + i)%nat by lia. done. }
  split.
  - rewrite as_uint32_lookup by (rewrite copy_from_length; lia).
    rewrite (Hel _ 0%nat) by lia. rewrite (Hel _ 1%nat) by lia.
    by rewrite !u16_u16.
  - rewrite as_uint32_lookup by (rewrite copy_from_length; lia).
    rewrite (Hel _ 2%nat) by lia. rewrite (Hel _ 3%nat) by lia.
    by rewrite !u16_u16.
Qed.

(** X11.  The wire format round trip: what copy_from_buffers_4ch
    packs into the transmit buffer, read back as 32-bit words by
    copy_to_buffers_4ch, yields the original samples of the four
    channels, for samples in the int16_t range. *)
Theorem usb_copy_round_trip len k k' L R L2 R2 buf dl dr dl2 dr2 :
  Forall in_int16 L -> Forall in_int16 R -> Forall in_int16 L2 -> Forall in_int16 R2 ->
  (k + len <= length L)%nat -> (k + len <= length R)%nat ->
  (k + len <= length L2)%nat -> (k + len <= length R2)%nat ->
  (4 * len <= length buf)%nat ->
  (k' + len <= length dl)%nat -> (k' + len <= length dr)%nat ->
  (k' + len <= length dl2)%nat -> (k' + len <= length dr2)%nat ->
  copy_to_buffers_4ch len
    (as_uint32 (copy_from_buffers_4ch len 0 k L R L2 R2 buf)) 0 k' dl dr dl2 dr2
  = (splice k' (take len (drop k L)) dl, splice k' (take len (drop k R)) dr,
     splice k' (take len (drop k L2)) dl2, splice k' (take len (drop k R2)) dr2).
Proof.
  intros FL FR FL2 FR2 HL HR HL2 HR2 Hbuf Hdl Hdr Hdl2 Hdr2.
  set (src := as_uint32 (copy_from_buffers_4ch len 0 k L R L2 R2 buf)).
  set (fs := (fun i : nat =>
                (Z.lor (u16 (L !!! (k + i)%nat)) (Z.shiftl (u16 (R !!! (k + i)%nat)) 16),
                 Z.lor (u16 (L2 !!! (k + i)%nat)) (Z.shiftl (u16 (R2 !!! (k + i)%nat)) 16)))
             <$> seq 0 len).
  assert (Hfs : forall i : nat, (i < len)%nat ->
            fs !! i = Some
              (Z.lor (u16 (L !!! (k + i)%nat)) (Z.shiftl (u16 (R !!! (k + i)%nat)) 16),
               Z.lor (u16 (L2 !!! (k + i)%nat)) (Z.shiftl (u16 (R2 !!! (k + i)%nat)) 16))).
  { intros i Hi. unfold fs. rewrite list_lookup_fmap, lookup_seq_lt by lia. done. }
  assert (Hlen : length fs = len) by (unfold fs; by rewrite length_fmap, length_seq).
  rewrite (copy_to_ext len src (frame_words fs)).
  2: { intros q Hq. cbn [Nat.add].
       destruct (copy_from_word len k L R L2 R2 buf (q / 2) ltac:(lia) Hbuf) as [W1 W2].
       destruct (frame_words_lookup fs (q / 2) _ (Hfs (q / 2)%nat ltac:(lia))) as [F1 F2].
       fold src in W1, W2. cbn [fst snd] in F1, F2.
       destruct (Nat.even q) eqn:E.
       - apply Nat.even_spec in E as [m ->].
         replace (2 * m / 2)%nat with m in * by lia.
         by rewrite (list_lookup_total_correct _ _ _ W1),
                    (list_lookup_total_correct _ _ _ F1).
       - assert (Ho : Nat.odd q = true) by (by rewrite <- Nat.negb_even, E).
         apply Nat.odd_spec in Ho as [m ->].
         replace ((2 * m + 1) / 2)%nat with m in * by lia.
         by rewrite (list_lookup_total_correct _ _ _ W2),
                    (list_lookup_total_correct _ _ _ F2). }
  change 0%nat with (2 * 0)%nat at 1.
  rewrite (copy_to_buffers_spec len fs 0 k' dl dr dl2 dr2) by lia.
  rewrite drop_0, take_ge by lia.
  assert (Hch : forall (c : nat) (X : list Z), (c < 4)%nat ->
            [L; R; L2; R2] !! c = Some X ->
            spec_channel c fs = take len (drop k X)).
  { intros c X Hc HX.
    assert (FX : Forall in_int16 X).
    { destruct c as [|[|[|[|c]]]]; cbn in HX; [..|lia]; by injection HX as <-. }
    assert (HXl : (k + len <= length X)%nat).
    { destruct c as [|[|[|[|c]]]]; cbn in HX; [..|lia]; by injection HX as <-. }
    apply list_eq. intros i. unfold spec_channel.
    rewrite list_lookup_fmap.
    destruct (decide (i < len)%nat) as [Hi|Hi].
    - rewrite (Hfs i Hi). rewrite lookup_take_lt, lookup_drop by lia.
      destruct (lookup_lt_is_Some_2 X (k + i)) as [x Hx]; [lia|].
      rewrite Hx. cbn [fmap option_fmap option_map]. f_equal.
      assert (Hin : in_int16 x) by (by eapply Forall_lookup_1).
      destruct c as [|[|[|[|c]]]]; cbn in HX; [..|lia]; injection HX as <-;
        cbn [spec_sample fst snd];
        rewrite ?unpack_lo, ?unpack_hi by apply u16_range;
        rewrite (list_lookup_total_correct _ _ _ Hx); by apply int16_u16.
    - rewrite lookup_ge_None_2 by lia.
      rewrite lookup_take_ge by lia. done. }
  rewrite (Hch 0%nat L), (Hch 1%nat R), (Hch 2%nat L2), (Hch 3%nat R2) by (done || lia).
  done.
Qed.

End USB_Wire_Format.

(** ** The feedback endpoint *)

Section Feedback_Properties.

Import USB.

Local Open Scope Z_scope.

Lemma land_255 z : Z.land z 255 = z mod 256.
Proof. change 255 with (Z.ones 8). by rewrite Z.land_ones by lia. Qed.

(** X12.  The feedback endpoint: at either bus speed the bytes handed
    to the endpoint (3 at full speed, 4 at high speed) carry the whole
    feedback word, the accumulator shifted right by 10 or by 8, with
    no high bits lost; the first value reported after
    usb_audio_configure() is 44.1 samples per frame rounded down, in
    10.14 respectively 16.16 fixed point. *)
Theorem sync_feedback_exact usb_high_speed st sy :
  0 <= feedback_accumulator st < 4294967296 ->
  let sy1 := configure_sync usb_high_speed sy in
  let frac := if usb_high_speed =? 0 then 10 else 8 in
  length (snd (sync_event st sy1)) = (if usb_high_speed =? 0 then 3%nat else 4%nat) /\
  usb_audio_sync_feedback (fst (sync_event st sy1))
  = feedback_accumulator st / 2 ^ frac /\
  le_value (snd (sync_event st sy1)) = feedback_accumulator st / 2 ^ frac /\
  (let v := usb_audio_sync_feedback (fst (sync_event (usb_audio_configure st) sy1)) in
   10 * v <= 441 * 2 ^ (24 - frac) < 10 * (v + 1)).
Proof.
  intros Hacc sy1 frac. unfold sy1, frac, configure_sync, sync_event.
  destruct (usb_high_speed =? 0);
    cbn [usb_audio_sync_rshift usb_audio_sync_nbytes fst snd usb_audio_sync_feedback];
    rewrite Z.shiftr_div_pow2 by lia.
  - split; [done|]. split; [done|]. split.
    + change (Z.to_nat 3) with 3%nat.
      cbn [bytes_of seq fmap list_fmap le_value foldr Z.of_nat Pos.of_succ_nat
           Pos.succ Z.mul].
      rewrite !land_255, !Z.shiftr_div_pow2 by lia.
      change (2 ^ 10) with 1024. change (2 ^ 0) with 1. change (2 ^ 8) with 256.
      change (2 ^ 16) with 65536. lia.
    + split; [vm_compute; discriminate|vm_compute; reflexivity].
  - split; [done|]. split; [done|]. split.
    + change (Z.to_nat 4) with 4%nat.
      cbn [bytes_of seq fmap list_fmap le_value foldr Z.of_nat Pos.of_succ_nat
           Pos.succ Z.mul].
      rewrite !land_255, !Z.shiftr_div_pow2 by lia.
      change (2 ^ 8) with 256. change (2 ^ 0) with 1.
      change (2 ^ 16) with 65536. change (2 ^ 24) with 16777216. lia.
    + split; [vm_compute; discriminate|vm_compute; reflexivity].
Qed.

(** usb_audio_configure() run to its last line is two steps of the
    model: the configuration proper, then the transmit callback that
    the closing tx_event(NULL) runs; the feedback word it leaves is the
    accumulator shifted for the bus speed. *)
Lemma usb_audio_configure_events_steps ABS usb_high_speed st sy len st' sy' :
  usb_audio_configure_events ABS usb_high_speed st sy = Done (len, st', sy') ->
  step ABS st (usb_audio_configure st) /\
  step ABS (usb_audio_configure st) st' /\
  usb_audio_sync_feedback sy'
  = Z.shiftr (feedback_accumulator st') (if usb_high_speed =? 0 then 10 else 8).
Proof.
  unfold usb_audio_configure_events, tx_event.
  destruct (usb_audio_transmit_callback ABS (usb_audio_configure st))
    as [[n s]| |] eqn:E; intros H; [|discriminate|discriminate].
  injection H as <- <- <-.
  split; [constructor|]. split; [eapply step_transmit; exact E|].
  unfold configure_sync, sync_event. by destruct (usb_high_speed =? 0).
Qed.

End Feedback_Properties.

(** ** Feature unit requests *)

Section Feature_Properties.
Import Feature.
Local Open Scope Z_scope.
Variable FEATURE_MAX_VOLUME : Z.
Local Abbreviation MAXV := FEATURE_MAX_VOLUME.

Lemma u8_small z : 0 <= z < 256 -> u8 z = z.
Proof. intros. unfold u8. apply Z.mod_small. lia. Qed.

Lemma land_255_small z : 0 <= z < 256 -> Z.land z 255 = z.
Proof.
  intros. change 255 with (Z.ones 8). rewrite Z.land_ones by lia.
  apply Z.mod_small. change (2 ^ 8) with 256. lia.
Qed.

Lemma shiftr_8_small z : 0 <= z < 256 -> Z.shiftr z 8 = 0.
Proof.
  intros. rewrite Z.shiftr_div_pow2 by lia. change (2 ^ 8) with 256.
  apply Z.div_small. lia.
Qed.

(** X13.  Feature unit round trip: a SET_CUR request for mute or
    volume stores the byte sent and raises the change flag, and a
    following GET_CUR for the same control returns that byte (with a
    zero high byte for the volume) and the matching reply length. *)
Theorem feature_set_get_round_trip features stp_set stp_get buf data datalen cs :
  cs = 1 \/ cs = 2 ->
  bmRequestType (setup_of stp_set) = 33 ->
  bRequest (setup_of stp_set) = 1 ->
  bCS (setup_of stp_set) = cs ->
  bmRequestType (setup_of stp_get) = 161 ->
  bRequest (setup_of stp_get) = 129 ->
  bCS (setup_of stp_get) = cs ->
  0 <= buf !!! 0%nat < 256 ->
  (2 <= length data)%nat ->
  exists features' data',
    usb_audio_set_feature features stp_set buf = (1, features') /\
    change features' = 1 /\
    usb_audio_get_feature MAXV features' stp_get data datalen = (1, data', cs) /\
    data' !! 0%nat = Some (buf !!! 0%nat) /\
    (cs = 2 -> data' !! 1%nat = Some 0) /\
    length data' = length data.
Proof.
  intros Hcs Ht Hr Hc Ht' Hr' Hc' Hb Hl.
  unfold usb_audio_set_feature, usb_audio_get_feature.
  rewrite Ht, Hr, Hc, Ht', Hr', Hc'.
  destruct Hcs as [-> | ->]; cbn [Z.eqb Pos.eqb mute volume change];
    eexists _, _; (split; [reflexivity|]); (split; [reflexivity|]);
    (split; [reflexivity|]); cbn [mute volume change].
  - rewrite list_lookup_insert_eq by lia. rewrite u8_small by lia.
    split; [done|]. split; [by intros|]. by rewrite length_insert.
  - rewrite (shiftr_8_small (buf !!! 0%nat)), (land_255_small (buf !!! 0%nat)) by lia.
    change (Z.land 0 255) with 0.
    rewrite list_lookup_insert_ne by lia.
    rewrite !list_lookup_insert_eq by (rewrite ?length_insert; lia).
    rewrite !u8_small by lia.
    split; [done|]. split; [done|]. by rewrite !length_insert.
Qed.

(** X14.  usb_audio_get_feature serves class-specific interface GET
    requests (0xA1) only, for mute with any request code and for
    volume with GET_CUR, GET_MIN, GET_MAX and GET_RES; it then writes
    the first one or two bytes of the reply and nothing else.  Every
    other request returns 0 and leaves the reply buffer and its
    length alone. *)
Theorem get_feature_served features stp data datalen :
  let setup := setup_of stp in
  let '(ret, data', datalen') :=
    usb_audio_get_feature MAXV features stp data datalen in
  (ret = 1 /\
   bmRequestType setup = 161 /\
   (bCS setup = 1 /\ datalen' = 1 \/
    bCS setup = 2 /\ 129 <= bRequest setup <= 132 /\ datalen' = 2) /\
   length data' = length data /\
   (forall q : nat, (Z.to_nat datalen' <= q)%nat -> data' !! q = data !! q)) \/
  (ret = 0 /\
   ~ (bmRequestType setup = 161 /\
      (bCS setup = 1 \/ bCS setup = 2 /\ 129 <= bRequest setup <= 132)) /\
   data' = data /\ datalen' = datalen).
Proof.
  intros setup. unfold usb_audio_get_feature. fold setup.
  repeat (match goal with
          | |- context [if ?a =? ?b then _ else _] => destruct (Z.eqb_spec a b)
          end);
    try (right; split_and!; [done|lia|done|done]);
    left; split_and!; try done; try lia;
    rewrite ?length_insert; try done;
    intros q Hq; rewrite !list_lookup_insert_ne by lia; done.
Qed.

(** X15.  usb_audio_set_feature serves SET_CUR for mute and volume on
    class-specific interface requests (0x21) only: it stores the first
    data byte, unchecked against the volume range, and raises the
    change flag.  Every other request returns 0 and changes
    nothing. *)
Theorem set_feature_served features stp buf :
  let setup := setup_of stp in
  let '(ret, features') := usb_audio_set_feature features stp buf in
  (ret = 1 /\
   bmRequestType setup = 33 /\ bRequest setup = 1 /\
   change features' = 1 /\
   (bCS setup = 1 /\ mute features' = buf !!! 0%nat /\ volume features' = volume features \/
    bCS setup = 2 /\ volume features' = buf !!! 0%nat /\ mute features' = mute features)) \/
  (ret = 0 /\
   ~ (bmRequestType setup = 33 /\ bRequest setup = 1 /\ (bCS setup = 1 \/ bCS setup = 2)) /\
   features' = features).
Proof.
  intros setup. unfold usb_audio_set_feature. fold setup.
  repeat (match goal with
          | |- context [if ?a =? ?b then _ else _] => destruct (Z.eqb_spec a b)
          end);
    try (right; split_and!; [done|lia|done]);
    left; split_and!; try done; cbn; auto.
Qed.

End Feature_Properties.

Lemma feature_set_get_round_trip_witness :
  exists features' data',
    Feature.usb_audio_set_feature (Feature.features_init 255)
      (Feature.feature_request 33 1 2) [200%Z] = (1%Z, features') /\
    Feature.change features' = 1%Z /\
    Feature.usb_audio_get_feature 255 features'
      (Feature.feature_request 161 129 2) [9%Z; 9%Z] 0 = (1%Z, data', 2%Z) /\
    data' !! 0%nat = Some 200%Z /\
    (2%Z = 2%Z -> data' !! 1%nat = Some 0%Z) /\
    length data' = 2%nat.
Proof.
  apply (feature_set_get_round_trip 255 (Feature.features_init 255)
           (Feature.feature_request 33 1 2) (Feature.feature_request 161 129 2)
           [200%Z] [9%Z; 9%Z] 0%Z 2%Z);
    first [ by right | reflexivity | (cbn; lia) ].
Defined.

(** ** More concrete runs *)

Section MoreRuns.

Import USB.
Import Feature.

Local Open Scope Z_scope.

Lemma started_tx_inv : tx_inv 128 (started plentiful_pool).
Proof. split; [by repeat split|cbn; lia]. Defined.

Lemma started_rx_reachable : rx_reachable 128 (started plentiful_pool).
Proof.
  unfold started. eapply rx_step; [apply rx_init|apply step_tx_begin].
Defined.

Lemma rx_mailbox_invariant_witness :
  (0 < 128 < 65536 /\ rx_reachable 128 (started plentiful_pool)) /\
  0 <= incoming_count (rx (started plentiful_pool)) <= 128 /\
  all_or_none (ready_left (rx (started plentiful_pool)))
              (ready_right (rx (started plentiful_pool)))
              (ready_left2 (rx (started plentiful_pool)))
              (ready_right2 (rx (started plentiful_pool))) /\
  forall buf len, exists st',
    usb_audio_receive_callback 128 buf len (started plentiful_pool) = Done st'.
Proof.
  split; [split; [exact block_size_128|exact started_rx_reachable]|].
  apply (rx_mailbox_invariant 128 block_size_128 (started plentiful_pool)
           started_rx_reachable).
Defined.

Lemma usb_block_ownership_witness :
  0 < 128 < 65536 /\
  exists lens st,
    run_usb_ops 128 sample_ops
      (AudioOutputUSB_begin (AudioInputUSB_begin (power_on plentiful_pool)))
      = Done (lens, st) /\
    usb_held st ++ pool_released (pool st)
      ≡ₚ fresh_ids (pool (power_on plentiful_pool)) (pool st)
         ++ mjoin (usb_deposited <$> sample_ops)
         ++ pool_released (pool (power_on plentiful_pool)).
Proof.
  split; [exact block_size_128|].
  apply (usb_block_ownership 128 block_size_128 sample_ops (power_on plentiful_pool)).
Defined.

Lemma usb_transmit_rate_witness :
  (0 < 128 < 65536 /\ rx_inv 128 (started plentiful_pool) /\
   tx_inv 128 (started plentiful_pool) /\ 0 <= count (started plentiful_pool) < 10) /\
  exists lens st',
    run_usb_ops 128 sample_ops (started plentiful_pool) = Done (lens, st') /\
    length lens = transmits sample_ops /\
    Forall (fun n => n = 352 \/ n = 360) lens /\
    foldr Z.add 0 lens
    = 8 * (44 * Z.of_nat (length lens)
           + (count (started plentiful_pool) + Z.of_nat (length lens)) / 10) /\
    count st' = (count (started plentiful_pool) + Z.of_nat (length lens)) mod 10.
Proof.
  assert (Hc : 0 <= count (started plentiful_pool) < 10) by (cbn; lia).
  split; [split; [exact block_size_128|split; [exact started_inv|
          split; [exact started_tx_inv|exact Hc]]]|].
  apply (usb_transmit_rate 128 block_size_128 sample_ops (started plentiful_pool)
           started_inv started_tx_inv Hc).
Defined.

Lemma streaming_wf : tx_wf 128 streaming.
Proof.
  split; [exact (tx_reachable_inv 128 block_size_128 streaming streaming_reachable)|].
  split; [|intros H; vm_compute in H; discriminate H].
  vm_compute. repeat constructor.
Defined.

Lemma nearly_drained_wf : tx_wf 128 nearly_drained.
Proof.
  assert (Ho : offset_1st (tx nearly_drained) = 88) by (vm_compute; reflexivity).
  split; [split|split].
  - vm_compute. repeat split; reflexivity.
  - rewrite Ho. lia.
  - vm_compute. repeat constructor.
  - intros H; vm_compute in H; discriminate H.
Defined.

Lemma tx_stream_in_order_witness :
  (0 < 128 < 65536 /\ tx_wf 128 streaming /\
   (Z.to_nat (if (u32 (count streaming + 1) <? 10)%Z then 44%Z else 45%Z)
    <= length (tx_pending 0 streaming))%nat /\
   (Z.to_nat (4 * (if u32 (count streaming + 1) <? 10 then 44 else 45))%Z
    <= length (usb_audio_transmit_buffer streaming))%nat) /\
  let target := if u32 (count streaming + 1) <? 10 then 44 else 45 in
  exists st',
    usb_audio_transmit_callback 128 streaming = Done (target * 8, st') /\
    (forall i k : nat, (i < Z.to_nat target)%nat -> (k < 4)%nat ->
       usb_audio_transmit_buffer st' !! (4 * i + k)%nat
       = Some (u16 (tx_pending k streaming !!! i))) /\
    (forall k : nat, (k < 4)%nat ->
       tx_pending k st' = drop (Z.to_nat target) (tx_pending k streaming)) /\
    tx_wf 128 st' /\
    usb_audio_underrun_count st' = usb_audio_underrun_count streaming.
Proof.
  assert (Hp : (Z.to_nat (if (u32 (count streaming + 1) <? 10)%Z then 44%Z else 45%Z)
                <= length (tx_pending 0 streaming))%nat) by (vm_compute; lia).
  assert (Hb : (Z.to_nat (4 * (if u32 (count streaming + 1) <? 10 then 44 else 45))%Z
                <= length (usb_audio_transmit_buffer streaming))%nat)
    by (vm_compute; lia).
  split; [split; [exact block_size_128|split; [exact streaming_wf|
          split; [exact Hp|exact Hb]]]|].
  apply (tx_stream_in_order 128 block_size_128 streaming streaming_wf Hp Hb).
Defined.

Lemma tx_mid_packet_starvation_witness :
  (0 < 128 < 65536 /\ tx_wf 128 nearly_drained /\
   (0 < length (tx_pending 0 nearly_drained)
    < Z.to_nat (if (u32 (count nearly_drained + 1) <? 10)%Z then 44%Z else 45%Z))%nat /\
   (Z.to_nat (4 * (if u32 (count nearly_drained + 1) <? 10 then 44 else 45))%Z
    <= length (usb_audio_transmit_buffer nearly_drained))%nat) /\
  let target := if u32 (count nearly_drained + 1) <? 10 then 44 else 45 in
  let r := length (tx_pending 0 nearly_drained) in
  exists st',
    usb_audio_transmit_callback 128 nearly_drained = Done (target * 8, st') /\
    (forall k : nat, (k < 4)%nat -> tx_pending k st' = []) /\
    usb_audio_underrun_count st' = usb_audio_underrun_count nearly_drained /\
    forall q : nat,
      usb_audio_transmit_buffer st' !! q
      = if decide (q < 2 * r)%nat
        then Some (u16 (tx_pending (q mod 4) nearly_drained !!! (q / 4)%nat))
        else if decide (q < Z.to_nat (4 * target) - 2 * r)%nat then Some 0
        else if decide (q < 4 * r)%nat
        then Some (u16 (tx_pending (q mod 4) nearly_drained !!! (q / 4)%nat))
        else usb_audio_transmit_buffer nearly_drained !! q.
Proof.
  assert (Hr : (0 < length (tx_pending 0 nearly_drained)
                < Z.to_nat (if (u32 (count nearly_drained + 1) <? 10)%Z then 44%Z else 45%Z))%nat)
    by (vm_compute; lia).
  assert (Hb : (Z.to_nat (4 * (if u32 (count nearly_drained + 1) <? 10 then 44 else 45))%Z
                <= length (usb_audio_transmit_buffer nearly_drained))%nat)
    by (vm_compute; lia).
  split; [split; [exact block_size_128|split; [exact nearly_drained_wf|
          split; [exact Hr|exact Hb]]]|].
  apply (tx_mid_packet_starvation 128 block_size_128 nearly_drained
           nearly_drained_wf Hr Hb).
Defined.

Lemma upstream_gap_full_size :
  forall k : nat, (k < 4)%nat -> full_size 128 (upstream_gap k).
Proof.
  intros k _. unfold upstream_gap, upstream, full_size.
  destruct (Nat.eqb k 1); [done|]. cbn [data]. by rewrite length_fmap, length_seq.
Defined.

Lemma tx_update_enqueue_witness :
  (0 < 128 < 65536 /\ tx_wf 128 streaming /\
   usb_audio_transmit_setting streaming <> 0 /\
   (forall k : nat, (k < 4)%nat -> full_size 128 (upstream_gap k))) /\
  upstream_gap 1 = None /\
  silence_available (upstream_gap <$> seq 0 4) (pool streaming) = true /\
  let st' := AudioOutputUSB_update 128 upstream_gap streaming in
  tx_wf 128 st' /\
  usb_audio_transmit_buffer st' = usb_audio_transmit_buffer streaming /\
  (forall k : nat, (k < 4)%nat ->
     tx_pending k st' = tx_pending k streaming ++ fed 128 upstream_gap k) /\
  fed 128 upstream_gap 1 = replicate 128 0.
Proof.
  assert (Hs : usb_audio_transmit_setting streaming <> 0) by (vm_compute; discriminate).
  assert (Ha : silence_available (upstream_gap <$> seq 0 4) (pool streaming) = true)
    by (vm_compute; reflexivity).
  split; [split; [exact block_size_128|split; [exact streaming_wf|
          split; [exact Hs|exact upstream_gap_full_size]]]|].
  split; [reflexivity|]. split; [exact Ha|].
  destruct (tx_update_enqueue 128 block_size_128 upstream_gap streaming streaming_wf Hs
              upstream_gap_full_size) as (Hwf & Hb & Hq).
  rewrite Ha in Hq.
  split; [exact Hwf|]. split; [exact Hb|]. split; [|reflexivity].
  destruct Hq as [[_ Hq]|[Hfull _]]; [exact Hq|].
  destruct Hfull as [b Hfull]. vm_compute in Hfull. discriminate.
Defined.

Lemma tx_update_deselected_witness :
  (0 < 128 < 65536 /\
   usb_audio_transmit_setting (started plentiful_pool) = 0 /\
   (Z.to_nat (4 * 45) <= length (usb_audio_transmit_buffer (started plentiful_pool)))%nat) /\
  let st := started plentiful_pool in
  let st1 := AudioOutputUSB_update 128 upstream st in
  let target := if u32 (count st + 1) <? 10 then 44 else 45 in
  tx st1 = Tx None None None None None None None None 0 /\
  pool_released (pool st1)
    ≡ₚ block_ids (upstream <$> seq 0 4) ++ block_ids (first_quad (tx st))
       ++ block_ids (second_quad (tx st)) ++ pool_released (pool st) /\
  exists st2,
    usb_audio_transmit_callback 128 st1 = Done (target * 8, st2) /\
    forall q : nat, (q < Z.to_nat (4 * target))%nat ->
      usb_audio_transmit_buffer st2 !! q = Some 0.
Proof.
  assert (Hb : (Z.to_nat (4 * 45)
                <= length (usb_audio_transmit_buffer (started plentiful_pool)))%nat)
    by (vm_compute; lia).
  split; [split; [exact block_size_128|split; [reflexivity|exact Hb]]|].
  apply (tx_update_deselected 128 block_size_128 upstream (started plentiful_pool)
           eq_refl Hb).
Defined.

Lemma sync_feedback_exact_witness :
  0 <= feedback_accumulator (started plentiful_pool) < 4294967296 /\
  let st := started plentiful_pool in
  let sy1 := configure_sync 0 (Sync 0 0 0) in
  let frac := 10 in
  length (snd (sync_event st sy1)) = 3%nat /\
  usb_audio_sync_feedback (fst (sync_event st sy1))
  = feedback_accumulator st / 2 ^ frac /\
  le_value (snd (sync_event st sy1)) = feedback_accumulator st / 2 ^ frac /\
  (let v := usb_audio_sync_feedback (fst (sync_event (usb_audio_configure st) sy1)) in
   10 * v <= 441 * 2 ^ (24 - frac) < 10 * (v + 1)).
Proof.
  assert (Hfb : 0 <= feedback_accumulator (started plentiful_pool) < 4294967296)
    by (cbn; lia).
  split; [exact Hfb|].
  apply (sync_feedback_exact 0 (started plentiful_pool) (Sync 0 0 0) Hfb).
Defined.

Lemma usb_copy_round_trip_witness :
  (Forall in_int16 [1; 2; 3] /\ Forall in_int16 [-1; -2; -3] /\
   Forall in_int16 [10; 20; 30] /\ Forall in_int16 [-32768; 32767; 0] /\
   (4 * 2 <= length (replicate 8 7))%nat) /\
  copy_to_buffers_4ch 2
    (as_uint32 (copy_from_buffers_4ch 2 0 1 [1; 2; 3] [-1; -2; -3] [10; 20; 30]
                  [-32768; 32767; 0] (replicate 8 7)))
    0 0 [0; 0] [0; 0] [0; 0] [0; 0]
  = (splice 0 (take 2 (drop 1 [1; 2; 3])) [0; 0],
     splice 0 (take 2 (drop 1 [-1; -2; -3])) [0; 0],
     splice 0 (take 2 (drop 1 [10; 20; 30])) [0; 0],
     splice 0 (take 2 (drop 1 [-32768; 32767; 0])) [0; 0]).
Proof.
  assert (F1 : Forall in_int16 [1; 2; 3]) by (repeat constructor; unfold in_int16; lia).
  assert (F2 : Forall in_int16 [-1; -2; -3]) by (repeat constructor; unfold in_int16; lia).
  assert (F3 : Forall in_int16 [10; 20; 30]) by (repeat constructor; unfold in_int16; lia).
  assert (F4 : Forall in_int16 [-32768; 32767; 0])
    by (repeat constructor; unfold in_int16; lia).
  assert (Hb : (4 * 2 <= length (replicate 8 7))%nat) by (cbn; lia).
  split; [split; [exact F1|split; [exact F2|split; [exact F3|split; [exact F4|exact Hb]]]]|].
  apply (usb_copy_round_trip 2 1 0 [1; 2; 3] [-1; -2; -3] [10; 20; 30]
           [-32768; 32767; 0] (replicate 8 7) [0; 0] [0; 0] [0; 0] [0; 0]
           F1 F2 F3 F4); cbn; lia.
Defined.

End MoreRuns.
